(** * wordEmbeddingForWeb: a shallow embedding of [app.js]

    The repository holds four near-duplicate variants of one browser page
    (all concatenated in [src/app.js]):

    - [V1] (lines 1-223): everything is loaded by [init] at page load;
    - [V2] (lines 224-455): libraries, tokenizer, coordinates and the
      similarity model are loaded lazily by [ensure...] functions;
    - [V3] (lines 456-682): as [V2], with a deadline on the tokenizer build;
    - [V4] (lines 683-918): tokenizer at page load, coordinates on the first
      run, similarity model on the first plot click.

    Module-level [let] variables and the DOM elements in [els] become the
    fields of one [State] record that is threaded explicitly; [throw] and
    rejected promises become the [Throw] outcome of a small state-and-error
    monad.  [await] is sequencing: one handler runs at a time.

    JavaScript numbers are IEEE-754 binary64 values; they are modelled by
    [spec_float] with the operations of [SpecFloat] at precision 53 and
    maximal exponent 1024.  Strings are modelled by their UTF-8 encoding. *)

From Stdlib Require Import ZArith List String Ascii Bool Lia Sorted.
From Stdlib Require Import Floats.SpecFloat.
From stdpp Require Import gmap strings list fin_maps pretty.

Local Open Scope nat_scope.

(** ** JavaScript numbers *)

Abbreviation Number := spec_float.

Module Num.

Definition prec : Z := 53.
Definition emax : Z := 1024.

Definition zero : Number := S754_zero false.
Definition NaN : Number := S754_nan.

Definition add : Number -> Number -> Number := SFadd prec emax.
Definition sub : Number -> Number -> Number := SFsub prec emax.
Definition mul : Number -> Number -> Number := SFmul prec emax.
Definition div : Number -> Number -> Number := SFdiv prec emax.
Definition sqrt : Number -> Number := SFsqrt prec emax.

(** [x === y] on numbers: false as soon as one side is NaN, and [-0 === 0]. *)
Definition strict_eq (x y : Number) : bool := SFeqb x y.

(** [x > 0], the test by which a sort decides from the value of its
    comparator that two elements must be exchanged (NaN counts as [+0]). *)
Definition is_pos (x : Number) : bool := SFltb zero x.

(** [Number.isFinite]. *)
Definition isFinite (x : Number) : bool :=
  match x with
  | S754_zero _ | S754_finite _ _ _ => true
  | S754_infinity _ | S754_nan => false
  end.

Definition is_nan (x : Number) : bool :=
  match x with S754_nan => true | _ => false end.

(** The value of an integer literal or of a small integer as a number. *)
Definition of_Z (z : Z) : Number := binary_normalize prec emax z 0 false.

Definition one : Number := of_Z 1.

(** [x < y] and [x <= y] on numbers. *)
Definition ltb (x y : Number) : bool := SFltb x y.
Definition leb (x y : Number) : bool := SFleb x y.

End Num.

(** ** [Float32Array] over a fetched [ArrayBuffer] *)

Module Float32.

(** The number denoted by the 32 bits [w] of a binary32 value. *)
Definition of_bits (w : Z) : Number :=
  let s := Z.testbit w 31 in
  let e := Z.land (Z.shiftr w 23) 255 in
  let m := Z.land w 8388607 in
  if (e =? 255)%Z then
    if (m =? 0)%Z then S754_infinity s else S754_nan
  else if (e =? 0)%Z then
    match m with
    | Zpos p => binary_round Num.prec Num.emax s p (-149)
    | _ => S754_zero s
    end
  else
    match (m + 8388608)%Z with
    | Zpos p => binary_round Num.prec Num.emax s p (e - 150)
    | _ => S754_nan
    end.

Definition byte_Z (b : Byte.byte) : Z := Z.of_N (Byte.to_N b).

(** Four bytes in the platform's (little-endian) order. *)
Definition word_of_bytes (b0 b1 b2 b3 : Byte.byte) : Z :=
  (byte_Z b0 + 256 * byte_Z b1 + 65536 * byte_Z b2 + 16777216 * byte_Z b3)%Z.

(** [new Float32Array(buf)]: one element per four bytes; a byte length that
    is not a multiple of four makes the constructor throw a RangeError
    ([None]). *)
Fixpoint view (buf : list Byte.byte) : option (list Number) :=
  match buf with
  | [] => Some []
  | b0 :: b1 :: b2 :: b3 :: rest =>
      match view rest with
      | Some l => Some (of_bits (word_of_bytes b0 b1 b2 b3) :: l)
      | None => None
      end
  | _ => None
  end.

End Float32.

(** ** Cosine similarity ([cosineSimByIndex], identical in the four variants) *)

Definition SIM_D : nat := 50.

(** [vecData[n]] as it is used in a product: an index past the end reads
    [undefined], which every arithmetic operation turns into NaN. *)
Definition elem (vecData : list Number) (n : nat) : Number :=
  default Num.NaN (vecData !! n).

(** The body of the [for] loop, on the accumulators [(dot, ni, nj)]. *)
Definition cos_step (vecData : list Number) (offI offJ : nat)
    (acc : Number * Number * Number) (k : nat) : Number * Number * Number :=
  let '(dot, ni, nj) := acc in
  let a := elem vecData (offI + k) in
  let b := elem vecData (offJ + k) in
  (Num.add dot (Num.mul a b), Num.add ni (Num.mul a a), Num.add nj (Num.mul b b)).

Definition cos_sums (vecData : list Number) (i j : nat) : Number * Number * Number :=
  let offI := i * SIM_D in
  let offJ := j * SIM_D in
  fold_left (cos_step vecData offI offJ) (seq 0 SIM_D) (Num.zero, Num.zero, Num.zero).

Definition cosineSimByIndex (vecData : list Number) (i j : nat) : Number :=
  let '(dot, ni, nj) := cos_sums vecData i j in
  if Num.strict_eq ni Num.zero || Num.strict_eq nj Num.zero then Num.zero
  else Num.div dot (Num.mul (Num.sqrt ni) (Num.sqrt nj)).

(** ** Tokens and tokenization ([tokenize] / [tokenizeText]) *)

(** The fields of a kuromoji token that the page reads.  [basic_form] may be
    missing ([None]). *)
Record Token := {
  pos : string;
  surface_form : string;
  basic_form : option string
}.

(** The tokenizer object: its [tokenize] method. *)
Definition Tokenizer : Type := string -> list Token.

Definition POS_NOUN : string := "名詞".
Definition POS_VERB : string := "動詞".
Definition POS_ADJ : string := "形容詞".

Definition isTargetPOS (t : Token) : bool :=
  String.eqb (pos t) POS_NOUN || String.eqb (pos t) POS_VERB
  || String.eqb (pos t) POS_ADJ.

(** [w.trim()] is empty: every code point of [w] is white space or a line
    terminator (read on the UTF-8 encoding). *)
Fixpoint all_space (l : list N) : bool :=
  match l with
  | [] => true
  | a :: t1 =>
      if ((9 <=? a) && (a <=? 13) || (a =? 32))%N then all_space t1
      else
        match t1 with
        | b :: t2 =>
            if ((a =? 194) && (b =? 160))%N then all_space t2
            else
              match t2 with
              | c :: t3 =>
                  if ((a =? 225) && (b =? 154) && (c =? 128)
                      || (a =? 226) && (b =? 128)
                         && ((128 <=? c) && (c <=? 138) || (c =? 168)
                             || (c =? 169) || (c =? 175))
                      || (a =? 226) && (b =? 129) && (c =? 159)
                      || (a =? 227) && (b =? 128) && (c =? 128)
                      || (a =? 239) && (b =? 187) && (c =? 191))%N
                  then all_space t3 else false
              | [] => false
              end
        | [] => false
        end
  end.

Definition trim_is_empty (w : string) : bool :=
  all_space (map N_of_ascii (list_ascii_of_string w)).

(** [(t.basic_form && t.basic_form !== "*") ? t.basic_form : t.surface_form] *)
Definition word_form (t : Token) : string :=
  match basic_form t with
  | Some b => if negb (String.eqb b "") && negb (String.eqb b "*") then b
              else surface_form t
  | None => surface_form t
  end.

(** The [for (const t of tokens)] loop; [posFilter] is [els.posFilter.checked]. *)
Fixpoint tokenize_loop (posFilter : bool) (tokens : list Token) : list string :=
  match tokens with
  | [] => []
  | t :: rest =>
      if posFilter && negb (isTargetPOS t) then tokenize_loop posFilter rest
      else
        let w := word_form t in
        if String.eqb w "" || trim_is_empty w then tokenize_loop posFilter rest
        else w :: tokenize_loop posFilter rest
  end.

(** ** [[...new Set(words)]] *)

(** A [Set] keeps its elements in insertion order; adding an element that is
    already there changes nothing. *)
Definition Set_add (s : list string) (w : string) : list string :=
  if bool_decide (w ∈ s) then s else s ++ [w].

Definition Set_of (words : list string) : list string :=
  fold_left Set_add words [].

(** [if (els.uniqueOnly.checked) words = [...new Set(words)]] *)
Definition apply_unique (uniqueOnly : bool) (words : list string) : list string :=
  if uniqueOnly then Set_of words else words.

(** ** Assets, errors and the page state *)

Inductive Asset := COORDS_CSV | VOCAB_JSON | VEC_BIN.

Inductive Script := PLOTLY_URL | KUROMOJI_URL.

#[global] Instance Script_eq_dec : EqDecision Script.
Proof. solve_decision. Defined.

Inductive Error :=
| FetchFailed (a : Asset)            (* rejected [fetch], or a body that does not parse *)
| ScriptFailed (src : Script)        (* [new Error(`Failed to load: ${src}`)] *)
| BuildFailed                        (* the [err] of kuromoji's build callback *)
| BuildTimeout                       (* [new Error("kuromoji build timeout")] *)
| RangeError                         (* [new Float32Array] on a ragged buffer *)
| SizeMismatch (got expected : nat)  (* the size check of the vector table *)
| TypeError.                         (* a property read on [null] or [undefined] *)

Inductive Alert :=
| AlertText (msg : string)
| AlertError (e : Error).            (* [alert(`エラー: ${e.message}`)] *)

(** One data line of [coords.csv] after [parseCSVLine] and [Number]: the
    word field and the two converted coordinate fields (NaN when a field is
    missing or is not a number). *)
Abbreviation Row := (string * Number * Number)%type.

(** The value [{ x: xx, y: yy }] of the coordinate table, and the pair
    [[c.x, c.y]] pushed for a plotted word. *)
Abbreviation Point := (Number * Number)%type.

Record State := {
  (* module-level variables *)
  tokenizer : option Tokenizer;
  coordsLoaded : bool;
  coordMap : gmap string Point;
  simLoaded : bool;
  vocab : list string;
  wordToIndex : gmap string nat;
  vecData : option (list Number);
  currentWords : list string;
  currentXY : list Point;
  (* the page *)
  status : string;                     (* [els.status.textContent] *)
  run_disabled : bool;                 (* [els.run.disabled] *)
  selectedWord : string;               (* [els.selectedWord.textContent] *)
  simList : list (string * Number);    (* the [<li>] of [els.simList]: word and score *)
  plot : option (list string * list Point); (* arguments of the last [newPlot] *)
  scripts : list Script;               (* [<script>] tags added by [loadScriptOnce] *)
  libs : list Script;                  (* libraries whose global is defined *)
  alerts : list Alert;
  (* history of the requests made, oldest first *)
  fetched : list Asset
}.

(** What the outside world answers during one handler: the body of each
    asset ([None]: the request or the parsing of its body fails), whether a
    script loads, and what the tokenizer build yields. *)
Inductive BuildResult :=
| Built (tk : Tokenizer)
| BuildErr
| BuildHangs.

Record Net := {
  net_coords : option (list Row);      (* the non-blank lines, header first *)
  net_vocab : option (list string);
  net_vec : option (list Byte.byte);
  net_script : Script -> bool;
  net_build : BuildResult
}.

(** *** Field updates *)

Definition set_tokenizer (v : option Tokenizer) (s : State) : State :=
  {| tokenizer := v; coordsLoaded := coordsLoaded s; coordMap := coordMap s;
     simLoaded := simLoaded s; vocab := vocab s; wordToIndex := wordToIndex s;
     vecData := vecData s; currentWords := currentWords s;
     currentXY := currentXY s; status := status s;
     run_disabled := run_disabled s; selectedWord := selectedWord s;
     simList := simList s; plot := plot s; scripts := scripts s;
     libs := libs s; alerts := alerts s; fetched := fetched s |}.

Definition set_coordsLoaded (v : bool) (s : State) : State :=
  {| tokenizer := tokenizer s; coordsLoaded := v; coordMap := coordMap s;
     simLoaded := simLoaded s; vocab := vocab s; wordToIndex := wordToIndex s;
     vecData := vecData s; currentWords := currentWords s;
     currentXY := currentXY s; status := status s;
     run_disabled := run_disabled s; selectedWord := selectedWord s;
     simList := simList s; plot := plot s; scripts := scripts s;
     libs := libs s; alerts := alerts s; fetched := fetched s |}.

Definition set_coordMap (v : gmap string Point) (s : State) : State :=
  {| tokenizer := tokenizer s; coordsLoaded := coordsLoaded s; coordMap := v;
     simLoaded := simLoaded s; vocab := vocab s; wordToIndex := wordToIndex s;
     vecData := vecData s; currentWords := currentWords s;
     currentXY := currentXY s; status := status s;
     run_disabled := run_disabled s; selectedWord := selectedWord s;
     simList := simList s; plot := plot s; scripts := scripts s;
     libs := libs s; alerts := alerts s; fetched := fetched s |}.

Definition set_simLoaded (v : bool) (s : State) : State :=
  {| tokenizer := tokenizer s; coordsLoaded := coordsLoaded s;
     coordMap := coordMap s; simLoaded := v; vocab := vocab s;
     wordToIndex := wordToIndex s; vecData := vecData s;
     currentWords := currentWords s; currentXY := currentXY s;
     status := status s; run_disabled := run_disabled s;
     selectedWord := selectedWord s; simList := simList s; plot := plot s;
     scripts := scripts s; libs := libs s; alerts := alerts s;
     fetched := fetched s |}.

Definition set_vocab (v : list string) (s : State) : State :=
  {| tokenizer := tokenizer s; coordsLoaded := coordsLoaded s;
     coordMap := coordMap s; simLoaded := simLoaded s; vocab := v;
     wordToIndex := wordToIndex s; vecData := vecData s;
     currentWords := currentWords s; currentXY := currentXY s;
     status := status s; run_disabled := run_disabled s;
     selectedWord := selectedWord s; simList := simList s; plot := plot s;
     scripts := scripts s; libs := libs s; alerts := alerts s;
     fetched := fetched s |}.

Definition set_wordToIndex (v : gmap string nat) (s : State) : State :=
  {| tokenizer := tokenizer s; coordsLoaded := coordsLoaded s;
     coordMap := coordMap s; simLoaded := simLoaded s; vocab := vocab s;
     wordToIndex := v; vecData := vecData s;
     currentWords := currentWords s; currentXY := currentXY s;
     status := status s; run_disabled := run_disabled s;
     selectedWord := selectedWord s; simList := simList s; plot := plot s;
     scripts := scripts s; libs := libs s; alerts := alerts s;
     fetched := fetched s |}.

Definition set_vecData (v : option (list Number)) (s : State) : State :=
  {| tokenizer := tokenizer s; coordsLoaded := coordsLoaded s;
     coordMap := coordMap s; simLoaded := simLoaded s; vocab := vocab s;
     wordToIndex := wordToIndex s; vecData := v;
     currentWords := currentWords s; currentXY := currentXY s;
     status := status s; run_disabled := run_disabled s;
     selectedWord := selectedWord s; simList := simList s; plot := plot s;
     scripts := scripts s; libs := libs s; alerts := alerts s;
     fetched := fetched s |}.

Definition set_currentWords (v : list string) (s : State) : State :=
  {| tokenizer := tokenizer s; coordsLoaded := coordsLoaded s;
     coordMap := coordMap s; simLoaded := simLoaded s; vocab := vocab s;
     wordToIndex := wordToIndex s; vecData := vecData s;
     currentWords := v; currentXY := currentXY s;
     status := status s; run_disabled := run_disabled s;
     selectedWord := selectedWord s; simList := simList s; plot := plot s;
     scripts := scripts s; libs := libs s; alerts := alerts s;
     fetched := fetched s |}.

Definition set_currentXY (v : list Point) (s : State) : State :=
  {| tokenizer := tokenizer s; coordsLoaded := coordsLoaded s;
     coordMap := coordMap s; simLoaded := simLoaded s; vocab := vocab s;
     wordToIndex := wordToIndex s; vecData := vecData s;
     currentWords := currentWords s; currentXY := v;
     status := status s; run_disabled := run_disabled s;
     selectedWord := selectedWord s; simList := simList s; plot := plot s;
     scripts := scripts s; libs := libs s; alerts := alerts s;
     fetched := fetched s |}.

Definition set_status (v : string) (s : State) : State :=
  {| tokenizer := tokenizer s; coordsLoaded := coordsLoaded s;
     coordMap := coordMap s; simLoaded := simLoaded s; vocab := vocab s;
     wordToIndex := wordToIndex s; vecData := vecData s;
     currentWords := currentWords s; currentXY := currentXY s;
     status := v; run_disabled := run_disabled s;
     selectedWord := selectedWord s; simList := simList s; plot := plot s;
     scripts := scripts s; libs := libs s; alerts := alerts s;
     fetched := fetched s |}.

Definition set_run_disabled (v : bool) (s : State) : State :=
  {| tokenizer := tokenizer s; coordsLoaded := coordsLoaded s;
     coordMap := coordMap s; simLoaded := simLoaded s; vocab := vocab s;
     wordToIndex := wordToIndex s; vecData := vecData s;
     currentWords := currentWords s; currentXY := currentXY s;
     status := status s; run_disabled := v;
     selectedWord := selectedWord s; simList := simList s; plot := plot s;
     scripts := scripts s; libs := libs s; alerts := alerts s;
     fetched := fetched s |}.

Definition set_selectedWord (v : string) (s : State) : State :=
  {| tokenizer := tokenizer s; coordsLoaded := coordsLoaded s;
     coordMap := coordMap s; simLoaded := simLoaded s; vocab := vocab s;
     wordToIndex := wordToIndex s; vecData := vecData s;
     currentWords := currentWords s; currentXY := currentXY s;
     status := status s; run_disabled := run_disabled s;
     selectedWord := v; simList := simList s; plot := plot s;
     scripts := scripts s; libs := libs s; alerts := alerts s;
     fetched := fetched s |}.

Definition set_simList (v : list (string * Number)) (s : State) : State :=
  {| tokenizer := tokenizer s; coordsLoaded := coordsLoaded s;
     coordMap := coordMap s; simLoaded := simLoaded s; vocab := vocab s;
     wordToIndex := wordToIndex s; vecData := vecData s;
     currentWords := currentWords s; currentXY := currentXY s;
     status := status s; run_disabled := run_disabled s;
     selectedWord := selectedWord s; simList := v; plot := plot s;
     scripts := scripts s; libs := libs s; alerts := alerts s;
     fetched := fetched s |}.

Definition set_plot (v : option (list string * list Point)) (s : State) : State :=
  {| tokenizer := tokenizer s; coordsLoaded := coordsLoaded s;
     coordMap := coordMap s; simLoaded := simLoaded s; vocab := vocab s;
     wordToIndex := wordToIndex s; vecData := vecData s;
     currentWords := currentWords s; currentXY := currentXY s;
     status := status s; run_disabled := run_disabled s;
     selectedWord := selectedWord s; simList := simList s; plot := v;
     scripts := scripts s; libs := libs s; alerts := alerts s;
     fetched := fetched s |}.

Definition set_scripts (v : list Script) (s : State) : State :=
  {| tokenizer := tokenizer s; coordsLoaded := coordsLoaded s;
     coordMap := coordMap s; simLoaded := simLoaded s; vocab := vocab s;
     wordToIndex := wordToIndex s; vecData := vecData s;
     currentWords := currentWords s; currentXY := currentXY s;
     status := status s; run_disabled := run_disabled s;
     selectedWord := selectedWord s; simList := simList s; plot := plot s;
     scripts := v; libs := libs s; alerts := alerts s;
     fetched := fetched s |}.

Definition set_libs (v : list Script) (s : State) : State :=
  {| tokenizer := tokenizer s; coordsLoaded := coordsLoaded s;
     coordMap := coordMap s; simLoaded := simLoaded s; vocab := vocab s;
     wordToIndex := wordToIndex s; vecData := vecData s;
     currentWords := currentWords s; currentXY := currentXY s;
     status := status s; run_disabled := run_disabled s;
     selectedWord := selectedWord s; simList := simList s; plot := plot s;
     scripts := scripts s; libs := v; alerts := alerts s;
     fetched := fetched s |}.

Definition set_alerts (v : list Alert) (s : State) : State :=
  {| tokenizer := tokenizer s; coordsLoaded := coordsLoaded s;
     coordMap := coordMap s; simLoaded := simLoaded s; vocab := vocab s;
     wordToIndex := wordToIndex s; vecData := vecData s;
     currentWords := currentWords s; currentXY := currentXY s;
     status := status s; run_disabled := run_disabled s;
     selectedWord := selectedWord s; simList := simList s; plot := plot s;
     scripts := scripts s; libs := libs s; alerts := v;
     fetched := fetched s |}.

Definition set_fetched (v : list Asset) (s : State) : State :=
  {| tokenizer := tokenizer s; coordsLoaded := coordsLoaded s;
     coordMap := coordMap s; simLoaded := simLoaded s; vocab := vocab s;
     wordToIndex := wordToIndex s; vecData := vecData s;
     currentWords := currentWords s; currentXY := currentXY s;
     status := status s; run_disabled := run_disabled s;
     selectedWord := selectedWord s; simList := simList s; plot := plot s;
     scripts := scripts s; libs := libs s; alerts := alerts s;
     fetched := v |}.

(** ** The state-and-error monad of the handlers *)

(** A handler returns, throws (an [async] function: its promise rejects), or
    stays suspended for ever at an [await] whose promise never settles. *)
Inductive Res (A : Type) :=
| Ok (a : A) (s : State)
| Throw (e : Error) (s : State)
| Pending (s : State).

Arguments Ok {A} a s.
Arguments Throw {A} e s.
Arguments Pending {A} s.

Definition M (A : Type) : Type := State -> Res A.

Definition final_state {A} (r : Res A) : State :=
  match r with Ok _ s => s | Throw _ s => s | Pending s => s end.

Definition returns {A} (r : Res A) : bool :=
  match r with Ok _ _ => true | _ => false end.

Definition throws {A} (r : Res A) : bool :=
  match r with Throw _ _ => true | _ => false end.

#[global] Instance M_ret : MRet M := fun A a s => Ok a s.

#[global] Instance M_bind : MBind M := fun A B f m s =>
  match m s with
  | Ok a s' => f a s'
  | Throw e s' => Throw e s'
  | Pending s' => Pending s'
  end.

Definition throw {A} (e : Error) : M A := fun s => Throw e s.

Definition get : M State := fun s => Ok s s.

Definition modify (f : State -> State) : M unit := fun s => Ok tt (f s).

(** [try { body } catch (e) { handler e }] *)
Definition try_catch {A} (body : M A) (handler : Error -> M A) : M A := fun s =>
  match body s with
  | Throw e s' => handler e s'
  | r => r
  end.

(** [try { body } finally { cleanup }], for a [cleanup] that does not throw. *)
Definition try_finally {A} (body : M A) (cleanup : State -> State) : M A := fun s =>
  match body s with
  | Ok a s' => Ok a (cleanup s')
  | Throw e s' => Throw e (cleanup s')
  | Pending s' => Pending s'
  end.

Definition setStatus (msg : string) : M unit := modify (set_status msg).

Definition alert (a : Alert) : M unit :=
  modify (fun s => set_alerts (alerts s ++ [a]) s).

(** [await (await fetch(url)).json()] and its siblings: the request is
    recorded, then the body is returned or the promise rejects. *)
Definition fetch {A} (a : Asset) (body : option A) : M A := fun s =>
  let s' := set_fetched (fetched s ++ [a]) s in
  match body with
  | Some b => Ok b s'
  | None => Throw (FetchFailed a) s'
  end.

(** ** The text of [coords.csv] *)

Definition LF : ascii := "010"%char.
Definition CR : ascii := "013"%char.

(** The first part of a split grows by one character. *)
Definition cons_head (c : ascii) (l : list string) : list string :=
  match l with
  | p :: ps => String c p :: ps
  | [] => [String c EmptyString]
  end.

(** [s.split(sep)] for a separator of one character. *)
Fixpoint split_on (sep : ascii) (s : string) : list string :=
  match s with
  | EmptyString => [EmptyString]
  | String c rest =>
      if Ascii.eqb c sep then EmptyString :: split_on sep rest
      else cons_head c (split_on sep rest)
  end.

(** [parseCSVLine(line)]: [line.split(",")] *)
Definition parseCSVLine (line : string) : list string := split_on "," line.

Definition starts_with (c : ascii) (s : string) : bool :=
  match s with
  | String c' _ => Ascii.eqb c' c
  | EmptyString => false
  end.

(** [txt.split(/\r?\n/)]: the text is cut at every line feed, and a carriage
    return directly before a line feed belongs to the cut. *)
Fixpoint split_lines (txt : string) : list string :=
  match txt with
  | EmptyString => [EmptyString]
  | String c rest =>
      if Ascii.eqb c LF then EmptyString :: split_lines rest
      else if Ascii.eqb c CR && starts_with LF rest then split_lines rest
      else cons_head c (split_lines rest)
  end.

(** [txt.split(/\r?\n/).filter(l => l.trim().length > 0)] *)
Definition text_lines (txt : string) : list string :=
  filter (fun l => trim_is_empty l = false) (split_lines txt).

(** [Number(x)] for a field of a line: a field that is missing is
    [undefined], which [Number] turns into NaN; [toNumber] is the conversion
    of a string. *)
Definition field_number (toNumber : string → Number) (f : option string) : Number :=
  match f with
  | Some x => toNumber x
  | None => Num.NaN
  end.

(** [const [word, x, y] = parseCSVLine(line); const xx = Number(x), yy = Number(y)] *)
Definition row_of_line (toNumber : string → Number) (line : string) : Row :=
  let parts := parseCSVLine line in
  (default EmptyString (parts !! 0),
   field_number toNumber (parts !! 1), field_number toNumber (parts !! 2)).

(** The rows that the loop over [lines] goes through, header first. *)
Definition rows_of_text (toNumber : string → Number) (txt : string) : list Row :=
  map (row_of_line toNumber) (text_lines txt).

(** ** Tables and loops shared by the variants *)

(** The body of the loop over the lines of [coords.csv]. *)
Definition coords_step (m : gmap string Point) (r : Row) : gmap string Point :=
  let '(word, xx, yy) := r in
  if String.eqb word "" then m
  else if Num.isFinite xx && Num.isFinite yy then <[word := (xx, yy)]> m
  else m.

(** [for (let i = 1; i < lines.length; i++)]: the header line is skipped. *)
Definition coords_loop (lines : list Row) (m : gmap string Point) : gmap string Point :=
  fold_left coords_step (drop 1 lines) m.

(** [new Map(vocab.map((w, i) => [w, i]))]: a later entry replaces an earlier
    one with the same key. *)
Definition index_map (vocab : list string) : gmap string nat :=
  fold_left (fun m (p : string * nat) => <[p.1 := p.2]> m)
            (imap (fun i w => (w, i)) vocab) ∅.

(** [new Float32Array(buf)] *)
Definition new_Float32Array (buf : list Byte.byte) : M (list Number) :=
  match Float32.view buf with
  | Some v => mret v
  | None => throw RangeError
  end.

(** The selection loop of [run] in [V1]: a word is kept when it has a
    coordinate and an index. *)
Fixpoint select_both (cm : gmap string Point) (wti : gmap string nat)
    (words : list string) : list string * list Point :=
  match words with
  | [] => ([], [])
  | w :: rest =>
      let '(kept, xy) := select_both cm wti rest in
      match cm !! w with
      | None => (kept, xy)
      | Some c =>
          if bool_decide (is_Some (wti !! w)) then (w :: kept, (c.1, c.2) :: xy)
          else (kept, xy)
      end
  end.

(** The selection loop of [run] in [V2], [V3] and [V4]: only the coordinate
    table is consulted. *)
Fixpoint select_coords (cm : gmap string Point) (words : list string)
    : list string * list Point :=
  match words with
  | [] => ([], [])
  | w :: rest =>
      let '(kept, xy) := select_coords cm rest in
      match cm !! w with
      | None => (kept, xy)
      | Some c => (w :: kept, (c.1, c.2) :: xy)
      end
  end.

(** *** Sorting by score *)

(** The comparator [(a, b) => b.s - a.s]. *)
Definition by_score_desc (a b : string * Number) : Number := Num.sub b.2 a.2.

(** [Array.prototype.sort] is a stable sort: [b] is moved in front of [a]
    only when the comparator is positive on [(a, b)].  For a consistent
    comparator every stable sort gives the same array; insertion sort is
    the one written here. *)
Fixpoint sort_insert {A} (cmp : A -> A -> Number) (x : A) (l : list A) : list A :=
  match l with
  | [] => [x]
  | y :: rest =>
      if Num.is_pos (cmp x y) then y :: sort_insert cmp x rest
      else x :: y :: rest
  end.

Definition js_sort {A} (cmp : A -> A -> Number) (l : list A) : list A :=
  foldr (sort_insert cmp) [] l.

(** The chain that builds the similar-word list in [V1]:
    [.filter(w => w !== word).map(...).filter(Boolean)]. *)
Definition scored_v1 (v : list Number) (wti : gmap string nat) (word : string)
    (idx : nat) (pool : list string) : list (string * Number) :=
  omap (fun w => match wti !! w with
                 | None => None
                 | Some j => Some (w, cosineSimByIndex v idx j)
                 end)
       (filter (fun w => w ≠ word) pool).

(** The same chain in [V2], [V3] and [V4]:
    [.filter(w => w !== word && wordToIndex.has(w)).map(...)].  A word without
    an index would be scored against [undefined], which reads no element, like
    an index past the end of the table. *)
Definition scored_lazy (v : list Number) (wti : gmap string nat) (word : string)
    (idx : nat) (pool : list string) : list (string * Number) :=
  map (fun w => (w, cosineSimByIndex v idx (default (length v) (wti !! w))))
      (filter (fun w => w ≠ word ∧ is_Some (wti !! w)) pool).

(** [.sort((a, b) => b.s - a.s).slice(0, 10)] *)
Definition top10 (l : list (string * Number)) : list (string * Number) :=
  take 10 (js_sort by_score_desc l).

(** [renderPlot]: [Plotly.newPlot] draws the words and registers the click
    handler; without the library the call is a read on [undefined]. *)
Definition renderPlot (words : list string) (xy : list Point) : M unit :=
  s ← get;
  if bool_decide (PLOTLY_URL ∈ libs s) then modify (set_plot (Some (words, xy)))
  else throw TypeError.

(** [tokenizer.tokenize(text)] followed by the filtering loop. *)
Definition tokenize (posFilter : bool) (text : string) : M (list string) :=
  s ← get;
  match tokenizer s with
  | None => throw TypeError
  | Some tk => mret (tokenize_loop posFilter (tk text))
  end.

(** The promise around [kuromoji.builder(...).build(callback)]. *)
Definition build_tokenizer (net : Net) : M Tokenizer := fun s =>
  if bool_decide (KUROMOJI_URL ∈ libs s) then
    match net_build net with
    | Built tk => Ok tk s
    | BuildErr => Throw BuildFailed s
    | BuildHangs => Pending s
    end
  else Throw TypeError s.

(** [loadScriptOnce(src)] *)
Definition loadScriptOnce (net : Net) (src : Script) : M unit :=
  s ← get;
  if bool_decide (src ∈ scripts s) then mret tt
  else
    modify (fun s => set_scripts (scripts s ++ [src]) s);;
    if net_script net src then modify (fun s => set_libs (libs s ++ [src]) s)
    else throw (ScriptFailed src).

Definition MSG_TOKENIZING : string := "分かち書き中…".
Definition MSG_TOO_FEW : string := "プロット可能な単語が少なすぎます（2語以上必要）。".
Definition MSG_EMPTY_TEXT : string := "テキストを入力してください。".
Definition MSG_READY : string := "準備完了".
Definition MSG_ERROR : string := "エラー（Console参照）".

(** ** Variant 1 (lines 1-223): everything loaded by [init] *)

Module V1.

Definition loadTokenizer (net : Net) : M Tokenizer := build_tokenizer net.

Definition loadVocabAndVec (net : Net) : M unit :=
  setStatus "語彙を読み込み中…";;
  v ← fetch VOCAB_JSON (net_vocab net);
  modify (set_vocab v);;
  modify (set_wordToIndex (index_map v));;
  setStatus "圧縮ベクトル(vec50.bin)を読み込み中…";;
  buf ← fetch VEC_BIN (net_vec net);
  vd ← new_Float32Array buf;
  modify (set_vecData (Some vd));;
  let expected := length v * SIM_D in
  if bool_decide (length vd ≠ expected) then throw (SizeMismatch (length vd) expected)
  else mret tt.

Definition loadCoords (net : Net) : M unit :=
  setStatus "座標(coords.csv)を読み込み中…";;
  lines ← fetch COORDS_CSV (net_coords net);
  modify (fun s => set_coordMap (coords_loop lines (coordMap s)) s).

Definition showSimilar (word : string) : M unit :=
  modify (set_selectedWord word);;
  modify (set_simList []);;
  s ← get;
  match wordToIndex s !! word with
  | None => mret tt
  | Some idx =>
      match vecData s with
      | Some v =>
          let candidates :=
            top10 (scored_v1 v (wordToIndex s) word idx (currentWords s)) in
          modify (fun s => set_simList (simList s ++ candidates) s)
      | None =>
          (* [vecData] is still [null]: the first candidate with an index
             makes [cosineSimByIndex] read a property of [null] *)
          if bool_decide (Exists (fun w => w ≠ word ∧ is_Some (wordToIndex s !! w))
                                 (currentWords s))
          then throw TypeError
          else mret tt
      end
  end.

Definition msg_done (n : nat) : string :=
  "完了：" +:+ pretty n +:+ "語をプロット".

(** [text] is the trimmed content of the text area. *)
Definition run (text : string) (posFilter uniqueOnly : bool) : M unit :=
  if String.eqb text "" then alert (AlertText MSG_EMPTY_TEXT)
  else
    modify (set_run_disabled true);;
    setStatus MSG_TOKENIZING;;
    words ← tokenize posFilter text;
    let words := apply_unique uniqueOnly words in
    s ← get;
    let '(kept, xy) := select_both (coordMap s) (wordToIndex s) words in
    if length kept <? 2 then
      setStatus MSG_TOO_FEW;;
      modify (set_run_disabled false)
    else
      modify (set_currentWords kept);;
      modify (set_currentXY xy);;
      setStatus (msg_done (length kept));;
      renderPlot kept xy;;
      showSimilar (default "" (head kept));;
      modify (set_run_disabled false).

Definition init (net : Net) : M unit :=
  try_catch
    (modify (set_run_disabled true);;
     setStatus "形態素解析辞書を読み込み中…";;
     tk ← loadTokenizer net;
     modify (set_tokenizer (Some tk));;
     loadCoords net;;
     loadVocabAndVec net;;
     setStatus MSG_READY;;
     modify (set_run_disabled false))
    (fun e =>
       setStatus "初期化エラー：コンソールを確認してください";;
       alert (AlertText "初期化に失敗しました。パスやファイル内容を確認してください。")).

(** The click handler registered by [renderPlot]: [showSimilar(words[idx])]
    for the point [idx] of the plot last drawn. *)
Definition plotly_click (idx : nat) : M unit :=
  s ← get;
  match plot s with
  | Some (words, _) =>
      match words !! idx with
      | Some w => showSimilar w
      | None => mret tt
      end
  | None => mret tt
  end.

End V1.

(** ** Variant 2 (lines 224-455): lazy loading on the first run and click *)

Module V2.

Definition ensureLibsAndTokenizer (net : Net) : M unit :=
  s ← get;
  if bool_decide (is_Some (tokenizer s)) then mret tt
  else
    setStatus "ライブラリ読込中…（初回のみ）";;
    loadScriptOnce net PLOTLY_URL;;
    loadScriptOnce net KUROMOJI_URL;;
    setStatus "形態素解析準備中…（初回のみ）";;
    tk ← build_tokenizer net;
    modify (set_tokenizer (Some tk));;
    setStatus MSG_READY.

Definition ensureCoords (net : Net) : M unit :=
  s ← get;
  if coordsLoaded s then mret tt
  else
    setStatus "座標(coords.csv)読込中…（初回のみ）";;
    lines ← fetch COORDS_CSV (net_coords net);
    modify (fun s => set_coordMap (coords_loop lines (coordMap s)) s);;
    modify (set_coordsLoaded true).

Definition ensureSimModel (net : Net) : M unit :=
  s ← get;
  if simLoaded s then mret tt
  else
    setStatus "類似語モデル読込中…（初回のみ）";;
    vocab ← fetch VOCAB_JSON (net_vocab net);
    modify (set_wordToIndex (index_map vocab));;
    buf ← fetch VEC_BIN (net_vec net);
    vd ← new_Float32Array buf;
    modify (set_vecData (Some vd));;
    let expected := length vocab * SIM_D in
    if bool_decide (length vd ≠ expected) then throw (SizeMismatch (length vd) expected)
    else modify (set_simLoaded true).

(** The part of [showSimilar] after [await ensureSimModel()], shared with
    [V3] and [V4]. *)
Definition rank_and_show (word : string) : M unit :=
  s ← get;
  match wordToIndex s !! word with
  | None => mret tt
  | Some i =>
      match vecData s with
      | Some v =>
          let sims :=
            top10 (scored_lazy v (wordToIndex s) word i (currentWords s)) in
          modify (fun s => set_simList (simList s ++ sims) s)
      | None =>
          if bool_decide (Exists (fun w => w ≠ word ∧ is_Some (wordToIndex s !! w))
                                 (currentWords s))
          then throw TypeError
          else mret tt
      end
  end.

Definition showSimilar (net : Net) (word : string) : M unit :=
  modify (set_selectedWord word);;
  modify (set_simList []);;
  ensureSimModel net;;
  rank_and_show word.

Definition msg_done (n : nat) : string :=
  "完了：" +:+ pretty n +:+ "語をプロット（類似語はクリックで初回ロード）".

Definition run (net : Net) (text : string) (posFilter uniqueOnly : bool) : M unit :=
  if String.eqb text "" then alert (AlertText MSG_EMPTY_TEXT)
  else
    modify (set_run_disabled true);;
    try_finally
      (try_catch
         (ensureLibsAndTokenizer net;;
          setStatus MSG_TOKENIZING;;
          words ← tokenize posFilter text;
          let words := apply_unique uniqueOnly words in
          ensureCoords net;;
          s ← get;
          let '(kept, xy) := select_coords (coordMap s) words in
          if length kept <? 2 then setStatus MSG_TOO_FEW
          else
            modify (set_currentWords kept);;
            setStatus (msg_done (length kept));;
            renderPlot kept xy)
         (fun e =>
            alert (AlertText "エラーが発生しました。Console を確認してください。");;
            setStatus MSG_ERROR))
      (set_run_disabled false).

Definition plotly_click (net : Net) (idx : nat) : M unit :=
  s ← get;
  match plot s with
  | Some (words, _) =>
      match words !! idx with
      | Some w => showSimilar net w
      | None => mret tt
      end
  | None => mret tt
  end.

End V2.

(** ** Variant 3 (lines 456-682): as [V2], with a deadline on the build *)

Module V3.

Definition ensurePlotly (net : Net) : M unit :=
  s ← get;
  if bool_decide (PLOTLY_URL ∈ libs s) then mret tt
  else
    setStatus "描画ライブラリ読込中…（初回のみ）";;
    loadScriptOnce net PLOTLY_URL.

(** [Promise.race] against the timer: a promise that never settles loses
    to the rejection of the timer. *)
Definition race_timeout {A} (m : M A) : M A := fun s =>
  match m s with
  | Pending s' => Throw BuildTimeout s'
  | r => r
  end.

Definition buildTokenizerWithTimeout (net : Net) : M Tokenizer :=
  loadScriptOnce net KUROMOJI_URL;;
  race_timeout (build_tokenizer net).

Definition ensureTokenizer (net : Net) : M unit :=
  s ← get;
  if bool_decide (is_Some (tokenizer s)) then mret tt
  else
    setStatus "形態素解析準備中…（初回のみ）";;
    tk ← buildTokenizerWithTimeout net;
    modify (set_tokenizer (Some tk)).

Definition ensureCoords (net : Net) : M unit :=
  s ← get;
  if coordsLoaded s then mret tt
  else
    setStatus "座標(coords.csv)読込中…（初回のみ）";;
    lines ← fetch COORDS_CSV (net_coords net);
    modify (fun s => set_coordMap (coords_loop lines (coordMap s)) s);;
    modify (set_coordsLoaded true).

Definition ensureSimModel (net : Net) : M unit :=
  s ← get;
  if simLoaded s then mret tt
  else
    setStatus "類似語モデル読込中…（初回のみ）";;
    vocab ← fetch VOCAB_JSON (net_vocab net);
    modify (set_wordToIndex (index_map vocab));;
    buf ← fetch VEC_BIN (net_vec net);
    vd ← new_Float32Array buf;
    modify (set_vecData (Some vd));;
    if bool_decide (length vd ≠ length vocab * SIM_D)
    then throw (SizeMismatch (length vd) (length vocab * SIM_D))
    else
      modify (set_simLoaded true);;
      setStatus MSG_READY.

Definition showSimilar (net : Net) (word : string) : M unit :=
  modify (set_selectedWord word);;
  modify (set_simList []);;
  ensureSimModel net;;
  V2.rank_and_show word.

Definition run (net : Net) (text : string) (posFilter uniqueOnly : bool) : M unit :=
  if String.eqb text "" then alert (AlertText MSG_EMPTY_TEXT)
  else
    modify (set_run_disabled true);;
    try_finally
      (try_catch
         (ensurePlotly net;;
          ensureTokenizer net;;
          ensureCoords net;;
          setStatus MSG_TOKENIZING;;
          words ← tokenize posFilter text;
          let words := apply_unique uniqueOnly words in
          s ← get;
          let '(kept, xy) := select_coords (coordMap s) words in
          if length kept <? 2 then setStatus MSG_TOO_FEW
          else
            modify (set_currentWords kept);;
            setStatus (V2.msg_done (length kept));;
            renderPlot kept xy)
         (fun e =>
            alert (AlertError e);;
            setStatus MSG_ERROR))
      (set_run_disabled false).

Definition plotly_click (net : Net) (idx : nat) : M unit :=
  s ← get;
  match plot s with
  | Some (words, _) =>
      match words !! idx with
      | Some w => showSimilar net w
      | None => mret tt
      end
  | None => mret tt
  end.

End V3.

(** ** Variant 4 (lines 683-918): staged loading with explicit flags *)

Module V4.

Definition loadTokenizer (net : Net) : M Tokenizer := build_tokenizer net.

Definition ensureCoordsLoaded (net : Net) : M unit :=
  s ← get;
  if coordsLoaded s then mret tt
  else
    setStatus "座標(coords.csv)を読み込み中…（初回のみ）";;
    lines ← fetch COORDS_CSV (net_coords net);
    modify (fun s => set_coordMap (coords_loop lines (coordMap s)) s);;
    modify (set_coordsLoaded true);;
    setStatus "準備完了（座標ロード済み）".

Definition ensureSimModelLoaded (net : Net) : M unit :=
  s ← get;
  if simLoaded s then mret tt
  else
    setStatus "類似語モデルを読み込み中…（初回のみ）";;
    v ← fetch VOCAB_JSON (net_vocab net);
    modify (set_vocab v);;
    modify (set_wordToIndex (index_map v));;
    buf ← fetch VEC_BIN (net_vec net);
    vd ← new_Float32Array buf;
    modify (set_vecData (Some vd));;
    let expected := length v * SIM_D in
    if bool_decide (length vd ≠ expected) then throw (SizeMismatch (length vd) expected)
    else
      modify (set_simLoaded true);;
      setStatus "準備完了（類似語モデルロード済み）".

Definition showSimilar (net : Net) (word : string) : M unit :=
  modify (set_selectedWord word);;
  modify (set_simList []);;
  ensureSimModelLoaded net;;
  V2.rank_and_show word.

Definition msg_done (n : nat) : string :=
  "完了：" +:+ pretty n +:+ "語をプロット（類似語はクリックでロード）".

Definition run (net : Net) (text : string) (posFilter uniqueOnly : bool) : M unit :=
  if String.eqb text "" then alert (AlertText MSG_EMPTY_TEXT)
  else
    modify (set_run_disabled true);;
    setStatus MSG_TOKENIZING;;
    tokens ← tokenize posFilter text;
    let words := apply_unique uniqueOnly tokens in
    ensureCoordsLoaded net;;
    s ← get;
    let '(kept, xy) := select_coords (coordMap s) words in
    if length kept <? 2 then
      setStatus MSG_TOO_FEW;;
      modify (set_run_disabled false)
    else
      modify (set_currentWords kept);;
      modify (set_currentXY xy);;
      setStatus (msg_done (length kept));;
      renderPlot kept xy;;
      modify (set_run_disabled false).

Definition init (net : Net) : M unit :=
  try_catch
    (modify (set_run_disabled true);;
     setStatus "形態素解析辞書を読み込み中…";;
     tk ← loadTokenizer net;
     modify (set_tokenizer (Some tk));;
     setStatus "準備完了（ボタンで解析開始）";;
     modify (set_run_disabled false))
    (fun e =>
       setStatus "初期化エラー：コンソールを確認してください";;
       alert (AlertText "初期化に失敗しました。")).

(** The click handler reads [currentWords[idx]]. *)
Definition plotly_click (net : Net) (idx : nat) : M unit :=
  s ← get;
  match plot s with
  | Some _ =>
      match currentWords s !! idx with
      | Some w => showSimilar net w
      | None => mret tt
      end
  | None => mret tt
  end.

End V4.

(** ** Sessions: the page as a state machine over user events *)

Inductive Event :=
| PageLoad (net : Net)                                   (* the script's top level *)
| RunClick (net : Net) (text : string) (posFilter uniqueOnly : bool)
| PlotClick (net : Net) (idx : nat).                     (* click on a drawn point *)

Inductive Variant := Eager | Lazy2 | Lazy3 | Lazy4.

(** The state in which the page starts: the values of the [let] declarations.
    [V1] and [V4] get both libraries from [<script>] tags of the page. *)
Definition initial (v : Variant) : State :=
  {| tokenizer := None; coordsLoaded := false; coordMap := ∅;
     simLoaded := false; vocab := []; wordToIndex := ∅; vecData := None;
     currentWords := []; currentXY := []; status := "";
     run_disabled := false; selectedWord := ""; simList := []; plot := None;
     scripts := [];
     libs := match v with
             | Eager | Lazy4 => [PLOTLY_URL; KUROMOJI_URL]
             | _ => []
             end;
     alerts := []; fetched := [] |}.

(** The handler an event starts.  A click on the disabled run button starts
    nothing; [V2] and [V3] only set the status line at page load. *)
Definition handler (v : Variant) (ev : Event) : M unit :=
  match ev with
  | PageLoad net =>
      match v with
      | Eager => V1.init net
      | Lazy2 | Lazy3 => setStatus "準備完了（ボタンで開始）"
      | Lazy4 => V4.init net
      end
  | RunClick net text pf uo =>
      s ← get;
      if run_disabled s then mret tt
      else
        match v with
        | Eager => V1.run text pf uo
        | Lazy2 => V2.run net text pf uo
        | Lazy3 => V3.run net text pf uo
        | Lazy4 => V4.run net text pf uo
        end
  | PlotClick net idx =>
      match v with
      | Eager => V1.plotly_click idx
      | Lazy2 => V2.plotly_click net idx
      | Lazy3 => V3.plotly_click net idx
      | Lazy4 => V4.plotly_click net idx
      end
  end.

Definition step (v : Variant) (s : State) (ev : Event) : State :=
  final_state (handler v ev s).

Definition session (v : Variant) (evs : list Event) (s : State) : State :=
  fold_left (step v) evs s.

(** * Vocabulary of the properties *)

(** ** Hoare triples for the handlers *)

(** [triple P m Q X]: started in a state satisfying [P], the handler [m]
    either returns [a] in a state satisfying [Q a], or stops (by throwing or
    by staying suspended) in a state satisfying [X]. *)
Definition triple {A} (P : State → Prop) (m : M A)
    (Q : A → State → Prop) (X : State → Prop) : Prop :=
  ∀ s, P s →
    match m s with
    | Ok a s' => Q a s'
    | Throw _ s' => X s'
    | Pending s' => X s'
    end.

(** [m] maintains the invariant [I] at every exit. *)
Definition preserves {A} (I : State → Prop) (m : M A) : Prop :=
  triple I m (fun _ => I) I.

(** ** Readiness flags *)

(** The three readiness flags: [tokenizer] is its own flag (the [ensure]
    functions test [if (tokenizer) return]). *)
Definition tokenizerReady (s : State) : bool := bool_decide (is_Some (tokenizer s)).

(** The flags among [t], [c], [m] that are asked for are set. *)
Definition flags_set (t c m : bool) (s : State) : Prop :=
  (t = true → tokenizerReady s = true)
  ∧ (c = true → coordsLoaded s = true)
  ∧ (m = true → simLoaded s = true).

(** ** Sample data: a two-word model and a three-word coordinate table *)

Module Demo.

Definition noun (w : string) : Token :=
  {| pos := POS_NOUN; surface_form := w; basic_form := Some w |}.

Definition particle (w : string) : Token :=
  {| pos := "助詞"; surface_form := w; basic_form := Some "*" |}.

(** A tokenizer that finds the same five tokens in every text. *)
Definition tk : Tokenizer := fun _ =>
  [noun "猫"; particle "と"; noun "犬"; particle "と"; noun "猫"].

(** A tokenizer that finds a single noun. *)
Definition tk_one : Tokenizer := fun _ => [noun "猫"].

Definition coords : list Row :=
  [("word", Num.NaN, Num.NaN);
   ("猫", Num.of_Z 1, Num.of_Z 2);
   ("犬", Num.of_Z 3, Num.of_Z 4);
   ("鳥", Num.of_Z 5, Num.of_Z 6)].

Definition f32_one : list Byte.byte := [Byte.x00; Byte.x00; Byte.x80; Byte.x3f].
Definition f32_zero : list Byte.byte := [Byte.x00; Byte.x00; Byte.x00; Byte.x00].

Definition f32_zeros (n : nat) : list Byte.byte := concat (repeat f32_zero n).

(** The vector of 猫 is the first unit vector; the vocabulary has one word. *)
Definition vocab1 : list string := ["猫"].
Definition vec1 : list Byte.byte := f32_one ++ f32_zeros 49.

(** Two words with orthogonal unit vectors. *)
Definition vocab2 : list string := ["猫"; "犬"].
Definition vec2 : list Byte.byte :=
  (f32_one ++ f32_zeros 49) ++ (f32_zero ++ f32_one ++ f32_zeros 48).

(** A buffer of three floats. *)
Definition vec_short : list Byte.byte := f32_one ++ f32_zeros 2.

Definition net_ok : Net :=
  {| net_coords := Some coords; net_vocab := Some vocab2; net_vec := Some vec2;
     net_script := fun _ => true; net_build := Built tk |}.

(** The vocabulary lacks 犬, which has a coordinate. *)
Definition net_small_vocab : Net :=
  {| net_coords := Some coords; net_vocab := Some vocab1; net_vec := Some vec1;
     net_script := fun _ => true; net_build := Built tk |}.

(** The vector file is too short for the vocabulary. *)
Definition net_mismatch : Net :=
  {| net_coords := Some coords; net_vocab := Some vocab2; net_vec := Some vec_short;
     net_script := fun _ => true; net_build := Built tk |}.

(** No request succeeds. *)
Definition net_down : Net :=
  {| net_coords := None; net_vocab := None; net_vec := None;
     net_script := fun _ => false; net_build := BuildErr |}.

Definition net_one_word : Net :=
  {| net_coords := Some coords; net_vocab := Some vocab2; net_vec := Some vec2;
     net_script := fun _ => true; net_build := Built tk_one |}.

End Demo.

(** ** States reached by sample sessions *)

(** A state reached by one run and one click with everything available. *)
Definition ready_state : State :=
  session Lazy2 [RunClick Demo.net_ok "猫と犬と猫" true false; PlotClick Demo.net_ok 0]
          (initial Lazy2).

(** A state of [V1] after a successful page load. *)
Definition loaded_state : State := session Eager [PageLoad Demo.net_ok] (initial Eager).

(** [V1] loaded with a tokenizer that finds one noun; [V3] before its first run. *)
Definition one_word_state : State :=
  session Eager [PageLoad Demo.net_one_word] (initial Eager).

Definition V3_after_ensures : State :=
  final_state ((V3.ensurePlotly Demo.net_one_word;;
                V3.ensureTokenizer Demo.net_one_word;;
                V3.ensureCoords Demo.net_one_word)
                 (set_run_disabled true (initial Lazy3))).

(** ** Loading, selecting and plotting *)

(** What a failed load leaves behind, and what the next load does. *)
Definition failed_load_outcome (ensure : Net → M unit) (net : Net) (s : State) : Prop :=
  let s1 := final_state (ensure net s) in
  simLoaded s1 = false
  ∧ (net_vocab net = None → wordToIndex s1 = wordToIndex s ∧ vecData s1 = vecData s)
  ∧ (∀ v, net_vocab net = Some v → wordToIndex s1 = index_map v)
  ∧ (∀ v buf vd, net_vocab net = Some v → net_vec net = Some buf →
        Float32.view buf = Some vd → vecData s1 = Some vd)
  ∧ (∀ net' v' buf' vd',
        net_vocab net' = Some v' → net_vec net' = Some buf' →
        Float32.view buf' = Some vd' → length vd' = length v' * SIM_D →
        let s2 := final_state (ensure net' s1) in
        returns (ensure net' s1) = true
        ∧ simLoaded s2 = true
        ∧ wordToIndex s2 = index_map v'
        ∧ vecData s2 = Some vd'
        ∧ fetched s2 = fetched s1 ++ [VOCAB_JSON; VEC_BIN]).

(** A word with a coordinate and an index; a word with a coordinate. *)
Definition in_both (cm : gmap string Point) (wti : gmap string nat) (w : string) : Prop :=
  is_Some (cm !! w) ∧ is_Some (wti !! w).

Definition in_coords (cm : gmap string Point) (w : string) : Prop :=
  is_Some (cm !! w).

#[global] Instance in_both_dec cm wti w : Decision (in_both cm wti w).
Proof. unfold in_both. apply _. Defined.

#[global] Instance in_coords_dec cm w : Decision (in_coords cm w).
Proof. unfold in_coords. apply _. Defined.

(** The sequence of words a run works on. *)
Definition run_words (tk : Tokenizer) (text : string) (posFilter uniqueOnly : bool)
    : list string :=
  apply_unique uniqueOnly (tokenize_loop posFilter (tk text)).

(** The page fields that only [run] writes. *)
Definition plotted_is (cw : list string) (pl : option (list string * list Point))
    (s : State) : Prop :=
  currentWords s = cw ∧ plot s = pl.

(** What [V2], [V3] and [V4] leave in [currentWords]: the previous value, or
    the words of this run that have a coordinate. *)
Definition lazy_plotted (text : string) (pf uo : bool) (cw0 : list string)
    (s : State) : Prop :=
  currentWords s = cw0
  ∨ ∃ tk, tokenizer s = Some tk
          ∧ currentWords s = filter (in_coords (coordMap s)) (run_words tk text pf uo).

(** The points are, position by position, the entries of the coordinate
    table for the words. *)
Definition points_of (cm : gmap string Point) (ws : list string) (pts : list Point) : Prop :=
  Forall2 (fun w c => cm !! w = Some c) ws pts.

Definition aligned (s : State) : Prop :=
  points_of (coordMap s) (currentWords s) (currentXY s)
  ∧ ∀ ws pts, plot s = Some (ws, pts) → points_of (coordMap s) ws pts.

(** In [V4] the coordinate table is written once, before anything is plotted. *)
Definition aligned_V4 (s : State) : Prop :=
  aligned s
  ∧ (coordsLoaded s = false → currentWords s = [] ∧ currentXY s = [] ∧ plot s = None).

Definition nothing_plotted (s : State) : Prop :=
  currentWords s = [] ∧ currentXY s = [] ∧ plot s = None.

(** The state in which a run has just installed [kept] and [xy], and the
    states the rest of the run goes through. *)
Definition installing (s : State) (kept : list string) (xy : list Point)
    (s1 : State) : Prop :=
  coordMap s1 = coordMap s ∧ coordsLoaded s1 = coordsLoaded s
  ∧ currentWords s1 = kept ∧ currentXY s1 = xy
  ∧ (plot s1 = plot s ∨ plot s1 = Some (kept, xy)).

(** The events a user produces once the page is loaded. *)
Definition user_event (ev : Event) : Prop :=
  match ev with PageLoad _ => False | _ => True end.

(** ** Vectors and numbers *)

(** The vector of index [i] is all zero: its [SIM_D] elements are [0] or [-0]. *)
Definition zero_vector (vecData : list Number) (i : nat) : Prop :=
  ∀ k, k < SIM_D → ∃ sg, vecData !! (i * SIM_D + k) = Some (S754_zero sg).

(** The squared norm of the vector at offset [off], as the loop accumulates it. *)
Definition sq_norm_at (vecData : list Number) (off : nat) : Number :=
  fold_left (fun acc k => Num.add acc (Num.mul (elem vecData (off + k))
                                               (elem vecData (off + k))))
            (seq 0 SIM_D) Num.zero.

Definition dot_at (vecData : list Number) (offI offJ : nat) : Number :=
  fold_left (fun acc k => Num.add acc (Num.mul (elem vecData (offI + k))
                                               (elem vecData (offJ + k))))
            (seq 0 SIM_D) Num.zero.

(** The vector of index 0 is zero, the vector of index 1 is (3, 4, 0, ..., 0). *)
Definition vec_0_345 : list Number :=
  replicate 50 Num.zero ++ [Num.of_Z 3; Num.of_Z 4] ++ replicate 48 Num.zero.

(** A binary64 value: the mantissa and exponent of a finite number are in
    canonical form. *)
Definition is_double (x : Number) : bool := valid_binary Num.prec Num.emax x.

(** A binary64 value other than NaN. *)
Definition ordinary (x : Number) : bool := is_double x && negb (Num.is_nan x).

(** The least exponent of a binary64 mantissa. *)
Definition emin64 : Z := SpecFloat.emin Num.prec Num.emax.

(** The mantissa and exponent after one step of rounding: zero at the least
    exponent, or positive and canonical. *)
Definition stage_ok (m e : Z) : Prop :=
  (m = 0 ∧ e = emin64)%Z
  ∨ (0 < m ∧ fexp Num.prec Num.emax (Zdigits2 m + e) = e)%Z.

(** The two aligned, signed mantissas that [x - y] subtracts. *)
Definition aligned_mantissa (sg : bool) (m : positive) (e ez : Z) : Z :=
  cond_Zopp sg (Z.pos (fst (shl_align m e ez))).

(** A number other than NaN is ranked by a triple of integers compared
    lexicographically: its class, then exponent and mantissa. *)
Definition num_key (x : Number) : Z * Z * Z :=
  match x with
  | S754_zero _ | S754_nan => (0, 0, 0)%Z
  | S754_infinity sg => (if sg then -2 else 2, 0, 0)%Z
  | S754_finite true m e => (-1, - e, Z.neg m)%Z
  | S754_finite false m e => (1, e, Z.pos m)%Z
  end.

Definition key_compare (a b : Z * Z * Z) : comparison :=
  match (a.1.1 ?= b.1.1)%Z with
  | Eq => match (a.1.2 ?= b.1.2)%Z with
          | Eq => (a.2 ?= b.2)%Z
          | c => c
          end
  | c => c
  end.

Definition key_lt (a b : Z * Z * Z) : Prop :=
  (a.1.1 < b.1.1
   ∨ (a.1.1 = b.1.1 ∧ (a.1.2 < b.1.2 ∨ (a.1.2 = b.1.2 ∧ a.2 < b.2))))%Z.

(** ** Ranking *)

(** The score of an entry is a binary64 value other than NaN. *)
Definition scored_ok (c : string * Number) : Prop := ordinary c.2 = true.

(** The score of an entry is not NaN. *)
Definition score_is_number (c : string * Number) : Prop := Num.is_nan c.2 = false.

(** [a] may stand before [b] in a descending list: its score is at least
    the score of [b]. *)
Definition before (a b : string * Number) : Prop := Num.leb b.2 a.2 = true.

(** The entries whose score equals [v]. *)
Definition tie (v : Number) (c : string * Number) : Prop :=
  Num.strict_eq c.2 v = true.

#[global] Instance tie_dec v c : Decision (tie v c).
Proof. unfold tie. apply _. Defined.

(** Four words: 猫 = e1, 犬 = e1 + e2, 鳥 = e2, 魚 = e1 + e2; the pool holds 犬
    twice and 虎, which has no index. *)
Definition rank_vec : list Number :=
  ([Num.one; Num.zero] ++ replicate 48 Num.zero)
  ++ ([Num.one; Num.one] ++ replicate 48 Num.zero)
  ++ ([Num.zero; Num.one] ++ replicate 48 Num.zero)
  ++ ([Num.one; Num.one] ++ replicate 48 Num.zero).

Definition rank_index : gmap string nat := index_map ["猫"; "犬"; "鳥"; "魚"].

Definition rank_pool : list string := ["鳥"; "犬"; "猫"; "魚"; "虎"; "犬"].

(** ** The vector table and the index *)

(** The vector of index [i] lies inside the table. *)
Definition in_table (vd : list Number) (i : nat) : Prop := (i + 1) * SIM_D ≤ length vd.

(** The two tables of the similarity model fit: every index of the word
    table addresses a vector inside the vector table. *)
Definition tables_fit (s : State) : Prop :=
  ∃ vd, vecData s = Some vd ∧ ∀ w i, wordToIndex s !! w = Some i → in_table vd i.

Definition model_in_range (s : State) : Prop := simLoaded s = true → tables_fit s.

(** The value [cosineSimByIndex] gives once a NaN has entered the sums of
    the first vector: the test on the second norm still decides. *)
Definition poisoned (vd : list Number) (j : nat) : Number :=
  if Num.strict_eq (sq_norm_at vd (j * SIM_D)) Num.zero then Num.zero else Num.NaN.

(** One of the [SIM_D] elements read for index [i] is NaN; an element past
    the end of the table is read as NaN. *)
Definition reads_NaN (vd : list Number) (i : nat) : Prop :=
  ∃ k, k < SIM_D ∧ elem vd (i * SIM_D + k) = Num.NaN.

(** ** Handlers that settle *)

(** No [await] of [m] stays suspended. *)
Definition settles {A} (m : M A) : Prop :=
  ∀ s, match m s with Pending _ => False | _ => True end.

(** The build of the tokenizer never calls back. *)
Definition net_hang : Net :=
  {| net_coords := Some Demo.coords; net_vocab := Some Demo.vocab2;
     net_vec := Some Demo.vec2; net_script := fun _ => true;
     net_build := BuildHangs |}.

(** ** Requests *)

(** The assets an event may request in a variant. *)
Definition may_request (v : Variant) (ev : Event) (a : Asset) : Prop :=
  match ev, v with
  | PageLoad _, Eager => True
  | RunClick _ _ _ _, (Lazy2 | Lazy3 | Lazy4) => a = COORDS_CSV
  | PlotClick _ _, (Lazy2 | Lazy3 | Lazy4) => a = VOCAB_JSON ∨ a = VEC_BIN
  | _, _ => False
  end.

(** The requests made since the log was [f0] are all allowed by [ok]. *)
Definition requested_only (ok : Asset → Prop) (f0 : list Asset) (s : State) : Prop :=
  ∃ l, fetched s = f0 ++ l ∧ Forall ok l.

(** ** The page of the first variant after its load *)

Definition MSG_INIT_ERROR : string := "初期化エラー：コンソールを確認してください".

(** The button is disabled and nothing is plotted: no click starts anything. *)
Definition page_dead (s : State) : Prop := run_disabled s = true ∧ plot s = None.

(** The button is enabled, and everything a click needs is there. *)
Definition V1_live (s : State) : Prop :=
  run_disabled s = false ∧ is_Some (tokenizer s) ∧ tables_fit s
  ∧ PLOTLY_URL ∈ libs s.

(** A page of [V4] whose tokenizer is loaded. *)
Definition V4_ready : State := session Lazy4 [PageLoad Demo.net_ok] (initial Lazy4).

(** The page of [V1] after a load in which every request failed. *)
Definition V1_failed : State := session Eager [PageLoad Demo.net_down] (initial Eager).

(** ** Scripts *)

(** The [<script>] tag of [src] is in the document, but its library is not
    defined: the load of the script has failed. *)
Definition script_failed (src : Script) (s : State) : Prop :=
  src ∈ scripts s ∧ src ∉ libs s.

(** The page of [V2] after a run in which no script could be loaded. *)
Definition V2_no_plotly : State :=
  session Lazy2 [RunClick Demo.net_down "猫と犬" true false] (initial Lazy2).

(** ** The coordinate table *)

(** A data row that the loop stores: its word is not empty and both
    coordinates are finite. *)
Definition row_valid (r : Row) : bool :=
  negb (String.eqb r.1.1 "") && Num.isFinite r.1.2 && Num.isFinite r.2.

(** The rows of [lines] that can set the coordinate of [w]. *)
Definition rows_for (w : string) (lines : list Row) : list Row :=
  filter (fun r => row_valid r = true ∧ r.1.1 = w) (drop 1 lines).

Definition finite_point (p : Point) : Prop :=
  Num.isFinite p.1 = true ∧ Num.isFinite p.2 = true.

(** Every entry of the table has a key that is not empty and finite
    coordinates. *)
Definition table_finite (cm : gmap string Point) : Prop :=
  ∀ w c, cm !! w = Some c → w ≠ "" ∧ finite_point c.

(** What was drawn last: at least two points, one label for each, finite
    coordinates, no empty label. *)
Definition plot_ok (s : State) : Prop :=
  ∀ ws pts, plot s = Some (ws, pts) →
    2 ≤ length ws ∧ length ws = length pts
    ∧ Forall finite_point pts ∧ Forall (fun w => w ≠ "") ws.

Definition drawable (s : State) : Prop := table_finite (coordMap s) ∧ plot_ok s.

(** ** Lines and fields *)

(** [parts.join(sep)] *)
Fixpoint join_str (sep : string) (parts : list string) : string :=
  match parts with
  | [] => EmptyString
  | p :: ps =>
      match ps with
      | [] => p
      | _ => p +:+ sep +:+ join_str sep ps
      end
  end.

(** The character [c] occurs in [s]. *)
Fixpoint contains (c : ascii) (s : string) : bool :=
  match s with
  | EmptyString => false
  | String c' rest => Ascii.eqb c' c || contains c rest
  end.

(** [s] without the carriage return it ends with, if it ends with one. *)
Fixpoint strip_CR (s : string) : string :=
  match s with
  | EmptyString => EmptyString
  | String c rest =>
      match rest with
      | EmptyString => if Ascii.eqb c CR then EmptyString else s
      | _ => String c (strip_CR rest)
      end
  end.

(** A line as it stands in a file: no line feed, and no carriage return at
    its end. *)
Definition plain_line (l : string) : Prop := contains LF l = false ∧ strip_CR l = l.

(** ** Tokens *)

(** A token whose word enters the word list: its part of speech passes the
    filter, and its word has a character that is not white space. *)
Definition token_kept (posFilter : bool) (t : Token) : bool :=
  (negb posFilter || isTargetPOS t)
  && negb (String.eqb (word_form t) "" || trim_is_empty (word_form t)).

(** ** Fields that a handler leaves alone *)

(** What the run button owns: the plotted words and points, the coordinate
    table, the tokenizer, the button itself, the alerts and the scripts. *)
Definition plotted_frame (s s' : State) : Prop :=
  currentWords s' = currentWords s ∧ currentXY s' = currentXY s
  ∧ plot s' = plot s ∧ coordMap s' = coordMap s
  ∧ coordsLoaded s' = coordsLoaded s ∧ tokenizer s' = tokenizer s
  ∧ run_disabled s' = run_disabled s ∧ alerts s' = alerts s
  ∧ scripts s' = scripts s ∧ libs s' = libs s.

(** The similarity model. *)
Definition model_frame (s s' : State) : Prop :=
  wordToIndex s' = wordToIndex s ∧ vecData s' = vecData s
  ∧ simLoaded s' = simLoaded s ∧ vocab s' = vocab s.

(** The selected word and its list of similar words. *)
Definition display_frame (s s' : State) : Prop :=
  selectedWord s' = selectedWord s ∧ simList s' = simList s.

(** ** Labels *)

(** The labels drawn last are the current words; nothing was ever drawn
    without the drawing library. *)
Definition labels_current (s : State) : Prop :=
  (plot s = None ∨ PLOTLY_URL ∈ libs s)
  ∧ ∀ ws pts, plot s = Some (ws, pts) → ws = currentWords s.

(** ** What a run of a lazy variant leaves *)

(** The state [s'] after a successful run from [s] that plots [kept] at
    [xy]; [msg] is the status message for a number of words. *)
Definition lazy_done (msg : nat → string) (s : State) (kept : list string)
    (xy : list Point) (s' : State) : Prop :=
  currentWords s' = kept ∧ plot s' = Some (kept, xy)
  ∧ status s' = msg (length kept) ∧ run_disabled s' = false
  ∧ selectedWord s' = selectedWord s ∧ simList s' = simList s
  ∧ fetched s' = fetched s ∧ alerts s' = alerts s.

(** The page of [V3] after a first run with everything available. *)
Definition V3_warm : State :=
  session Lazy3 [RunClick Demo.net_ok "猫と犬" true false] (initial Lazy3).

(** Everything is available but [coords.csv]. *)
Definition net_no_coords : Net :=
  {| net_coords := None; net_vocab := Some Demo.vocab2; net_vec := Some Demo.vec2;
     net_script := fun _ => true; net_build := Built Demo.tk |}.

(** The page of [V3] after a run in which the request for [coords.csv]
    failed. *)
Definition V3_no_coords : State :=
  session Lazy3 [RunClick net_no_coords "猫と犬" true false] (initial Lazy3).

(** ** Errors of a click on a plotted point *)

(** The errors with which loading the similarity model fails. *)
Definition load_error (e : Error) : Prop :=
  match e with
  | FetchFailed VOCAB_JSON | FetchFailed VEC_BIN | RangeError | SizeMismatch _ _ => True
  | _ => False
  end.

(** A handler has returned, or it has failed in loading the model. *)
Definition returned_or_load_error {A} (r : Res A) : Prop :=
  match r with
  | Ok _ _ => True
  | Throw e _ => load_error e
  | Pending _ => False
  end.

(** ** The page of the fourth variant after its load *)

(** The button is enabled, the tokenizer and the drawing library are there,
    nothing was drawn before the coordinates were loaded, and a loaded
    similarity model fits. *)
Definition V4_live (s : State) : Prop :=
  run_disabled s = false ∧ is_Some (tokenizer s) ∧ PLOTLY_URL ∈ libs s
  ∧ (coordsLoaded s = false → plot s = None) ∧ model_in_range s.

(** A handler of the fourth variant has returned, or it has failed in a
    request for the coordinates or in loading the model. *)
Definition returned_or_request_error {A} (r : Res A) : Prop :=
  match r with
  | Ok _ _ => True
  | Throw e _ => e = FetchFailed COORDS_CSV ∨ load_error e
  | Pending _ => False
  end.

(** * Properties *)

(** ** Deduplication through [Set] *)

Section SetFacts.

Implicit Types (words l : list string) (w x y : string).

Lemma Set_of_snoc l w : Set_of (l ++ [w]) = Set_add (Set_of l) w.
Proof. unfold Set_of. now rewrite fold_left_app. Qed.

Lemma Set_of_elem l w : w ∈ Set_of l ↔ w ∈ l.
Proof.
  revert w. induction l as [|a l IH] using rev_ind; intros w.
  - reflexivity.
  - rewrite Set_of_snoc. unfold Set_add. case_bool_decide as Hin.
    + rewrite IH in Hin. rewrite IH, elem_of_app, list_elem_of_singleton.
      split; [tauto|]. intros [?| ->]; done.
    + now rewrite !elem_of_app, IH.
Qed.

Lemma Set_of_NoDup l : NoDup (Set_of l).
Proof.
  induction l as [|a l IH] using rev_ind.
  - constructor.
  - rewrite Set_of_snoc. unfold Set_add. case_bool_decide as Hin; [done|].
    apply NoDup_app. split_and!; [done| |apply NoDup_singleton].
    intros x Hx Hx'. apply list_elem_of_singleton in Hx'. now subst.
Qed.

Lemma Set_of_sublist l : Set_of l `sublist_of` l.
Proof.
  induction l as [|a l IH] using rev_ind.
  - constructor.
  - rewrite Set_of_snoc. unfold Set_add. case_bool_decide.
    + now apply sublist_inserts_r.
    + now apply sublist_app.
Qed.

(** Two elements of the set come in the order of their first occurrences:
    an occurrence of the earlier one precedes every occurrence of the
    later one. *)
Lemma Set_of_first_occurrence l i j x y :
  Set_of l !! i = Some x → Set_of l !! j = Some y → i < j →
  ∃ p, l !! p = Some x ∧ ∀ q, l !! q = Some y → p < q.
Proof.
  revert i j x y. induction l as [|a l IH] using rev_ind; intros i j x y Hi Hj Hlt.
  - discriminate.
  - rewrite Set_of_snoc in Hi, Hj. unfold Set_add in Hi, Hj.
    assert (Hext : ∀ p, l !! p = Some x → (∀ q, l !! q = Some y → p < q) →
              ∀ q, (l ++ [a]) !! q = Some y → p < q).
    { intros p Hp Hall q Hq. apply lookup_lt_Some in Hp as Hp'.
      destruct (decide (q < length l)) as [Hq'|Hq'].
      - rewrite lookup_app_l in Hq by done. auto.
      - lia. }
    case_bool_decide as Hin.
    + destruct (IH _ _ _ _ Hi Hj Hlt) as (p & Hp & Hall).
      exists p. split; [now apply lookup_app_l_Some|]. now apply Hext.
    + destruct (decide (j < length (Set_of l))) as [Hjl|Hjl].
      * rewrite lookup_app_l in Hi by lia. rewrite lookup_app_l in Hj by done.
        destruct (IH _ _ _ _ Hi Hj Hlt) as (p & Hp & Hall).
        exists p. split; [now apply lookup_app_l_Some|]. now apply Hext.
      * apply lookup_lt_Some in Hj as Hj'. rewrite length_app in Hj'. simpl in Hj'.
        assert (j = length (Set_of l)) as -> by lia.
        rewrite list_lookup_middle in Hj by done. injection Hj as <-.
        rewrite lookup_app_l in Hi by done.
        assert (x ∈ l) as Hx.
        { apply Set_of_elem. eapply list_elem_of_lookup_2; eauto. }
        apply list_elem_of_lookup_1 in Hx as [p Hp]. exists p.
        split; [now apply lookup_app_l_Some|].
        intros q Hq. apply lookup_lt_Some in Hp as Hp'.
        destruct (decide (q < length l)) as [Hq'|Hq']; [|lia].
        rewrite lookup_app_l in Hq by done. exfalso. apply Hin.
        apply Set_of_elem. eapply list_elem_of_lookup_2; eauto.
Qed.

End SetFacts.

(** C7. With [uniqueOnly] checked the word sequence has no repeated element,
    keeps every word of the unchecked output in the order of first
    occurrences, and is a subsequence of the unchecked output. *)
Theorem unique_words_first_occurrences (words : list string) :
  NoDup (apply_unique true words)
  ∧ apply_unique true words `sublist_of` apply_unique false words
  ∧ (∀ w, w ∈ apply_unique true words ↔ w ∈ apply_unique false words)
  ∧ (∀ i j x y,
        apply_unique true words !! i = Some x →
        apply_unique true words !! j = Some y → i < j →
        ∃ p, apply_unique false words !! p = Some x
             ∧ ∀ q, apply_unique false words !! q = Some y → p < q).
Proof.
  simpl. split_and!.
  - apply Set_of_NoDup.
  - apply Set_of_sublist.
  - intros w. apply Set_of_elem.
  - intros i j x y. apply Set_of_first_occurrence.
Qed.

(** ** A Hoare logic for the handlers *)

Section TripleRules.

Context {A B : Type}.
Implicit Types (P X : State → Prop) (Q : A → State → Prop).

Lemma triple_ret P Q X (a : A) :
  (∀ s, P s → Q a s) → triple P (mret a) Q X.
Proof. intros H s Hs. now apply H. Qed.

Lemma triple_throw P Q X (e : Error) :
  (∀ s, P s → X s) → triple P (throw e) Q X.
Proof. intros H s Hs. now apply H. Qed.

Lemma triple_bind P (R : A → State → Prop) (Q' : B → State → Prop) X
    (m : M A) (f : A → M B) :
  triple P m R X → (∀ a, triple (R a) (f a) Q' X) → triple P (m ≫= f) Q' X.
Proof.
  intros Hm Hf s Hs. specialize (Hm s Hs). unfold mbind, M_bind.
  destruct (m s) as [a s'|e s'|s']; [|done|done]. now apply Hf.
Qed.

Lemma triple_weaken P P' Q Q' X X' (m : M A) :
  triple P' m Q' X' → (∀ s, P s → P' s) → (∀ a s, Q' a s → Q a s) →
  (∀ s, X' s → X s) → triple P m Q X.
Proof.
  intros Hm HP HQ HX s Hs. specialize (Hm s (HP s Hs)).
  destruct (m s); auto.
Qed.

Lemma triple_fetch P Q X (a : Asset) (body : option A) :
  (∀ s b, P s → body = Some b → Q b (set_fetched (fetched s ++ [a]) s)) →
  (∀ s, P s → body = None → X (set_fetched (fetched s ++ [a]) s)) →
  triple P (fetch a body) Q X.
Proof. intros H1 H2 s Hs. unfold fetch. destruct body; auto. Qed.

Lemma triple_try_catch P Q X X' (body : M A) (handler : Error → M A) :
  triple P body Q X' → (∀ e, triple X' (handler e) Q X) →
  (∀ s, X' s → X s) → triple P (try_catch body handler) Q X.
Proof.
  intros Hb Hh HX s Hs. specialize (Hb s Hs). unfold try_catch.
  destruct (body s) as [a s'|e s'|s']; [done| |auto]. now apply Hh.
Qed.

Lemma triple_try_finally P Q Q' X X' (body : M A) (cleanup : State → State) :
  triple P body Q' X' → (∀ a s, Q' a s → Q a (cleanup s)) →
  (∀ s, X' s → X (cleanup s)) → (∀ s, X' s → X s) →
  triple P (try_finally body cleanup) Q X.
Proof.
  intros Hb HQ HX HX' s Hs. specialize (Hb s Hs). unfold try_finally.
  destruct (body s); auto.
Qed.

End TripleRules.

Lemma triple_get P (Q : State → State → Prop) X :
  (∀ s, P s → Q s s) → triple P get Q X.
Proof. intros H s Hs. now apply H. Qed.

Lemma triple_modify P (Q : unit → State → Prop) X (f : State → State) :
  (∀ s, P s → Q tt (f s)) → triple P (modify f) Q X.
Proof. intros H s Hs. now apply H. Qed.

(** *** Rules for invariants *)

Section Preserves.

Variable I : State → Prop.

Lemma preserves_ret {A} (a : A) : preserves I (mret a).
Proof. now apply triple_ret. Qed.

Lemma preserves_throw {A} (e : Error) : preserves I (throw (A:=A) e).
Proof. now apply triple_throw. Qed.

Lemma preserves_get : preserves I get.
Proof. now apply triple_get. Qed.

Lemma preserves_bind {A B} (m : M A) (f : A → M B) :
  preserves I m → (∀ a, preserves I (f a)) → preserves I (m ≫= f).
Proof. intros Hm Hf. eapply triple_bind; [exact Hm|]. exact Hf. Qed.

Lemma preserves_modify (f : State → State) :
  (∀ s, I s → I (f s)) → preserves I (modify f).
Proof. intros H. now apply triple_modify. Qed.

Lemma preserves_try_catch {A} (body : M A) (handler : Error → M A) :
  preserves I body → (∀ e, preserves I (handler e)) →
  preserves I (try_catch body handler).
Proof. intros Hb Hh. eapply triple_try_catch; [exact Hb|exact Hh|auto]. Qed.

Lemma preserves_try_finally {A} (body : M A) (cleanup : State → State) :
  preserves I body → (∀ s, I s → I (cleanup s)) →
  preserves I (try_finally body cleanup).
Proof. intros Hb Hc. eapply triple_try_finally; [exact Hb|..]; auto. Qed.

Lemma preserves_final {A} (m : M A) s :
  preserves I m → I s → I (final_state (m s)).
Proof. intros Hm Hs. specialize (Hm s Hs). now destruct (m s). Qed.

(** The invariant does not look at the fields written by the page
    primitives below. *)
Hypothesis I_status : ∀ v s, I s → I (set_status v s).
Hypothesis I_alerts : ∀ v s, I s → I (set_alerts v s).
Hypothesis I_fetched : ∀ v s, I s → I (set_fetched v s).
Hypothesis I_scripts : ∀ v s, I s → I (set_scripts v s).
Hypothesis I_libs : ∀ v s, I s → I (set_libs v s).
Hypothesis I_run_disabled : ∀ v s, I s → I (set_run_disabled v s).

Lemma preserves_setStatus msg : preserves I (setStatus msg).
Proof. apply preserves_modify. auto. Qed.

Lemma preserves_alert a : preserves I (alert a).
Proof. apply preserves_modify. auto. Qed.

Lemma preserves_fetch {A} (a : Asset) (body : option A) :
  preserves I (fetch a body).
Proof. apply triple_fetch; auto. Qed.

Lemma preserves_new_Float32Array buf : preserves I (new_Float32Array buf).
Proof.
  unfold new_Float32Array. destruct (Float32.view buf);
    [apply preserves_ret|apply preserves_throw].
Qed.

Lemma preserves_tokenize pf text : preserves I (tokenize pf text).
Proof.
  unfold tokenize. apply preserves_bind; [apply preserves_get|]. intros s.
  destruct (tokenizer s); [apply preserves_ret|apply preserves_throw].
Qed.

Lemma preserves_build_tokenizer net : preserves I (build_tokenizer net).
Proof.
  intros s Hs. unfold build_tokenizer. case_bool_decide; [|done].
  now destruct (net_build net).
Qed.

Lemma preserves_loadScriptOnce net src : preserves I (loadScriptOnce net src).
Proof.
  unfold loadScriptOnce. apply preserves_bind; [apply preserves_get|]. intros s.
  case_bool_decide; [apply preserves_ret|].
  apply preserves_bind; [apply preserves_modify; auto|]. intros _.
  destruct (net_script net src); [apply preserves_modify; auto|apply preserves_throw].
Qed.

Lemma preserves_race_timeout {A} (m : M A) :
  preserves I m → preserves I (V3.race_timeout m).
Proof.
  intros Hm s Hs. specialize (Hm s Hs). unfold V3.race_timeout.
  now destruct (m s).
Qed.

End Preserves.

(** Decomposition of a handler along its syntax; [side] closes the
    obligations on the state updates. *)
Ltac preserves_step side :=
  lazymatch goal with
  | |- preserves _ (mret _) => apply preserves_ret
  | |- preserves _ (throw _) => apply preserves_throw
  | |- preserves _ get => apply preserves_get
  | |- preserves _ (mbind _ _) => apply preserves_bind; [|intros ?]
  | |- preserves _ (modify _) => apply preserves_modify; side
  | |- preserves _ (setStatus _) => apply preserves_setStatus; side
  | |- preserves _ (alert _) => apply preserves_alert; side
  | |- preserves _ (fetch _ _) => apply preserves_fetch; side
  | |- preserves _ (new_Float32Array _) => apply preserves_new_Float32Array
  | |- preserves _ (renderPlot _ _) => unfold renderPlot
  | |- preserves _ (tokenize _ _) => apply preserves_tokenize
  | |- preserves _ (build_tokenizer _) => apply preserves_build_tokenizer
  | |- preserves _ (loadScriptOnce _ _) => apply preserves_loadScriptOnce; side
  | |- preserves _ (V3.race_timeout _) => apply preserves_race_timeout
  | |- preserves _ (try_catch _ _) => apply preserves_try_catch; [|intros ?]
  | |- preserves _ (try_finally _ _) => apply preserves_try_finally; [|side]
  | |- preserves _ (if ?b then _ else _) => destruct b
  | |- preserves _ (match ?x with _ => _ end) => destruct x
  end.

Ltac preserves_with side := repeat (preserves_step side).

(** ** Readiness flags *)

Ltac flags_side :=
  intros; unfold flags_set, tokenizerReady in *; simpl in *;
  first [assumption | intuition (auto; try discriminate) ].

Lemma flags_set_handler t c m v ev : preserves (flags_set t c m) (handler v ev).
Proof.
  destruct ev as [net|net text pf uo|net idx], v; simpl;
    unfold V1.init, V4.init, V1.run, V2.run, V3.run, V4.run,
      V1.plotly_click, V2.plotly_click, V3.plotly_click, V4.plotly_click,
      V1.showSimilar, V2.showSimilar, V3.showSimilar, V4.showSimilar,
      V2.rank_and_show, V1.loadTokenizer, V4.loadTokenizer, V1.loadCoords,
      V1.loadVocabAndVec, V2.ensureLibsAndTokenizer, V2.ensureCoords,
      V2.ensureSimModel, V3.ensurePlotly, V3.ensureTokenizer,
      V3.buildTokenizerWithTimeout, V3.ensureCoords, V3.ensureSimModel,
      V4.ensureCoordsLoaded, V4.ensureSimModelLoaded;
    preserves_with flags_side.
Qed.

Lemma flags_set_session t c m v evs s :
  flags_set t c m s → flags_set t c m (session v evs s).
Proof.
  revert s. induction evs as [|ev evs IH]; intros s Hs; [done|].
  simpl. apply IH. unfold step. apply preserves_final; [|done].
  apply flags_set_handler.
Qed.

(** ** Evaluation of handlers *)

Ltac m_unfold :=
  unfold mbind, M_bind, mret, M_ret, get, setStatus, alert, modify, fetch,
    new_Float32Array, throw, try_catch, try_finally, renderPlot, tokenize in *.


(** C6. A readiness flag that is set stays set through every session of every
    variant, and an [ensure] function called with its flag set returns at
    once in the same state (so without any request). *)
Theorem readiness_flags_stay_set_and_ensure_is_noop :
  (∀ v evs s,
      (tokenizerReady s = true → tokenizerReady (session v evs s) = true)
      ∧ (coordsLoaded s = true → coordsLoaded (session v evs s) = true)
      ∧ (simLoaded s = true → simLoaded (session v evs s) = true))
  ∧ (∀ net s, tokenizerReady s = true →
        V2.ensureLibsAndTokenizer net s = Ok tt s
        ∧ V3.ensureTokenizer net s = Ok tt s)
  ∧ (∀ net s, coordsLoaded s = true →
        V2.ensureCoords net s = Ok tt s
        ∧ V3.ensureCoords net s = Ok tt s
        ∧ V4.ensureCoordsLoaded net s = Ok tt s)
  ∧ (∀ net s, simLoaded s = true →
        V2.ensureSimModel net s = Ok tt s
        ∧ V3.ensureSimModel net s = Ok tt s
        ∧ V4.ensureSimModelLoaded net s = Ok tt s).
Proof.
  split_and!.
  - intros v evs s. split_and!; intros H.
    + apply (flags_set_session true false false v evs s); [|done].
      unfold flags_set. intuition discriminate.
    + apply (flags_set_session false true false v evs s); [|done].
      unfold flags_set. intuition discriminate.
    + apply (flags_set_session false false true v evs s); [|done].
      unfold flags_set. intuition discriminate.
  - intros net s H. unfold tokenizerReady in H.
    unfold V2.ensureLibsAndTokenizer, V3.ensureTokenizer. m_unfold.
    now rewrite H.
  - intros net s H.
    unfold V2.ensureCoords, V3.ensureCoords, V4.ensureCoordsLoaded. m_unfold.
    now rewrite H.
  - intros net s H.
    unfold V2.ensureSimModel, V3.ensureSimModel, V4.ensureSimModelLoaded. m_unfold.
    now rewrite H.
Qed.

Lemma readiness_flags_witness :
  (tokenizerReady ready_state = true ∧ coordsLoaded ready_state = true
   ∧ simLoaded ready_state = true)
  ∧ (tokenizerReady (session Lazy2 [RunClick Demo.net_down "犬" false true;
                                    PlotClick Demo.net_down 1] ready_state) = true
     ∧ coordsLoaded (session Lazy2 [RunClick Demo.net_down "犬" false true;
                                    PlotClick Demo.net_down 1] ready_state) = true
     ∧ simLoaded (session Lazy2 [RunClick Demo.net_down "犬" false true;
                                 PlotClick Demo.net_down 1] ready_state) = true)
  ∧ V2.ensureLibsAndTokenizer Demo.net_down ready_state = Ok tt ready_state
  ∧ V2.ensureCoords Demo.net_down ready_state = Ok tt ready_state
  ∧ V2.ensureSimModel Demo.net_down ready_state = Ok tt ready_state.
Proof.
  assert (Ht : tokenizerReady ready_state = true) by (vm_compute; reflexivity).
  assert (Hc : coordsLoaded ready_state = true) by (vm_compute; reflexivity).
  assert (Hm : simLoaded ready_state = true) by (vm_compute; reflexivity).
  pose proof readiness_flags_stay_set_and_ensure_is_noop as (Hmono & Htk & Hco & Hsim).
  destruct (Hmono Lazy2 [RunClick Demo.net_down "犬" false true;
                         PlotClick Demo.net_down 1] ready_state) as (H1 & H2 & H3).
  destruct (Htk Demo.net_down ready_state Ht) as [H4 _].
  destruct (Hco Demo.net_down ready_state Hc) as [H5 _].
  destruct (Hsim Demo.net_down ready_state Hm) as [H6 _].
  exact (conj (conj Ht (conj Hc Hm))
              (conj (conj (H1 Ht) (conj (H2 Hc) (H3 Hm)))
                    (conj H4 (conj H5 H6)))).
Defined.

(** ** Loading the similarity model *)

Lemma view_length (n : nat) (buf : list Byte.byte) :
  length buf = 4 * n → ∃ vd, Float32.view buf = Some vd ∧ length vd = n.
Proof.
  revert buf. induction n as [|n IH]; intros buf Hlen.
  - destruct buf; [|discriminate]. now exists [].
  - destruct buf as [|b0 [|b1 [|b2 [|b3 rest]]]]; simpl in Hlen; try lia.
    destruct (IH rest) as (vd & Hvd & Hl); [lia|].
    simpl. rewrite Hvd. eexists. split; [reflexivity|]. simpl. now rewrite Hl.
Qed.

(** The view exists exactly for the buffers that hold whole floats. *)
Lemma view_some_length (buf : list Byte.byte) (vd : list Number) :
  Float32.view buf = Some vd → length buf = 4 * length vd.
Proof.
  remember (length buf) as k eqn:Hk. revert buf vd Hk.
  induction k as [k IH] using lt_wf_ind. intros buf vd Hk Hview.
  destruct buf as [|b0 [|b1 [|b2 [|b3 rest]]]]; simpl in Hview; try discriminate.
  - injection Hview as <-. simpl in *. lia.
  - destruct (Float32.view rest) as [l|] eqn:Hrest; [|discriminate].
    injection Hview as <-. simpl in Hk.
    pose proof (IH (length rest) ltac:(lia) rest l eq_refl Hrest). simpl. lia.
Qed.

(** C1. With both files fetched, loading returns exactly when the buffer
    holds as many floats as the vocabulary length times [SIM_D]; a buffer of
    any other number [n] of floats makes it throw the size-mismatch error,
    and whenever it does not return it has thrown and the flag stays unset. *)
Theorem load_returns_iff_buffer_length_matches net v buf s :
  net_vocab net = Some v → net_vec net = Some buf →
  (returns (V1.loadVocabAndVec net s) = true ↔ length buf = 4 * (length v * SIM_D))
  ∧ (∀ n, length buf = 4 * n → n ≠ length v * SIM_D →
       ∃ s', V1.loadVocabAndVec net s = Throw (SizeMismatch n (length v * SIM_D)) s')
  ∧ (simLoaded s = false →
       (returns (V2.ensureSimModel net s) = true
        ↔ length buf = 4 * (length v * SIM_D))
       ∧ (returns (V2.ensureSimModel net s) = true →
            simLoaded (final_state (V2.ensureSimModel net s)) = true)
       ∧ (returns (V2.ensureSimModel net s) = false →
            throws (V2.ensureSimModel net s) = true
            ∧ simLoaded (final_state (V2.ensureSimModel net s)) = false)
       ∧ (∀ n, length buf = 4 * n → n ≠ length v * SIM_D →
            ∃ s', V2.ensureSimModel net s = Throw (SizeMismatch n (length v * SIM_D)) s'
                  ∧ simLoaded s' = false)).
Proof.
  intros Hv Hb.
  unfold V1.loadVocabAndVec, V2.ensureSimModel. m_unfold. rewrite Hv, Hb. simpl.
  destruct (Float32.view buf) as [vd|] eqn:Hvd; simpl.
  - pose proof (view_some_length buf vd Hvd) as Hlen.
    assert (Hn : ∀ n, length buf = 4 * n → length vd = n) by (intros; lia).
    split_and!.
    + case_bool_decide; simpl; split; intros; (done || lia).
    + intros n Hbuf Hne. rewrite (Hn n Hbuf). rewrite bool_decide_true by done. eauto.
    + intros Hs. rewrite Hs. simpl. rewrite ?Hvd. simpl. split_and!.
      * case_bool_decide; simpl; split; intros; (done || lia).
      * case_bool_decide; simpl; done.
      * case_bool_decide; simpl; [by rewrite Hs|done].
      * intros n Hbuf Hne. rewrite (Hn n Hbuf). rewrite bool_decide_true by done.
        simpl. eauto.
  - assert (Hrag : ∀ n, length buf ≠ 4 * n).
    { intros n Hn. destruct (view_length n buf Hn) as (vd & Hsome & _). congruence. }
    split_and!.
    + split; [done|]. intros H. now apply Hrag in H.
    + intros n Hbuf. now apply Hrag in Hbuf.
    + intros Hs. rewrite Hs. simpl. rewrite ?Hvd. simpl. split_and!.
      * split; [done|]. intros H. now apply Hrag in H.
      * done.
      * by rewrite Hs.
      * intros n Hbuf. now apply Hrag in Hbuf.
Qed.

Lemma load_returns_iff_buffer_length_matches_witness :
  (net_vocab Demo.net_mismatch = Some Demo.vocab2
   ∧ net_vec Demo.net_mismatch = Some Demo.vec_short
   ∧ length Demo.vec_short = 4 * 3
   ∧ simLoaded (initial Lazy2) = false)
  ∧ (∃ s', V1.loadVocabAndVec Demo.net_mismatch (initial Eager)
           = Throw (SizeMismatch 3 100) s')
  ∧ (∃ s', V2.ensureSimModel Demo.net_mismatch (initial Lazy2)
           = Throw (SizeMismatch 3 100) s' ∧ simLoaded s' = false)
  ∧ returns (V2.ensureSimModel Demo.net_ok (initial Lazy2)) = true.
Proof.
  split; [repeat split|].
  pose proof (load_returns_iff_buffer_length_matches
                Demo.net_mismatch Demo.vocab2 Demo.vec_short (initial Eager)
                eq_refl eq_refl) as (_ & H1 & _).
  pose proof (load_returns_iff_buffer_length_matches
                Demo.net_mismatch Demo.vocab2 Demo.vec_short (initial Lazy2)
                eq_refl eq_refl) as (_ & _ & H2).
  pose proof (load_returns_iff_buffer_length_matches
                Demo.net_ok Demo.vocab2 Demo.vec2 (initial Lazy2)
                eq_refl eq_refl) as (_ & _ & H3).
  destruct (H2 eq_refl) as (_ & _ & _ & H2').
  destruct (H3 eq_refl) as (H3' & _).
  split_and!.
  - apply (H1 3); [reflexivity|]. vm_compute. discriminate.
  - apply (H2' 3); [reflexivity|]. vm_compute. discriminate.
  - apply H3'. reflexivity.
Defined.

(** C5 as stated fails: after a load that fails on the size check, the index
    map holds the fetched vocabulary and [vecData] the fetched buffer, where
    both were empty before. *)
Lemma failed_load_leaves_fetched_tables :
  throws (V2.ensureSimModel Demo.net_mismatch (initial Lazy2)) = true
  ∧ wordToIndex (initial Lazy2) !! "犬" = None
  ∧ wordToIndex (final_state (V2.ensureSimModel Demo.net_mismatch (initial Lazy2))) !! "犬"
    = Some 1
  ∧ vecData (initial Lazy2) = None
  ∧ vecData (final_state (V2.ensureSimModel Demo.net_mismatch (initial Lazy2)))
    = Some [Num.one; Num.zero; Num.zero]
  ∧ throws (V4.ensureSimModelLoaded Demo.net_mismatch (initial Lazy4)) = true
  ∧ wordToIndex (final_state (V4.ensureSimModelLoaded Demo.net_mismatch (initial Lazy4))) !! "犬"
    = Some 1
  ∧ vecData (final_state (V4.ensureSimModelLoaded Demo.net_mismatch (initial Lazy4)))
    = Some [Num.one; Num.zero; Num.zero].
Proof. vm_compute. repeat split. Qed.

Ltac load_retry Hs :=
  let net' := fresh "net'" in
  intros net' ? ? ? Hv' Hb' Hvd' Hl'; simpl; rewrite ?Hs; simpl;
  rewrite Hv', Hb'; simpl;
  rewrite Hvd'; simpl; rewrite bool_decide_false by lia; simpl;
  rewrite <- app_assoc; done.

Ltac failed_load_cases net Hs :=
  destruct (net_vocab net) as [?|] eqn:?; simpl in *;
  [ destruct (net_vec net) as [buf|] eqn:?; simpl in *;
    [ destruct (Float32.view buf) as [?|] eqn:?; simpl in *;
      [ case_bool_decide; simpl in *; [|discriminate] | ] | ] | ];
  (split_and!; [done|..]; try load_retry Hs; intros; simplify_eq/=; done).

(** C5, amended. When the load throws, the flag stays unset and the next
    load fetches both files again and replaces both tables; but what the
    failed attempt had assigned before it threw stays: the index map of the
    fetched vocabulary and, after a size mismatch, the fetched buffer. *)
Theorem failed_load_stays_unready_and_is_retried net s :
  simLoaded s = false →
  (throws (V2.ensureSimModel net s) = true → failed_load_outcome V2.ensureSimModel net s)
  ∧ (throws (V4.ensureSimModelLoaded net s) = true →
       failed_load_outcome V4.ensureSimModelLoaded net s).
Proof.
  intros Hs. unfold failed_load_outcome.
  split; intros Hthrow.
  - unfold V2.ensureSimModel in *. m_unfold. rewrite Hs in *. simpl in *.
    failed_load_cases net Hs.
  - unfold V4.ensureSimModelLoaded in *. m_unfold. rewrite Hs in *. simpl in *.
    failed_load_cases net Hs.
Qed.

Lemma failed_load_stays_unready_and_is_retried_witness :
  (simLoaded (initial Lazy2) = false
   ∧ throws (V2.ensureSimModel Demo.net_mismatch (initial Lazy2)) = true)
  ∧ failed_load_outcome V2.ensureSimModel Demo.net_mismatch (initial Lazy2).
Proof.
  split; [split; reflexivity|].
  exact (proj1 (failed_load_stays_unready_and_is_retried
                  Demo.net_mismatch (initial Lazy2) eq_refl) eq_refl).
Defined.

(** ** The plot-eligibility filter *)

Section Selection.

Variables (cm : gmap string Point) (wti : gmap string nat).

Lemma select_both_kept words :
  (select_both cm wti words).1 = filter (in_both cm wti) words.
Proof.
  induction words as [|w rest IH]; [done|]. simpl.
  destruct (select_both cm wti rest) as [kept xy]. simpl in IH.
  destruct (cm !! w) as [c|] eqn:Hc.
  - case_bool_decide as Hi; simpl.
    + rewrite filter_cons_True by (split; [by eexists|done]). now rewrite IH.
    + rewrite filter_cons_False; [done|]. intros [_ ?]. done.
  - rewrite filter_cons_False; [done|]. intros [[? ?] _]. congruence.
Qed.

Lemma select_coords_kept words :
  (select_coords cm words).1 = filter (in_coords cm) words.
Proof.
  induction words as [|w rest IH]; [done|]. simpl.
  destruct (select_coords cm rest) as [kept xy]. simpl in IH.
  destruct (cm !! w) as [c|] eqn:Hc; simpl.
  - rewrite filter_cons_True by (by eexists). now rewrite IH.
  - rewrite filter_cons_False; [done|]. intros [? ?]. congruence.
Qed.

(** The two arrays filled by the loop are index-aligned: the point pushed
    with a word is the entry of the coordinate table for that word. *)
Lemma select_both_aligned words :
  Forall2 (fun w c => cm !! w = Some c)
          (select_both cm wti words).1 (select_both cm wti words).2.
Proof.
  induction words as [|w rest IH]; [constructor|]. simpl.
  destruct (select_both cm wti rest) as [kept xy]. simpl in IH.
  destruct (cm !! w) as [[x y]|] eqn:Hc; [|done].
  case_bool_decide; [|done]. simpl. now constructor.
Qed.

Lemma select_coords_aligned words :
  Forall2 (fun w c => cm !! w = Some c)
          (select_coords cm words).1 (select_coords cm words).2.
Proof.
  induction words as [|w rest IH]; [constructor|]. simpl.
  destruct (select_coords cm rest) as [kept xy]. simpl in IH.
  destruct (cm !! w) as [[x y]|] eqn:Hc; [|done].
  simpl. now constructor.
Qed.

End Selection.

(** ** What a run installs *)

Lemma bind_ok {A B} (m : M A) (f : A → M B) s a s1 :
  m s = Ok a s1 → (m ≫= f) s = f a s1.
Proof. intros H. unfold mbind, M_bind. now rewrite H. Qed.

Lemma tokenize_ok s tk pf text :
  tokenizer s = Some tk → tokenize pf text s = Ok (tokenize_loop pf (tk text)) s.
Proof. intros H. unfold tokenize. m_unfold. now rewrite H. Qed.

(** One statement of a handler is executed. *)
Ltac step_ok := erewrite bind_ok by reflexivity.

(** [V1.run] with too few plottable words. *)
Lemma V1_run_too_few s tk text pf uo :
  text ≠ "" → tokenizer s = Some tk →
  length (filter (in_both (coordMap s) (wordToIndex s)) (run_words tk text pf uo)) < 2 →
  V1.run text pf uo s
  = Ok tt (set_run_disabled false
             (set_status MSG_TOO_FEW
                (set_status MSG_TOKENIZING (set_run_disabled true s)))).
Proof.
  intros Ht Htk Hlen. unfold V1.run. apply String.eqb_neq in Ht. rewrite Ht.
  do 2 step_ok. erewrite bind_ok by (apply tokenize_ok; exact Htk). step_ok.
  pose proof (select_both_kept (coordMap s) (wordToIndex s) (run_words tk text pf uo)) as Hk.
  unfold run_words in *. simpl.
  destruct (select_both _ _ _) as [kept xy]. simpl in Hk. subst kept.
  apply Nat.ltb_lt in Hlen. rewrite Hlen. reflexivity.
Qed.

(** [V1.run] with at least two plottable words: whatever the drawing and the
    first similarity list do, the plotted set is the selection. *)
Lemma V1_run_installs s tk text pf uo :
  text ≠ "" → tokenizer s = Some tk →
  2 ≤ length (filter (in_both (coordMap s) (wordToIndex s)) (run_words tk text pf uo)) →
  let sel := select_both (coordMap s) (wordToIndex s) (run_words tk text pf uo) in
  let s' := final_state (V1.run text pf uo s) in
  currentWords s' = sel.1 ∧ currentXY s' = sel.2 ∧ coordMap s' = coordMap s
  ∧ wordToIndex s' = wordToIndex s ∧ tokenizer s' = tokenizer s.
Proof.
  intros Ht Htk Hlen sel s'. subst s'. unfold V1.run.
  apply String.eqb_neq in Ht. rewrite Ht.
  pose proof (select_both_kept (coordMap s) (wordToIndex s) (run_words tk text pf uo)) as Hk.
  fold sel in Hk.
  do 2 step_ok. erewrite bind_ok by (apply tokenize_ok; exact Htk). step_ok.
  unfold run_words in *. simpl. subst sel.
  destruct (select_both _ _ _) as [kept xy] eqn:Hsel. simpl in Hk. simpl.
  assert ((length kept <? 2) = false) as ->.
  { apply Nat.ltb_ge. rewrite Hk. exact Hlen. }
  do 3 step_ok.
  apply (preserves_final
           (fun s' => currentWords s' = kept ∧ currentXY s' = xy
                      ∧ coordMap s' = coordMap s ∧ wordToIndex s' = wordToIndex s
                      ∧ tokenizer s' = tokenizer s)).
  - unfold V1.showSimilar. preserves_with ltac:(intros; simpl in *; assumption).
  - simpl. done.
Qed.

Lemma bind_ok_inv {A B} (m : M A) (f : A → M B) s b s2 :
  (m ≫= f) s = Ok b s2 → ∃ a s1, m s = Ok a s1 ∧ f a s1 = Ok b s2.
Proof.
  unfold mbind, M_bind. destruct (m s) as [a s1|e s1|s1]; [eauto|done|done].
Qed.

Lemma final_triple {A} (P I : State → Prop) (m : M A) s :
  triple P m (fun _ => I) I → P s → I (final_state (m s)).
Proof. intros H Hs. specialize (H s Hs). now destruct (m s). Qed.

Lemma V3_ensures_keep_plotted cw pl net :
  preserves (plotted_is cw pl)
    (V3.ensurePlotly net;; V3.ensureTokenizer net;; V3.ensureCoords net).
Proof.
  unfold V3.ensurePlotly, V3.ensureTokenizer, V3.buildTokenizerWithTimeout,
    V3.ensureCoords.
  preserves_with ltac:(intros; unfold plotted_is in *; simpl in *; assumption).
Qed.

Lemma V3_run_plotted s net text pf uo :
  lazy_plotted text pf uo (currentWords s) (final_state (V3.run net text pf uo s)).
Proof.
  set (cw0 := currentWords s).
  set (Q := lazy_plotted text pf uo cw0).
  set (P0 := fun s1 : State => currentWords s1 = cw0).
  assert (HPQ : ∀ s1, P0 s1 → Q s1) by (intros s1 H; now left).
  assert (Hside : ∀ (f : State → State),
             (∀ s1, currentWords (f s1) = currentWords s1
                    ∧ tokenizer (f s1) = tokenizer s1
                    ∧ coordMap (f s1) = coordMap s1) →
             ∀ s1, Q s1 → Q (f s1)).
  { intros f Hf s1 [H|(tk & H1 & H2)]; destruct (Hf s1) as (E1 & E2 & E3).
    - left. unfold P0 in *. congruence.
    - right. exists tk. rewrite E1, E2, E3. done. }
  apply (final_triple P0 Q); [|done].
  unfold V3.run. destruct (text =? "")%string.
  { apply triple_modify. intros s1 H. now left. }
  eapply triple_bind with (R := fun _ => P0).
  { apply triple_modify. intros s1 H. exact H. }
  intros _. apply triple_try_finally with (Q' := fun _ => Q) (X' := Q);
    [|intros _; apply Hside; done|apply Hside; done|done].
  apply triple_try_catch with (X' := Q);
    [|intros e; eapply triple_bind with (R := fun _ => Q);
      [apply triple_modify; apply Hside; done
      |intros _; apply triple_modify; apply Hside; done]|done].
  assert (Hpres : ∀ {A} (m : M A), preserves P0 m → triple P0 m (fun _ => P0) Q).
  { intros A m Hm. eapply triple_weaken; [exact Hm|auto..]. }
  eapply triple_bind with (R := fun _ => P0).
  { apply Hpres. unfold V3.ensurePlotly.
    preserves_with ltac:(intros; unfold P0 in *; simpl in *; assumption). }
  intros _. eapply triple_bind with (R := fun _ => P0).
  { apply Hpres. unfold V3.ensureTokenizer, V3.buildTokenizerWithTimeout.
    preserves_with ltac:(intros; unfold P0 in *; simpl in *; assumption). }
  intros _. eapply triple_bind with (R := fun _ => P0).
  { apply Hpres. unfold V3.ensureCoords.
    preserves_with ltac:(intros; unfold P0 in *; simpl in *; assumption). }
  intros _. eapply triple_bind with (R := fun _ => P0).
  { apply Hpres. preserves_with ltac:(intros; unfold P0 in *; simpl in *; assumption). }
  intros _. intros s1 Hs1. unfold tokenize. m_unfold.
  destruct (tokenizer s1) as [tk|] eqn:Htk; simpl; [|now left].
  pose proof (select_coords_kept (coordMap s1)
                (apply_unique uo (tokenize_loop pf (tk text)))) as Hk.
  destruct (select_coords _ _) as [kept xy]. simpl in Hk.
  destruct (length kept <? 2); simpl; [now left|].
  m_unfold. simpl. case_bool_decide; simpl; right; exists tk; done.
Qed.

(** C2 as stated fails for the lazy variants: after a run and a click that
    loads the model, the plotted set holds 犬, which has a coordinate but no
    entry in the vocabulary index. *)
Lemma lazy_run_plots_word_without_index :
  currentWords (session Lazy3
                  [RunClick Demo.net_small_vocab "猫と犬と猫" true true;
                   PlotClick Demo.net_small_vocab 0] (initial Lazy3))
  = ["猫"; "犬"]
  ∧ simLoaded (session Lazy3
                 [RunClick Demo.net_small_vocab "猫と犬と猫" true true;
                  PlotClick Demo.net_small_vocab 0] (initial Lazy3)) = true
  ∧ wordToIndex (session Lazy3
                   [RunClick Demo.net_small_vocab "猫と犬と猫" true true;
                    PlotClick Demo.net_small_vocab 0] (initial Lazy3)) !! "犬" = None
  ∧ coordMap (session Lazy3
                [RunClick Demo.net_small_vocab "猫と犬と猫" true true;
                 PlotClick Demo.net_small_vocab 0] (initial Lazy3)) !! "犬"
    = Some (Num.of_Z 3, Num.of_Z 4).
Proof. vm_compute. repeat split. Qed.

(** C2, amended. In [V1] the plotted set a run installs is exactly the
    sequence of its words that have both a coordinate and an index (and the
    previous set stays when fewer than two do).  The selection loop of [V2],
    [V3] and [V4] keeps exactly the words that have a coordinate, and what a
    run of [V3] leaves in [currentWords] is the previous set or those words. *)
Theorem plotted_words_are_the_selected_ones :
  (∀ s tk text pf uo, text ≠ "" → tokenizer s = Some tk →
      let kept := filter (in_both (coordMap s) (wordToIndex s))
                         (run_words tk text pf uo) in
      let s' := final_state (V1.run text pf uo s) in
      currentWords s' = (if length kept <? 2 then currentWords s else kept)
      ∧ coordMap s' = coordMap s ∧ wordToIndex s' = wordToIndex s)
  ∧ (∀ cm words, (select_coords cm words).1 = filter (in_coords cm) words)
  ∧ (∀ s net text pf uo,
        lazy_plotted text pf uo (currentWords s)
                     (final_state (V3.run net text pf uo s))).
Proof.
  split_and!.
  - intros s tk text pf uo Ht Htk kept s'. subst s'.
    destruct (length kept <? 2) eqn:Hlen.
    + apply Nat.ltb_lt in Hlen.
      rewrite (V1_run_too_few s tk text pf uo Ht Htk Hlen). done.
    + apply Nat.ltb_ge in Hlen.
      destruct (V1_run_installs s tk text pf uo Ht Htk Hlen) as (H1 & _ & H3 & H4 & _).
      rewrite H1, select_both_kept. done.
  - apply select_coords_kept.
  - apply V3_run_plotted.
Qed.

Lemma plotted_words_are_the_selected_ones_witness :
  ("猫と犬" ≠ "" ∧ tokenizer loaded_state = Some Demo.tk)
  ∧ currentWords (final_state (V1.run "猫と犬" true true loaded_state)) = ["猫"; "犬"].
Proof.
  split; [split; [discriminate|reflexivity]|].
  pose proof (proj1 plotted_words_are_the_selected_ones loaded_state Demo.tk
                "猫と犬" true true ltac:(discriminate) eq_refl) as H.
  cbv zeta in H. destruct H as [H _]. rewrite H. vm_compute. reflexivity.
Defined.

(** ** Too few plottable words *)

Lemma V3_run_too_few s net text pf uo s1 tk :
  text ≠ "" →
  (V3.ensurePlotly net;; V3.ensureTokenizer net;; V3.ensureCoords net)
    (set_run_disabled true s) = Ok tt s1 →
  tokenizer s1 = Some tk →
  length (filter (in_coords (coordMap s1)) (run_words tk text pf uo)) < 2 →
  V3.run net text pf uo s
  = Ok tt (set_run_disabled false (set_status MSG_TOO_FEW (set_status MSG_TOKENIZING s1)))
  ∧ currentWords s1 = currentWords s ∧ plot s1 = plot s.
Proof.
  intros Ht He Htk Hlen. split.
  - unfold V3.run. apply String.eqb_neq in Ht. rewrite Ht. step_ok.
    apply bind_ok_inv in He as ([] & sa & Ha & He).
    apply bind_ok_inv in He as ([] & sb & Hb & Hc).
    unfold try_finally, try_catch.
    rewrite (bind_ok _ _ _ _ _ Ha), (bind_ok _ _ _ _ _ Hb), (bind_ok _ _ _ _ _ Hc).
    step_ok. erewrite bind_ok by (apply tokenize_ok; exact Htk). step_ok.
    pose proof (select_coords_kept (coordMap s1) (run_words tk text pf uo)) as Hk.
    unfold run_words in *. simpl.
    destruct (select_coords _ _) as [kept xy]. simpl in Hk. subst kept.
    apply Nat.ltb_lt in Hlen. rewrite Hlen. reflexivity.
  - pose proof (preserves_final _ _ (set_run_disabled true s)
                  (V3_ensures_keep_plotted (currentWords s) (plot s) net)) as H.
    rewrite He in H. apply H. done.
Qed.

(** C8. When fewer than two words survive the filter, the run returns
    normally (nothing is thrown), the status line carries the message, the
    run button is enabled again, and the plotted set and the plot are the
    ones from before the run. *)
Theorem too_few_words_is_reported_not_thrown :
  (∀ s tk text pf uo, text ≠ "" → tokenizer s = Some tk →
      length (filter (in_both (coordMap s) (wordToIndex s)) (run_words tk text pf uo)) < 2 →
      ∃ s', V1.run text pf uo s = Ok tt s'
            ∧ status s' = MSG_TOO_FEW ∧ run_disabled s' = false
            ∧ currentWords s' = currentWords s ∧ currentXY s' = currentXY s
            ∧ plot s' = plot s)
  ∧ (∀ s net text pf uo s1 tk, text ≠ "" →
        (V3.ensurePlotly net;; V3.ensureTokenizer net;; V3.ensureCoords net)
          (set_run_disabled true s) = Ok tt s1 →
        tokenizer s1 = Some tk →
        length (filter (in_coords (coordMap s1)) (run_words tk text pf uo)) < 2 →
        ∃ s', V3.run net text pf uo s = Ok tt s'
              ∧ status s' = MSG_TOO_FEW ∧ run_disabled s' = false
              ∧ currentWords s' = currentWords s ∧ plot s' = plot s).
Proof.
  split.
  - intros s tk text pf uo Ht Htk Hlen. eexists. split.
    + apply (V1_run_too_few s tk text pf uo Ht Htk Hlen).
    + done.
  - intros s net text pf uo s1 tk Ht He Htk Hlen.
    destruct (V3_run_too_few s net text pf uo s1 tk Ht He Htk Hlen) as (Hr & Hcw & Hpl).
    eexists. split; [exact Hr|]. simpl. done.
Qed.

Lemma too_few_words_is_reported_not_thrown_witness :
  (tokenizer one_word_state = Some Demo.tk_one
   ∧ length (filter (in_both (coordMap one_word_state) (wordToIndex one_word_state))
                    (run_words Demo.tk_one "猫" true true)) < 2
   ∧ tokenizer V3_after_ensures = Some Demo.tk_one
   ∧ length (filter (in_coords (coordMap V3_after_ensures))
                    (run_words Demo.tk_one "猫" true true)) < 2)
  ∧ (∃ s', V1.run "猫" true true one_word_state = Ok tt s'
           ∧ status s' = MSG_TOO_FEW ∧ run_disabled s' = false
           ∧ currentWords s' = currentWords one_word_state
           ∧ currentXY s' = currentXY one_word_state
           ∧ plot s' = plot one_word_state)
  ∧ (∃ s', V3.run Demo.net_one_word "猫" true true (initial Lazy3) = Ok tt s'
           ∧ status s' = MSG_TOO_FEW ∧ run_disabled s' = false
           ∧ currentWords s' = currentWords (initial Lazy3)
           ∧ plot s' = plot (initial Lazy3)).
Proof.
  assert (H1 : tokenizer one_word_state = Some Demo.tk_one) by reflexivity.
  assert (H2 : length (filter (in_both (coordMap one_word_state)
                                       (wordToIndex one_word_state))
                              (run_words Demo.tk_one "猫" true true)) < 2)
    by (vm_compute; lia).
  assert (H3 : tokenizer V3_after_ensures = Some Demo.tk_one) by reflexivity.
  assert (H4 : length (filter (in_coords (coordMap V3_after_ensures))
                              (run_words Demo.tk_one "猫" true true)) < 2)
    by (vm_compute; lia).
  assert (H5 : (V3.ensurePlotly Demo.net_one_word;;
                V3.ensureTokenizer Demo.net_one_word;;
                V3.ensureCoords Demo.net_one_word)
                 (set_run_disabled true (initial Lazy3)) = Ok tt V3_after_ensures)
    by (vm_compute; reflexivity).
  split; [done|]. split.
  - exact (proj1 too_few_words_is_reported_not_thrown one_word_state Demo.tk_one
             "猫" true true ltac:(discriminate) H1 H2).
  - exact (proj2 too_few_words_is_reported_not_thrown (initial Lazy3)
             Demo.net_one_word "猫" true true V3_after_ensures Demo.tk_one
             ltac:(discriminate) H5 H3 H4).
Defined.

(** ** Selecting a word without an index *)

Lemma V2_ensureSimModel_keeps word cw cxy pl net :
  preserves (fun s => selectedWord s = word ∧ simList s = [] ∧ currentWords s = cw
                      ∧ currentXY s = cxy ∧ plot s = pl)
            (V2.ensureSimModel net).
Proof.
  unfold V2.ensureSimModel.
  preserves_with ltac:(intros; simpl in *; assumption).
Qed.




(** ** Alignment of the plotted words and points *)

Lemma nothing_plotted_aligned s : nothing_plotted s → aligned s.
Proof.
  intros (H1 & H2 & H3). unfold aligned, points_of. rewrite H1, H2, H3.
  split; [constructor|]. intros ws pts [=].
Qed.

Lemma bind_throw {A B} (m : M A) (f : A → M B) s e s1 :
  m s = Throw e s1 → (m ≫= f) s = Throw e s1.
Proof. intros H. unfold mbind, M_bind. now rewrite H. Qed.

Lemma tokenize_null s pf text :
  tokenizer s = None → tokenize pf text s = Throw TypeError s.
Proof. intros H. unfold tokenize. m_unfold. now rewrite H. Qed.

Ltac installing_side :=
  intros; unfold installing in *; simpl in *; intuition (auto; congruence).

Lemma installing_aligned s kept xy s1 :
  aligned s → points_of (coordMap s) kept xy → installing s kept xy s1 → aligned s1.
Proof.
  intros [_ Hp] Hk (H1 & _ & H3 & H4 & H5). unfold aligned.
  rewrite H1, H3, H4. split; [done|].
  intros ws pts Hpl. destruct H5 as [H5|H5]; rewrite H5 in Hpl.
  - now apply Hp.
  - now injection Hpl as <- <-.
Qed.

Lemma V1_run_aligned text pf uo s :
  aligned s → aligned (final_state (V1.run text pf uo s)).
Proof.
  intros Ha. unfold V1.run. destruct (text =? "")%string; [exact Ha|].
  do 2 step_ok.
  destruct (tokenizer s) as [tk|] eqn:Htk.
  2: { erewrite bind_throw by (apply tokenize_null; exact Htk). exact Ha. }
  erewrite bind_ok by (apply tokenize_ok; exact Htk). step_ok. simpl.
  pose proof (select_both_aligned (coordMap s) (wordToIndex s)
                (apply_unique uo (tokenize_loop pf (tk text)))) as Hal.
  destruct (select_both _ _ _) as [kept xy]. simpl in Hal.
  destruct (length kept <? 2); [exact Ha|].
  do 3 step_ok.
  apply (installing_aligned s kept xy); [done|done|].
  apply preserves_final; [|installing_side].
  unfold V1.showSimilar. preserves_with installing_side.
Qed.

Lemma V1_plotly_click_aligned idx s :
  aligned s → aligned (final_state (V1.plotly_click idx s)).
Proof.
  intros Ha. apply preserves_final; [|done].
  unfold V1.plotly_click, V1.showSimilar.
  preserves_with ltac:(intros; unfold aligned in *; simpl in *; assumption).
Qed.

Lemma V1_init_nothing_plotted net : preserves nothing_plotted (V1.init net).
Proof.
  unfold V1.init, V1.loadTokenizer, V1.loadCoords, V1.loadVocabAndVec.
  preserves_with ltac:(intros; unfold nothing_plotted in *; simpl in *; assumption).
Qed.

(** [V4]: the coordinate table is loaded before the selection. *)
Lemma V4_ensureCoordsLoaded_aligned net s :
  aligned_V4 s →
  aligned_V4 (final_state (V4.ensureCoordsLoaded net s))
  ∧ (returns (V4.ensureCoordsLoaded net s) = true →
     coordsLoaded (final_state (V4.ensureCoordsLoaded net s)) = true).
Proof.
  intros [Ha Hn]. unfold V4.ensureCoordsLoaded. m_unfold.
  destruct (coordsLoaded s) eqn:Hc; simpl.
  { split; [|done]. split; [done|]. now rewrite Hc. }
  destruct (Hn eq_refl) as (H1 & H2 & H3).
  destruct (net_coords net); simpl; (split; [|done]); split; simpl;
    try (intros; done); apply nothing_plotted_aligned; done.
Qed.

Lemma V4_run_aligned net text pf uo s :
  aligned_V4 s → aligned_V4 (final_state (V4.run net text pf uo s)).
Proof.
  intros Ha. unfold V4.run. destruct (text =? "")%string; [exact Ha|].
  do 2 step_ok.
  destruct (tokenizer s) as [tk|] eqn:Htk.
  2: { erewrite bind_throw by (apply tokenize_null; exact Htk). exact Ha. }
  erewrite bind_ok by (apply tokenize_ok; exact Htk). cbv beta zeta.
  match goal with
  | |- context [mbind _ (V4.ensureCoordsLoaded net) ?st] =>
      destruct (V4_ensureCoordsLoaded_aligned net st Ha) as [Ha1 Hc1];
      destruct (V4.ensureCoordsLoaded net st) as [[] s1|e s1|s1] eqn:He
  end; simpl in Ha1, Hc1.
  2: { erewrite bind_throw by exact He. exact Ha1. }
  2: { unfold mbind, M_bind. rewrite He. exact Ha1. }
  rewrite (bind_ok _ _ _ _ _ He). step_ok.
  pose proof (select_coords_aligned (coordMap s1)
                (apply_unique uo (tokenize_loop pf (tk text)))) as Hal.
  destruct (select_coords _ _) as [kept xy]. simpl in Hal.
  destruct (length kept <? 2); [exact Ha1|].
  do 3 step_ok.
  assert (Hi : installing s1 kept xy
                 (final_state ((renderPlot kept xy;; modify (set_run_disabled false))
                    (set_status (V4.msg_done (length kept))
                       (set_currentXY xy (set_currentWords kept s1)))))).
  { apply preserves_final; [|installing_side].
    preserves_with installing_side. }
  split.
  - apply (installing_aligned s1 kept xy); [apply Ha1|done|done].
  - destruct Hi as (_ & Hc & _). rewrite Hc, (Hc1 eq_refl). discriminate.
Qed.

Lemma V4_click_and_init_aligned net idx :
  preserves aligned_V4 (V4.plotly_click net idx) ∧ preserves aligned_V4 (V4.init net).
Proof.
  split.
  - unfold V4.plotly_click, V4.showSimilar, V4.ensureSimModelLoaded, V2.rank_and_show.
    preserves_with ltac:(intros; unfold aligned_V4, aligned in *; simpl in *; assumption).
  - unfold V4.init, V4.loadTokenizer.
    preserves_with ltac:(intros; unfold aligned_V4, aligned in *; simpl in *; assumption).
Qed.

Lemma V1_session_aligned evs s :
  Forall user_event evs → aligned s → aligned (session Eager evs s).
Proof.
  intros Hev. revert s. induction Hev as [|ev evs Hu _ IH]; intros s Ha; [done|].
  simpl. apply IH. unfold step. destruct ev as [net|net text pf uo|net idx]; [done|..].
  - simpl. step_ok. destruct (run_disabled s); [exact Ha|]. now apply V1_run_aligned.
  - now apply V1_plotly_click_aligned.
Qed.

Lemma V4_session_aligned evs s :
  aligned_V4 s → aligned_V4 (session Lazy4 evs s).
Proof.
  revert s. induction evs as [|ev evs IH]; intros s Ha; [done|].
  simpl. apply IH. unfold step. destruct ev as [net|net text pf uo|net idx].
  - apply preserves_final; [|done]. apply (V4_click_and_init_aligned net 0).
  - simpl. step_ok. destruct (run_disabled s); [exact Ha|]. now apply V4_run_aligned.
  - apply preserves_final; [|done]. apply (V4_click_and_init_aligned net idx).
Qed.

Lemma points_of_lookup cm ws pts :
  points_of cm ws pts →
  length ws = length pts
  ∧ ∀ p w, ws !! p = Some w → ∃ c, cm !! w = Some c ∧ pts !! p = Some c.
Proof.
  intros H. split; [eapply Forall2_length, H|].
  intros p w Hw. destruct (Forall2_lookup_l _ _ _ _ _ H Hw) as (c & Hc & Hcm). eauto.
Qed.

(** C10. In [V1] and [V4], at every point of a session (so after every run),
    [currentWords] and [currentXY] have the same length and the point at each
    position is the entry of the coordinate table for the word at that
    position; the same holds for the words and points last handed to the
    plot, whose click handler maps a point index back to a word. *)
Theorem plotted_words_and_points_stay_aligned (v : Variant) net0 evs :
  v = Eager ∨ v = Lazy4 → Forall user_event evs →
  let s := session v (PageLoad net0 :: evs) (initial v) in
  (length (currentWords s) = length (currentXY s)
   ∧ ∀ p w, currentWords s !! p = Some w →
            ∃ c, coordMap s !! w = Some c ∧ currentXY s !! p = Some c)
  ∧ (∀ ws pts, plot s = Some (ws, pts) →
        length ws = length pts
        ∧ ∀ p w, ws !! p = Some w → ∃ c, coordMap s !! w = Some c ∧ pts !! p = Some c).
Proof.
  intros Hv Hev s.
  assert (Ha : aligned s).
  { subst s. destruct Hv as [-> | ->].
    - simpl. apply V1_session_aligned; [done|].
      apply nothing_plotted_aligned. unfold step. simpl.
      apply preserves_final; [apply V1_init_nothing_plotted|done].
    - apply (V4_session_aligned (PageLoad net0 :: evs) (initial Lazy4)).
      split; [apply nothing_plotted_aligned|]; done. }
  destruct Ha as [H1 H2]. split.
  - now apply points_of_lookup.
  - intros ws pts Hp. apply points_of_lookup. now apply H2.
Qed.

Lemma plotted_words_and_points_stay_aligned_witness :
  (Forall user_event [RunClick Demo.net_ok "猫と犬と猫" true false;
                      PlotClick Demo.net_ok 1;
                      RunClick Demo.net_ok "犬" false true]
   ∧ currentWords (session Lazy4
                     (PageLoad Demo.net_ok ::
                      [RunClick Demo.net_ok "猫と犬と猫" true false;
                       PlotClick Demo.net_ok 1;
                       RunClick Demo.net_ok "犬" false true]) (initial Lazy4))
     = ["猫"; "犬"])
  ∧ length (currentWords (session Lazy4
                            (PageLoad Demo.net_ok ::
                             [RunClick Demo.net_ok "猫と犬と猫" true false;
                              PlotClick Demo.net_ok 1;
                              RunClick Demo.net_ok "犬" false true]) (initial Lazy4)))
    = length (currentXY (session Lazy4
                           (PageLoad Demo.net_ok ::
                            [RunClick Demo.net_ok "猫と犬と猫" true false;
                             PlotClick Demo.net_ok 1;
                             RunClick Demo.net_ok "犬" false true]) (initial Lazy4))).
Proof.
  assert (Hev : Forall user_event [RunClick Demo.net_ok "猫と犬と猫" true false;
                                   PlotClick Demo.net_ok 1;
                                   RunClick Demo.net_ok "犬" false true])
    by (repeat constructor).
  split; [split; [exact Hev|vm_compute; reflexivity]|].
  exact (proj1 (proj1 (plotted_words_and_points_stay_aligned Lazy4 Demo.net_ok _
                         (or_intror eq_refl) Hev))).
Defined.

(** ** Cosine similarity *)

(** The three accumulators of the loop are independent sums. *)
Lemma cos_fold_split vecData offI offJ ks dot ni nj :
  fold_left (cos_step vecData offI offJ) ks (dot, ni, nj)
  = (fold_left (fun acc k => Num.add acc (Num.mul (elem vecData (offI + k))
                                                  (elem vecData (offJ + k)))) ks dot,
     fold_left (fun acc k => Num.add acc (Num.mul (elem vecData (offI + k))
                                                  (elem vecData (offI + k)))) ks ni,
     fold_left (fun acc k => Num.add acc (Num.mul (elem vecData (offJ + k))
                                                  (elem vecData (offJ + k)))) ks nj).
Proof.
  revert dot ni nj. induction ks as [|k ks IH]; intros dot ni nj; [done|].
  simpl. apply IH.
Qed.

Lemma cos_sums_eq vecData i j :
  cos_sums vecData i j
  = (dot_at vecData (i * SIM_D) (j * SIM_D),
     sq_norm_at vecData (i * SIM_D), sq_norm_at vecData (j * SIM_D)).
Proof. unfold cos_sums. apply cos_fold_split. Qed.

Lemma sq_norm_zero_vector vecData i :
  zero_vector vecData i → sq_norm_at vecData (i * SIM_D) = Num.zero.
Proof.
  intros Hz. unfold sq_norm_at.
  assert (H : ∀ ks, Forall (fun k => k < SIM_D) ks →
            fold_left (fun acc k => Num.add acc
                         (Num.mul (elem vecData (i * SIM_D + k))
                                  (elem vecData (i * SIM_D + k)))) ks Num.zero
            = Num.zero).
  { induction ks as [|k ks IH]; intros Hks; [done|].
    inversion Hks as [|? ? Hk Hks']; subst. simpl.
    destruct (Hz k Hk) as [sg Hsg]. unfold elem. rewrite Hsg. simpl.
    destruct sg; simpl; now apply IH. }
  apply H. apply Forall_forall. intros k Hk. apply elem_of_seq in Hk. lia.
Qed.

Lemma div_self sg m e :
  Num.div (S754_finite sg m e) (S754_finite sg m e) = Num.one.
Proof.
  unfold Num.div, SFdiv, SFdiv_core_binary.
  rewrite !Z.sub_diag.
  change (Z.min (fexp Num.prec Num.emax 0) 0) with (-53)%Z.
  change (0 - -53)%Z with 53%Z. cbv match.
  rewrite Z.shiftl_mul_pow2 by lia.
  assert (Hd : Z.div_eucl (Z.pos m * 2 ^ 53) (Z.pos m) = ((2 ^ 53)%Z, 0%Z)).
  { pose proof (Z.div_eucl_eq (Z.pos m * 2 ^ 53) (Z.pos m) ltac:(lia)) as Heq.
    pose proof (Z.mod_pos_bound (Z.pos m * 2 ^ 53) (Z.pos m) ltac:(lia)) as Hb.
    unfold Z.modulo in Hb.
    destruct (Z.div_eucl (Z.pos m * 2 ^ 53) (Z.pos m)) as [q r].
    assert (q = (2 ^ 53)%Z) by nia. subst q. f_equal. lia. }
  rewrite Hd.
  assert (Hl : new_location (Z.pos m) 0 = loc_Exact).
  { unfold new_location. now destruct (Z.even (Z.pos m)). }
  rewrite Hl. rewrite xorb_nilpotent. vm_compute. reflexivity.
Qed.

Lemma dot_at_self vecData off : dot_at vecData off off = sq_norm_at vecData off.
Proof. unfold dot_at, sq_norm_at. reflexivity. Qed.

(** The value [cosineSimByIndex] returns for an index against itself. *)
Lemma cosine_self vecData i :
  cosineSimByIndex vecData i i
  = (if Num.strict_eq (sq_norm_at vecData (i * SIM_D)) Num.zero then Num.zero
     else Num.div (sq_norm_at vecData (i * SIM_D))
                  (Num.mul (Num.sqrt (sq_norm_at vecData (i * SIM_D)))
                           (Num.sqrt (sq_norm_at vecData (i * SIM_D))))).
Proof.
  unfold cosineSimByIndex. rewrite cos_sums_eq, dot_at_self. cbv beta iota.
  rewrite orb_diag. reflexivity.
Qed.

(** C4 as stated fails on its second half: for the vector (1, 1, 0, ..., 0)
    the squared norm is 2, [sqrt(2) * sqrt(2)] rounds to 2.0000000000000004,
    and the quotient is 0.9999999999999998, which is less than 1. *)
Lemma self_similarity_rounds_below_one :
  Float32.view (Demo.f32_one ++ Demo.f32_one ++ Demo.f32_zeros 48)
  = Some ([Num.one; Num.one] ++ repeat Num.zero 48)
  ∧ cosineSimByIndex ([Num.one; Num.one] ++ repeat Num.zero 48) 0 0
    = S754_finite false 9007199254740990 (-53)
  ∧ Num.strict_eq (cosineSimByIndex ([Num.one; Num.one] ++ repeat Num.zero 48) 0 0)
                  Num.one = false
  ∧ Num.ltb (cosineSimByIndex ([Num.one; Num.one] ++ repeat Num.zero 48) 0 0)
            Num.one = true.
Proof. vm_compute. repeat split. Qed.

(** C4, amended. If either vector is all zero the similarity is exactly [0].
    For an index against itself the three sums coincide with the squared
    norm [n], and the result is [0] when [n] is zero and [n / (sqrt n * sqrt n)]
    otherwise; that quotient is exactly [1] whenever [n] is finite and
    [sqrt n * sqrt n] rounds back to [n]. *)
Theorem similarity_of_zero_vector_and_of_self vecData i j :
  (zero_vector vecData i ∨ zero_vector vecData j →
     cosineSimByIndex vecData i j = Num.zero)
  ∧ cosineSimByIndex vecData i i
    = (if Num.strict_eq (sq_norm_at vecData (i * SIM_D)) Num.zero then Num.zero
       else Num.div (sq_norm_at vecData (i * SIM_D))
                    (Num.mul (Num.sqrt (sq_norm_at vecData (i * SIM_D)))
                             (Num.sqrt (sq_norm_at vecData (i * SIM_D)))))
  ∧ (∀ m e, sq_norm_at vecData (i * SIM_D) = S754_finite false m e →
        Num.mul (Num.sqrt (sq_norm_at vecData (i * SIM_D)))
                (Num.sqrt (sq_norm_at vecData (i * SIM_D)))
        = sq_norm_at vecData (i * SIM_D) →
        cosineSimByIndex vecData i i = Num.one).
Proof.
  split_and!.
  - intros Hz. unfold cosineSimByIndex. rewrite cos_sums_eq.
    destruct Hz as [Hz|Hz]; rewrite (sq_norm_zero_vector _ _ Hz).
    + reflexivity.
    + now rewrite orb_true_r.
  - apply cosine_self.
  - intros m e Hn Hsq. rewrite cosine_self. rewrite Hsq, Hn.
    rewrite div_self. reflexivity.
Qed.

Lemma similarity_of_zero_vector_and_of_self_witness :
  (zero_vector vec_0_345 0
   ∧ sq_norm_at vec_0_345 (1 * SIM_D) = S754_finite false 7036874417766400 (-48))
  ∧ cosineSimByIndex vec_0_345 0 1 = Num.zero
  ∧ cosineSimByIndex vec_0_345 1 1 = Num.one.
Proof.
  assert (Hz : zero_vector vec_0_345 0).
  { intros k Hk. exists false. unfold SIM_D in Hk. unfold vec_0_345.
    rewrite lookup_app_l by (rewrite length_replicate; simpl; lia).
    apply lookup_replicate_2. simpl. lia. }
  assert (Hn : sq_norm_at vec_0_345 (1 * SIM_D)
               = S754_finite false 7036874417766400 (-48))
    by (vm_compute; reflexivity).
  assert (Hsq : Num.mul (Num.sqrt (sq_norm_at vec_0_345 (1 * SIM_D)))
                        (Num.sqrt (sq_norm_at vec_0_345 (1 * SIM_D)))
                = sq_norm_at vec_0_345 (1 * SIM_D))
    by (vm_compute; reflexivity).
  exact (conj (conj Hz Hn)
           (conj (proj1 (similarity_of_zero_vector_and_of_self vec_0_345 0 1)
                        (or_introl Hz))
                 (proj2 (proj2 (similarity_of_zero_vector_and_of_self vec_0_345 1 0))
                        _ _ Hn Hsq))).
Defined.

(** ** Order and subtraction of numbers

    The comparator of the ranking subtracts two scores and [sort] looks at
    the sign of the difference.  On binary64 values other than NaN the sign
    of [y - x] is positive exactly when [x < y]: the difference of two
    distinct values never rounds to zero. *)

Section NumOrder.

Local Open Scope Z_scope.

Lemma digits2_bounds (m : positive) :
  2 ^ (Z.pos (digits2_pos m) - 1) <= Z.pos m < 2 ^ Z.pos (digits2_pos m).
Proof.
  induction m as [m IH|m IH|]; simpl digits2_pos.
  - rewrite Pos2Z.inj_succ, Pos2Z.inj_xI.
    replace (Z.succ (Z.pos (digits2_pos m)) - 1) with (Z.succ (Z.pos (digits2_pos m) - 1)) by lia.
    rewrite !Z.pow_succ_r by lia. lia.
  - rewrite Pos2Z.inj_succ. change (Z.pos m~0) with (2 * Z.pos m).
    replace (Z.succ (Z.pos (digits2_pos m)) - 1) with (Z.succ (Z.pos (digits2_pos m) - 1)) by lia.
    rewrite !Z.pow_succ_r by lia. lia.
  - simpl. lia.
Qed.

Lemma iter_xO_value (m d : positive) :
  Z.pos (Pos.iter xO m d) = Z.pos m * 2 ^ Z.pos d.
Proof.
  induction d as [|d IH] using Pos.peano_ind.
  - simpl. lia.
  - rewrite Pos.iter_succ. change (Z.pos (Pos.iter xO m d)~0) with (2 * Z.pos (Pos.iter xO m d)).
    rewrite IH, Pos2Z.inj_succ, Z.pow_succ_r by lia. lia.
Qed.

Lemma shl_align_value (m : positive) (e ez : Z) :
  ez <= e → Z.pos (fst (shl_align m e ez)) = Z.pos m * 2 ^ (e - ez).
Proof.
  intros Hle. unfold shl_align. destruct (ez - e) as [|d|d] eqn:Hd.
  - replace (e - ez) with 0 by lia. simpl. lia.
  - lia.
  - simpl. rewrite iter_xO_value. f_equal. f_equal. lia.
Qed.

(** What canonical form says about a mantissa. *)
Lemma bounded_mantissa (m : positive) (e : Z) :
  bounded Num.prec Num.emax m e = true →
  emin64 <= e ∧ Z.pos m < 2 ^ 53 ∧ (emin64 < e → 2 ^ 52 <= Z.pos m).
Proof.
  unfold bounded, canonical_mantissa, fexp. intros H.
  apply andb_prop in H as [H _]. apply Z.eqb_eq in H.
  pose proof (digits2_bounds m) as [Hlo Hhi].
  fold emin64 in H. unfold Num.prec in H.
  set (d := Z.pos (digits2_pos m)) in *.
  assert (Hd : 0 < d) by (unfold d; lia).
  split; [lia|]. split.
  - assert (d <= 53) by lia.
    pose proof (Z.pow_le_mono_r 2 d 53 ltac:(lia) ltac:(lia)). lia.
  - intros He. assert (d = 53) as Hd53 by lia. rewrite Hd53 in Hlo. exact Hlo.
Qed.

Lemma compare_aligned sx mx ex sy my ey :
  bounded Num.prec Num.emax mx ex = true →
  bounded Num.prec Num.emax my ey = true →
  SFcompare (S754_finite sx mx ex) (S754_finite sy my ey)
  = Some (aligned_mantissa sx mx ex (Z.min ey ex)
          ?= aligned_mantissa sy my ey (Z.min ey ex)).
Proof.
  intros Hx Hy.
  destruct (bounded_mantissa _ _ Hx) as (Hex & Hmx & Hnx).
  destruct (bounded_mantissa _ _ Hy) as (Hey & Hmy & Hny).
  unfold aligned_mantissa.
  rewrite (shl_align_value mx ex (Z.min ey ex)) by lia.
  rewrite (shl_align_value my ey (Z.min ey ex)) by lia.
  assert (Hp : ∀ k, 1 <= k → 2 <= 2 ^ k).
  { intros k Hk. pose proof (Z.pow_le_mono_r 2 1 k ltac:(lia) Hk). lia. }
  unfold SFcompare. f_equal.
  destruct (Z.compare_spec ex ey) as [He|He|He].
  - subst ey. rewrite Z.min_id, Z.sub_diag, Z.pow_0_r, !Z.mul_1_r.
    rewrite Pos.compare_cont_spec.
    assert (Hsw : ∀ c, Pos.switch_Eq Eq c = c) by (intros []; reflexivity).
    rewrite Hsw. destruct sx, sy; reflexivity.
  - replace (Z.min ey ex) with ex by lia.
    rewrite Z.sub_diag, Z.pow_0_r, Z.mul_1_r.
    pose proof (Hp (ey - ex) ltac:(lia)). specialize (Hny ltac:(lia)).
    destruct sx, sy; simpl cond_Zopp; symmetry.
    + apply Z.compare_gt_iff. nia.
    + apply Z.compare_lt_iff. nia.
    + apply Z.compare_gt_iff. nia.
    + apply Z.compare_lt_iff. nia.
  - replace (Z.min ey ex) with ey by lia.
    rewrite Z.sub_diag, Z.pow_0_r, Z.mul_1_r.
    pose proof (Hp (ex - ey) ltac:(lia)). specialize (Hnx ltac:(lia)).
    destruct sx, sy; simpl cond_Zopp; symmetry.
    + apply Z.compare_lt_iff. nia.
    + apply Z.compare_lt_iff. nia.
    + apply Z.compare_gt_iff. nia.
    + apply Z.compare_gt_iff. nia.
Qed.

(** *** Rounding a positive integer never gives zero *)

Lemma shr_1_m (mrs : shr_record) :
  0 <= shr_m mrs → shr_m (shr_1 mrs) = shr_m mrs / 2.
Proof.
  destruct mrs as [m r s]. simpl. intros Hm. rewrite <- Z.div2_div.
  destruct m as [|[p|p|]|p]; try reflexivity. lia.
Qed.

Lemma iter_shr_1_m (p : positive) : ∀ mrs : shr_record,
  0 <= shr_m mrs → shr_m (SpecFloat.iter_pos shr_1 p mrs) = shr_m mrs / 2 ^ Z.pos p.
Proof.
  assert (Hpos : ∀ k, 0 <= k → 0 < 2 ^ k)
    by (intros k Hk; apply Z.pow_pos_nonneg; lia).
  assert (Hdiv : ∀ a b, 0 <= a → 0 < b → 0 <= a / b)
    by (intros; now apply Z.div_pos).
  induction p as [p IH|p IH|]; intros mrs Hm; simpl SpecFloat.iter_pos.
  - pose proof (Hpos (Z.pos p) ltac:(lia)) as H2.
    assert (H0 : 0 <= shr_m (shr_1 mrs)) by (rewrite shr_1_m; auto with zarith).
    assert (H1 : 0 <= shr_m (SpecFloat.iter_pos shr_1 p (shr_1 mrs)))
      by (rewrite IH; auto).
    rewrite IH by exact H1. rewrite IH by exact H0. rewrite shr_1_m by exact Hm.
    rewrite !Z.div_div by lia. f_equal.
    replace (Z.pos p~1) with (1 + Z.pos p + Z.pos p) by lia.
    rewrite !Z.pow_add_r, Z.pow_1_r by lia. lia.
  - pose proof (Hpos (Z.pos p) ltac:(lia)) as H2.
    assert (H1 : 0 <= shr_m (SpecFloat.iter_pos shr_1 p mrs)) by (rewrite IH; auto).
    rewrite IH by exact H1. rewrite IH by exact Hm.
    rewrite !Z.div_div by lia. f_equal.
    replace (Z.pos p~0) with (Z.pos p + Z.pos p) by lia.
    rewrite !Z.pow_add_r by lia. lia.
  - rewrite shr_1_m by done. now rewrite Z.pow_1_r.
Qed.

Lemma shr_record_of_loc_m (m : Z) (l : location) : shr_m (shr_record_of_loc m l) = m.
Proof. now destruct l as [|[]]. Qed.

(** The first step of rounding keeps a positive mantissa positive, and the
    exponent above the minimum. *)
Lemma shr_fexp_positive (m e : Z) (l : location) :
  0 < m → emin64 <= e →
  0 < shr_m (fst (shr_fexp Num.prec Num.emax m e l))
  ∧ emin64 <= snd (shr_fexp Num.prec Num.emax m e l).
Proof.
  intros Hm He. unfold shr_fexp, shr, fexp. fold emin64. unfold Num.prec.
  destruct m as [|p|p]; try lia. simpl Zdigits2.
  pose proof (digits2_bounds p) as [Hlo _].
  set (d := Z.pos (digits2_pos p)) in *.
  destruct (Z.max (d + e - 53) emin64 - e) as [|k|k] eqn:Hk; simpl fst; simpl snd.
  - now rewrite shr_record_of_loc_m.
  - split; [|lia].
    rewrite iter_shr_1_m by (rewrite shr_record_of_loc_m; lia).
    rewrite shr_record_of_loc_m.
    assert (Hkd : Z.pos k = d - 53) by lia.
    apply Z.div_str_pos. split; [apply Z.pow_pos_nonneg; lia|].
    eapply Z.le_trans; [|exact Hlo].
    apply Z.pow_le_mono_r; lia.
  - now rewrite shr_record_of_loc_m.
Qed.

Lemma round_nearest_even_positive (m : Z) (l : location) :
  0 < m → 0 < round_nearest_even m l.
Proof.
  intros Hm. unfold round_nearest_even.
  destruct l as [|[]]; try destruct (Z.even m); lia.
Qed.

Lemma binary_round_aux_positive (m e : Z) (l : location) :
  0 < m → emin64 <= e →
  Num.is_pos (binary_round_aux Num.prec Num.emax false m e l) = true.
Proof.
  intros Hm He. unfold binary_round_aux.
  destruct (shr_fexp_positive m e l Hm He) as [H1 H1e].
  destruct (shr_fexp Num.prec Num.emax m e l) as [mrs1 e1]. simpl in H1, H1e.
  pose proof (round_nearest_even_positive (shr_m mrs1) (loc_of_shr_record mrs1) H1) as Hr.
  destruct (shr_fexp_positive _ e1 loc_Exact Hr H1e) as [H2 _].
  destruct (shr_fexp Num.prec Num.emax _ e1 loc_Exact) as [mrs2 e2]. simpl in H2.
  destruct (shr_m mrs2) as [|q|q]; try lia.
  now destruct (e2 <=? Num.emax - Num.prec).
Qed.

Lemma binary_round_positive (m : positive) (e : Z) :
  emin64 <= e → Num.is_pos (binary_round Num.prec Num.emax false m e) = true.
Proof.
  intros He. unfold binary_round, shl_align.
  destruct (fexp Num.prec Num.emax (Z.pos (digits2_pos m) + e) - e) as [|k|k] eqn:Hk.
  - apply binary_round_aux_positive; lia.
  - apply binary_round_aux_positive; lia.
  - apply binary_round_aux_positive; [lia|].
    unfold fexp. fold emin64. lia.
Qed.

(** Rounding with the sign bit set never gives a positive number. *)
Lemma binary_round_negative (m : positive) (e : Z) :
  Num.is_pos (binary_round Num.prec Num.emax true m e) = false.
Proof.
  unfold binary_round, binary_round_aux.
  destruct (shl_align _ _ _) as [mz ez].
  destruct (shr_fexp _ _ _ _ _) as [mrs1 e1].
  destruct (shr_fexp _ _ _ _ _) as [mrs2 e2].
  destruct (shr_m mrs2); try reflexivity.
  now destruct (e2 <=? Num.emax - Num.prec).
Qed.

(** The sign of a difference: [y - x > 0] exactly when [x < y]. *)
Lemma sub_positive_iff_lt (x y : Number) :
  ordinary x = true → ordinary y = true →
  Num.is_pos (Num.sub y x) = Num.ltb x y.
Proof.
  unfold ordinary, is_double. intros Hx Hy.
  apply andb_prop in Hx as [Hx Hxn]. apply andb_prop in Hy as [Hy Hyn].
  destruct x as [sx|sx| |sx mx ex], y as [sy|sy| |sy my ey];
    try discriminate; try (destruct sx, sy; reflexivity);
    try (destruct sx; reflexivity); try (destruct sy; reflexivity).
  simpl in Hx, Hy.
  unfold Num.ltb, SFltb. rewrite (compare_aligned _ _ _ _ _ _ Hx Hy).
  unfold Num.sub, SFsub. fold (aligned_mantissa sy my ey (Z.min ey ex)).
  fold (aligned_mantissa sx mx ex (Z.min ey ex)).
  destruct (bounded_mantissa _ _ Hx) as (Hex & _).
  destruct (bounded_mantissa _ _ Hy) as (Hey & _).
  set (X := aligned_mantissa sx mx ex (Z.min ey ex)).
  set (Y := aligned_mantissa sy my ey (Z.min ey ex)).
  unfold binary_normalize.
  destruct (Z.compare_spec X Y) as [He|He|He].
  - replace (Y - X) with 0 by lia. reflexivity.
  - destruct (Y - X) as [|d|d] eqn:Hd; try lia.
    apply binary_round_positive. lia.
  - destruct (Y - X) as [|d|d] eqn:Hd; try lia.
    apply binary_round_negative.
Qed.

(** *** The quotient of two numbers is in canonical form *)

Lemma Zdigits2_nonneg (m : Z) : 0 <= Zdigits2 m.
Proof. destruct m; simpl; lia. Qed.

Lemma Zdigits2_bounds (m : Z) :
  0 < m → 2 ^ (Zdigits2 m - 1) <= m < 2 ^ Zdigits2 m.
Proof. destruct m as [|p|p]; try lia. intros _. apply digits2_bounds. Qed.

Lemma Zdigits2_mono (a b : Z) : 0 <= a <= b → Zdigits2 a <= Zdigits2 b.
Proof.
  intros [Ha Hab]. destruct (Z.eq_dec a 0) as [->|Hne]; [apply Zdigits2_nonneg|].
  pose proof (Zdigits2_bounds a ltac:(lia)) as [Hlo _].
  pose proof (Zdigits2_bounds b ltac:(lia)) as [_ Hhi].
  destruct (Z_le_gt_dec (Zdigits2 a) (Zdigits2 b)) as [|Hgt]; [done|].
  pose proof (Z.pow_le_mono_r 2 (Zdigits2 b) (Zdigits2 a - 1) ltac:(lia) ltac:(lia)).
  lia.
Qed.

(** A number of at least [k] digits. *)
Lemma Zdigits2_lower (m k : Z) : 0 <= k → 2 ^ k <= m → k < Zdigits2 m.
Proof.
  intros Hk Hm. pose proof (Z.pow_pos_nonneg 2 k ltac:(lia) Hk).
  pose proof (Zdigits2_bounds m ltac:(lia)) as [_ Hhi].
  apply (Z.pow_lt_mono_r_iff 2); [lia|apply Zdigits2_nonneg|lia].
Qed.

Lemma Zdigits2_shift (m n : Z) :
  0 < m → 0 <= n < Zdigits2 m → Zdigits2 (m / 2 ^ n) = Zdigits2 m - n.
Proof.
  intros Hm Hn. pose proof (Zdigits2_bounds m Hm) as [Hlo Hhi].
  set (d := Zdigits2 m) in *.
  pose proof (Z.pow_pos_nonneg 2 n ltac:(lia) ltac:(lia)) as Hp.
  assert (Hq : 2 ^ (d - n - 1) <= m / 2 ^ n < 2 ^ (d - n)).
  { split.
    - apply Z.div_le_lower_bound; [done|].
      rewrite <- Z.pow_add_r by lia. replace (n + (d - n - 1)) with (d - 1) by lia. done.
    - apply Z.div_lt_upper_bound; [done|].
      rewrite <- Z.pow_add_r by lia. replace (n + (d - n)) with d by lia. done. }
  pose proof (Z.pow_pos_nonneg 2 (d - n - 1) ltac:(lia) ltac:(lia)).
  pose proof (Zdigits2_bounds (m / 2 ^ n) ltac:(lia)) as [Hlo' Hhi'].
  pose proof (Zdigits2_nonneg (m / 2 ^ n)).
  destruct (Z.lt_trichotomy (Zdigits2 (m / 2 ^ n)) (d - n)) as [Hlt|[Heq|Hgt]]; [|done|].
  - pose proof (Z.pow_le_mono_r 2 (Zdigits2 (m / 2 ^ n)) (d - n - 1) ltac:(lia) ltac:(lia)).
    lia.
  - pose proof (Z.pow_le_mono_r 2 (d - n) (Zdigits2 (m / 2 ^ n) - 1) ltac:(lia) ltac:(lia)).
    lia.
Qed.

Lemma shr_fexp_stage (m e : Z) (l : location) :
  0 <= m → e <= fexp Num.prec Num.emax (Zdigits2 m + e) →
  stage_ok (shr_m (fst (shr_fexp Num.prec Num.emax m e l)))
           (snd (shr_fexp Num.prec Num.emax m e l)).
Proof.
  intros Hm He. unfold stage_ok, shr_fexp, shr, fexp in *.
  fold emin64 in *. unfold Num.prec in *.
  set (d := Zdigits2 m) in *.
  pose proof (Zdigits2_nonneg m) as Hd. fold d in Hd.
  destruct (Z.max (d + e - 53) emin64 - e) as [|p|p] eqn:Hn; simpl fst; simpl snd;
    rewrite ?shr_record_of_loc_m; try lia.
  - destruct (Z.eq_dec m 0) as [->|Hne]; [left; simpl in *; lia|].
    right. fold d. lia.
  - rewrite iter_shr_1_m by (rewrite shr_record_of_loc_m; lia).
    rewrite shr_record_of_loc_m.
    pose proof (Z.pow_pos_nonneg 2 (Z.pos p) ltac:(lia) ltac:(lia)) as Hp.
    destruct (Z_lt_le_dec (Z.pos p) d) as [Hlt|Hge].
    + right. assert (0 < m) by (destruct m; simpl in *; lia).
      rewrite Zdigits2_shift by (fold d; lia). fold d. split; [|lia].
      pose proof (Zdigits2_bounds m ltac:(lia)) as [Hlo _]. fold d in Hlo.
      apply Z.div_str_pos. split; [done|].
      eapply Z.le_trans; [|exact Hlo]. apply Z.pow_le_mono_r; lia.
    + left. split; [|lia].
      destruct (Z.eq_dec m 0) as [->|Hne]; [reflexivity|].
      pose proof (Zdigits2_bounds m ltac:(lia)) as [_ Hhi]. fold d in Hhi.
      apply Z.div_small. split; [lia|].
      eapply Z.lt_le_trans; [exact Hhi|]. apply Z.pow_le_mono_r; lia.
Qed.

Lemma round_nearest_even_cases (m : Z) (l : location) :
  round_nearest_even m l = m ∨ round_nearest_even m l = m + 1.
Proof. unfold round_nearest_even. destruct l as [|[]]; try destruct (Z.even m); auto. Qed.

Lemma binary_round_aux_valid (sg : bool) (m e : Z) (l : location) :
  0 <= m → e <= fexp Num.prec Num.emax (Zdigits2 m + e) →
  is_double (binary_round_aux Num.prec Num.emax sg m e l) = true.
Proof.
  intros Hm He. unfold binary_round_aux.
  pose proof (shr_fexp_stage m e l Hm He) as H1.
  destruct (shr_fexp Num.prec Num.emax m e l) as [mrs1 e1]. simpl in H1.
  set (m2 := round_nearest_even (shr_m mrs1) (loc_of_shr_record mrs1)).
  assert (Hm2 : 0 <= m2 ∧ e1 <= fexp Num.prec Num.emax (Zdigits2 m2 + e1)).
  { pose proof (round_nearest_even_cases (shr_m mrs1) (loc_of_shr_record mrs1)) as Hr.
    fold m2 in Hr. destruct H1 as [[H0 Hemin]|[Hpos Hcan]].
    - rewrite H0 in Hr. split; [lia|]. unfold fexp. fold emin64. lia.
    - split; [lia|]. rewrite <- Hcan at 1. unfold fexp.
      pose proof (Zdigits2_mono (shr_m mrs1) m2 ltac:(lia)). lia. }
  destruct Hm2 as [Hm2 He2].
  pose proof (shr_fexp_stage m2 e1 loc_Exact Hm2 He2) as H2.
  destruct (shr_fexp Num.prec Num.emax m2 e1 loc_Exact) as [mrs2 e2]. simpl in H2.
  destruct (shr_m mrs2) as [|q|q] eqn:Hq; [reflexivity| |reflexivity].
  destruct (e2 <=? Num.emax - Num.prec) eqn:Hle; [|reflexivity].
  unfold is_double. simpl. unfold bounded, canonical_mantissa. rewrite Hle.
  destruct H2 as [[H0 _]|[_ Hcan]]; [discriminate|].
  simpl in Hcan. rewrite Hcan, Z.eqb_refl. reflexivity.
Qed.

Lemma div_valid (x y : Number) : is_double (Num.div x y) = true.
Proof.
  destruct x as [sx|sx| |sx mx ex], y as [sy|sy| |sy my ey]; try reflexivity.
  unfold Num.div, SFdiv, SFdiv_core_binary.
  set (d1 := Zdigits2 (Z.pos mx)). set (d2 := Zdigits2 (Z.pos my)).
  set (e' := Z.min (fexp Num.prec Num.emax (d1 + ex - (d2 + ey))) (ex - ey)).
  set (s := ex - ey - e').
  assert (Hs : 0 <= s) by (unfold s, e'; lia).
  set (m' := match s with Z.pos _ => Z.shiftl (Z.pos mx) s | 0 => Z.pos mx | Z.neg _ => 0 end).
  assert (Hm' : m' = Z.pos mx * 2 ^ s).
  { unfold m'. destruct s as [|p|p] eqn:Hsp; [simpl; lia| |lia].
    now rewrite Z.shiftl_mul_pow2 by lia. }
  pose proof (Z.div_eucl_eq m' (Z.pos my) ltac:(lia)) as Heq.
  pose proof (Z.mod_pos_bound m' (Z.pos my) ltac:(lia)) as Hmod.
  unfold Z.modulo in Hmod.
  destruct (Z.div_eucl m' (Z.pos my)) as [q r] eqn:Hqr.
  pose proof (Z.pow_pos_nonneg 2 s ltac:(lia) Hs) as Hps.
  assert (Hq0 : 0 <= q) by nia.
  apply binary_round_aux_valid; [done|].
  assert (Hdig : d1 + s - d2 <= Zdigits2 q).
  { destruct (Z_le_gt_dec (d1 + s - d2) 0) as [|Hk];
      [pose proof (Zdigits2_nonneg q); lia|].
    pose proof (digits2_bounds mx) as [Hlo1 _]. pose proof (digits2_bounds my) as [_ Hhi2].
    fold (Zdigits2 (Z.pos mx)) in Hlo1. fold d1 in Hlo1.
    fold (Zdigits2 (Z.pos my)) in Hhi2. fold d2 in Hhi2.
    assert (Hd2 : 0 < d2) by (unfold d2; simpl; lia).
    assert (Hd1 : 0 < d1) by (unfold d1; simpl; lia).
    assert (Hpow : 2 ^ (d1 - 1) * 2 ^ s = 2 ^ (d1 + s - d2 - 1) * 2 ^ d2).
    { rewrite <- !Z.pow_add_r by lia. f_equal. lia. }
    pose proof (Z.pow_pos_nonneg 2 (d1 + s - d2 - 1) ltac:(lia) ltac:(lia)).
    assert (Hqlo : 2 ^ (d1 + s - d2 - 1) <= q) by nia.
    pose proof (Zdigits2_lower q (d1 + s - d2 - 1) ltac:(lia) Hqlo). lia. }
  unfold e' at 1. eapply Z.le_trans; [apply Z.le_min_l|].
  unfold fexp. unfold s in Hdig. lia.
Qed.

(** *** The order of numbers other than NaN *)

Lemma key_compare_spec a b :
  CompareSpec (a = b) (key_lt a b) (key_lt b a) (key_compare a b).
Proof.
  destruct a as [[a1 a2] a3], b as [[b1 b2] b3]. unfold key_compare, key_lt. simpl.
  destruct (Z.compare_spec a1 b1); [|constructor; lia|constructor; lia].
  destruct (Z.compare_spec a2 b2); [|constructor; lia|constructor; lia].
  destruct (Z.compare_spec a3 b3); constructor; (congruence || lia).
Qed.

Lemma compare_key (x y : Number) :
  Num.is_nan x = false → Num.is_nan y = false →
  SFcompare x y = Some (key_compare (num_key x) (num_key y)).
Proof.
  intros Hx Hy.
  destruct x as [sx|sx| |sx mx ex], y as [sy|sy| |sy my ey]; try discriminate;
    try (destruct sx, sy; reflexivity); try (destruct sx; reflexivity);
    try (destruct sy; reflexivity).
  unfold SFcompare, key_compare. rewrite Pos.compare_cont_spec.
  assert (Hsw : ∀ c, Pos.switch_Eq Eq c = c) by (intros []; reflexivity).
  rewrite Hsw. f_equal. destruct sx, sy; simpl; try reflexivity.
  rewrite Z.compare_opp. rewrite (Z.compare_antisym ex ey).
  now destruct (ex ?= ey).
Qed.

Lemma ordinary_not_nan (x : Number) : ordinary x = true → Num.is_nan x = false.
Proof. unfold ordinary. intros H. apply andb_prop in H as [_ H]. now destruct (Num.is_nan x). Qed.

Lemma ltb_key (x y : Number) :
  Num.is_nan x = false → Num.is_nan y = false →
  (Num.ltb x y = true ↔ key_lt (num_key x) (num_key y)).
Proof.
  intros Hx Hy. unfold Num.ltb, SFltb. rewrite (compare_key x y Hx Hy).
  destruct (key_compare_spec (num_key x) (num_key y)) as [H|H|H]; split; try done.
  - rewrite H. unfold key_lt. lia.
  - unfold key_lt in *. lia.
Qed.

Lemma leb_key (x y : Number) :
  Num.is_nan x = false → Num.is_nan y = false →
  (Num.leb x y = true ↔ ¬ key_lt (num_key y) (num_key x)).
Proof.
  intros Hx Hy. unfold Num.leb, SFleb. rewrite (compare_key x y Hx Hy).
  destruct (key_compare_spec (num_key x) (num_key y)) as [H|H|H]; split; try done.
  - intros _. rewrite H. unfold key_lt. lia.
  - intros _. unfold key_lt in *. lia.
Qed.

Lemma strict_eq_key (x y : Number) :
  Num.is_nan x = false → Num.is_nan y = false →
  (Num.strict_eq x y = true ↔ num_key x = num_key y).
Proof.
  intros Hx Hy. unfold Num.strict_eq, SFeqb. rewrite (compare_key x y Hx Hy).
  destruct (key_compare_spec (num_key x) (num_key y)) as [H|H|H]; split; try done.
  - intros E. rewrite E in H. unfold key_lt in H. lia.
  - intros E. rewrite E in H. unfold key_lt in H. lia.
Qed.

Lemma strict_eq_not_nan (x y : Number) :
  Num.strict_eq x y = true → Num.is_nan x = false ∧ Num.is_nan y = false.
Proof. destruct x, y; try discriminate; done. Qed.

End NumOrder.

(** ** Ranking the plotted words by similarity *)

Lemma StronglySorted_lookup {A} (R : A → A → Prop) (l : list A) (i j : nat) (u w : A) :
  StronglySorted R l → i < j → l !! i = Some u → l !! j = Some w → R u w.
Proof.
  intros Hs. revert i j. induction Hs as [|x l Hs IH Hx]; intros i j Hij Hi Hj.
  - discriminate.
  - destruct j as [|j]; [lia|]. simpl in Hj. destruct i as [|i].
    + injection Hi as <-. rewrite Forall_forall in Hx. apply Hx.
      eapply list_elem_of_lookup_2, Hj.
    + simpl in Hi. apply (IH i j); [lia|done..].
Qed.

Lemma filter_take_prefix {A} (P : A → Prop) `{∀ x, Decision (P x)} (n : nat) (l : list A) :
  filter P (take n l) `prefix_of` filter P l.
Proof.
  exists (filter P (drop n l)). rewrite <- filter_app. now rewrite take_drop.
Qed.

Section Ranking.

Implicit Types (c a b x y : string * Number) (l : list (string * Number)).

Lemma sort_insert_perm {A} (cmp : A → A → Number) (x : A) (l : list A) :
  sort_insert cmp x l ≡ₚ x :: l.
Proof.
  induction l as [|y l IH]; simpl; [done|].
  destruct (Num.is_pos (cmp x y)); [|done].
  rewrite IH. apply Permutation_swap.
Qed.

Lemma js_sort_perm {A} (cmp : A → A → Number) (l : list A) : js_sort cmp l ≡ₚ l.
Proof.
  induction l as [|x l IH]; simpl; [done|].
  unfold js_sort in *. simpl. rewrite sort_insert_perm. now rewrite IH.
Qed.

(** On proper scores the test of the sort is a comparison of the scores. *)
Lemma comparator_positive x y :
  scored_ok x → scored_ok y →
  Num.is_pos (by_score_desc x y) = Num.ltb x.2 y.2.
Proof. intros Hx Hy. unfold by_score_desc. now apply sub_positive_iff_lt. Qed.

Lemma before_of_lt x y : scored_ok x → scored_ok y → Num.ltb x.2 y.2 = true → before y x.
Proof.
  intros Hx Hy H. unfold before.
  apply ordinary_not_nan in Hx, Hy.
  apply ltb_key in H; [|done..]. apply leb_key; [done..|].
  unfold key_lt in *. lia.
Qed.

Lemma before_of_not_lt x y : scored_ok x → scored_ok y → Num.ltb x.2 y.2 = false → before x y.
Proof.
  intros Hx Hy H. unfold before.
  apply ordinary_not_nan in Hx, Hy.
  apply leb_key; [done..|]. intros Hlt.
  apply ltb_key in Hlt; [|done..]. congruence.
Qed.

Lemma before_trans x y z :
  scored_ok x → scored_ok y → scored_ok z → before x y → before y z → before x z.
Proof.
  unfold before. intros Hx Hy Hz H1 H2.
  apply ordinary_not_nan in Hx, Hy, Hz.
  apply leb_key in H1, H2; [|done..]. apply leb_key; [done..|].
  unfold key_lt in *. lia.
Qed.

Lemma tie_excluded_by_lt v x y :
  scored_ok x → scored_ok y → Num.ltb x.2 y.2 = true → tie v x → ¬ tie v y.
Proof.
  unfold tie. intros Hx Hy Hlt Hvx Hvy.
  apply ordinary_not_nan in Hx, Hy.
  destruct (strict_eq_not_nan _ _ Hvx) as [_ Hv].
  apply strict_eq_key in Hvx, Hvy; [|done..].
  apply ltb_key in Hlt; [|done..].
  rewrite Hvx, Hvy in Hlt. unfold key_lt in Hlt. lia.
Qed.

Lemma sort_insert_sorted x l :
  scored_ok x → Forall scored_ok l → StronglySorted before l →
  StronglySorted before (sort_insert by_score_desc x l).
Proof.
  intros Hx Hl Hs. induction Hs as [|y l Hs IH Hy]; simpl.
  - repeat constructor.
  - inversion Hl as [|? ? Hoy Hol]; subst.
    rewrite comparator_positive by done.
    destruct (Num.ltb x.2 y.2) eqn:Hlt.
    + constructor; [now apply IH|].
      rewrite sort_insert_perm. constructor; [|done].
      now apply before_of_lt.
    + pose proof (before_of_not_lt x y Hx Hoy Hlt) as Hxy.
      constructor; [now constructor|]. constructor; [done|].
      rewrite Forall_forall in *. intros z Hz.
      apply (before_trans x y z); auto.
Qed.

Lemma js_sort_sorted l :
  Forall scored_ok l → StronglySorted before (js_sort by_score_desc l).
Proof.
  induction l as [|x l IH]; intros Hl; [constructor|].
  inversion Hl; subst. unfold js_sort in *. simpl.
  apply sort_insert_sorted; [done| |now apply IH].
  fold (js_sort by_score_desc l). now rewrite js_sort_perm.
Qed.

(** Insertion puts an entry in front of the entries that tie with it. *)
Lemma sort_insert_ties v x l :
  scored_ok x → Forall scored_ok l →
  filter (tie v) (sort_insert by_score_desc x l) = filter (tie v) (x :: l).
Proof.
  intros Hx Hl. induction Hl as [|y l Hy Hl IH]; simpl; [done|].
  rewrite comparator_positive by done.
  destruct (Num.ltb x.2 y.2) eqn:Hlt; [|done].
  rewrite filter_cons, IH. rewrite !(filter_cons _ x), (filter_cons _ y).
  destruct (decide (tie v x)) as [Hvx|Hvx]; [|done].
  destruct (decide (tie v y)) as [Hvy|Hvy]; [|done].
  exfalso. now apply (tie_excluded_by_lt v x y Hx Hy Hlt Hvx).
Qed.

Lemma js_sort_ties v l :
  Forall scored_ok l → filter (tie v) (js_sort by_score_desc l) = filter (tie v) l.
Proof.
  induction l as [|x l IH]; intros Hl; [done|].
  inversion Hl; subst. unfold js_sort in *. simpl.
  rewrite sort_insert_ties; [|done|].
  - rewrite !filter_cons. now rewrite IH.
  - fold (js_sort by_score_desc l). now rewrite js_sort_perm.
Qed.

End Ranking.

Lemma scored_lazy_eq v wti word idx pool :
  scored_lazy v wti word idx pool = scored_v1 v wti word idx pool.
Proof.
  unfold scored_lazy, scored_v1. induction pool as [|w pool IH]; [done|].
  rewrite !filter_cons.
  destruct (decide (w ≠ word)) as [Hw|Hw].
  - destruct (wti !! w) as [j|] eqn:Hj.
    + rewrite decide_True by (split; [done|by eexists]). simpl.
      rewrite Hj. simpl. now rewrite IH.
    + rewrite decide_False by (intros [_ [? ?]]; congruence). simpl.
      now rewrite Hj.
  - rewrite decide_False by tauto. exact IH.
Qed.

(** Every similarity is a binary64 value: zero, or a quotient. *)
Lemma cosine_valid v i j : is_double (cosineSimByIndex v i j) = true.
Proof.
  unfold cosineSimByIndex. destruct (cos_sums v i j) as [[dot ni] nj].
  destruct (_ || _); [reflexivity|apply div_valid].
Qed.

Lemma scored_entry_ok (w : string) (x : Number) :
  is_double x = true → score_is_number (w, x) → scored_ok (w, x).
Proof.
  unfold score_is_number, scored_ok, ordinary. cbn [snd]. now intros -> ->.
Qed.

Lemma scored_numbers_ok v wti word idx pool :
  Forall score_is_number (scored_v1 v wti word idx pool) →
  Forall scored_ok (scored_v1 v wti word idx pool).
Proof.
  intros Hnum. apply Forall_forall. intros c Hc.
  rewrite Forall_forall in Hnum. specialize (Hnum c Hc).
  unfold scored_v1 in Hc. apply list_elem_of_omap in Hc as (w & _ & Hw).
  destruct (wti !! w) as [j|]; [|discriminate].
  injection Hw as <-. exact (scored_entry_ok _ _ (cosine_valid v idx j) Hnum).
Qed.

Lemma scored_words v wti word idx pool :
  map fst (scored_v1 v wti word idx pool)
  = filter (fun w => w ≠ word ∧ is_Some (wti !! w)) pool.
Proof.
  rewrite <- scored_lazy_eq. unfold scored_lazy. rewrite map_map. simpl.
  apply map_id.
Qed.



(** ** Further properties of the similarity *)

Lemma mul_comm (x y : Number) : Num.mul x y = Num.mul y x.
Proof.
  destruct x as [sx|sx| |sx mx ex], y as [sy|sy| |sy my ey]; unfold Num.mul, SFmul;
    rewrite ?(xorb_comm sx sy), ?(Pos.mul_comm mx my), ?(Z.add_comm ex ey);
    reflexivity.
Qed.

Lemma dot_at_comm vd a b : dot_at vd a b = dot_at vd b a.
Proof.
  unfold dot_at. generalize Num.zero. generalize (seq 0 SIM_D).
  intros ks. induction ks as [|k ks IH]; intros acc; [done|].
  cbn [fold_left]. rewrite (mul_comm (elem vd (a + k))). apply IH.
Qed.

Lemma cosine_comm (vd : list Number) (i j : nat) :
  cosineSimByIndex vd i j = cosineSimByIndex vd j i.
Proof.
  unfold cosineSimByIndex. rewrite !cos_sums_eq. cbv beta iota.
  rewrite (dot_at_comm vd (j * SIM_D)), orb_comm.
  now rewrite (mul_comm (Num.sqrt (sq_norm_at vd (j * SIM_D)))).
Qed.

(** X1. The similarity is symmetric in its two indices, bit for bit. *)
Theorem similarity_is_symmetric (vd : list Number) (i j : nat) :
  cosineSimByIndex vd i j = cosineSimByIndex vd j i.
Proof.
  unfold cosineSimByIndex. rewrite !cos_sums_eq. cbv beta iota.
  rewrite (dot_at_comm vd (j * SIM_D)), orb_comm.
  now rewrite (mul_comm (Num.sqrt (sq_norm_at vd (j * SIM_D)))).
Qed.

(** *** NaN in the sums *)

Lemma add_nan_r (x : Number) : Num.add x Num.NaN = Num.NaN.
Proof. now destruct x. Qed.

Lemma sum_from_nan (f : nat → Number) (ks : list nat) :
  fold_left (fun acc k => Num.add acc (f k)) ks Num.NaN = Num.NaN.
Proof. induction ks as [|k ks IH]; [done|]. exact IH. Qed.

Lemma sum_hits_nan (f : nat → Number) (ks : list nat) (acc : Number) (k : nat) :
  k ∈ ks → f k = Num.NaN →
  fold_left (fun acc k => Num.add acc (f k)) ks acc = Num.NaN.
Proof.
  intros Hk Hf. revert acc. induction ks as [|x ks IH]; intros acc.
  - now apply elem_of_nil in Hk.
  - cbn [fold_left]. destruct (decide (x = k)) as [->|Hne].
    + rewrite Hf, add_nan_r. apply sum_from_nan.
    + apply IH. apply elem_of_cons in Hk as [Hk|Hk]; [congruence|done].
Qed.

Lemma sq_norm_NaN vd i : reads_NaN vd i → sq_norm_at vd (i * SIM_D) = Num.NaN.
Proof.
  intros (k & Hk & He). unfold sq_norm_at.
  apply (sum_hits_nan (fun k => Num.mul (elem vd (i * SIM_D + k))
                                        (elem vd (i * SIM_D + k))) _ _ k).
  - apply elem_of_seq. lia.
  - now rewrite He.
Qed.

Lemma dot_NaN vd i j : reads_NaN vd i → dot_at vd (i * SIM_D) (j * SIM_D) = Num.NaN.
Proof.
  intros (k & Hk & He). unfold dot_at.
  apply (sum_hits_nan (fun k => Num.mul (elem vd (i * SIM_D + k))
                                        (elem vd (j * SIM_D + k))) _ _ k).
  - apply elem_of_seq. lia.
  - now rewrite He.
Qed.

Lemma past_table_reads_NaN vd i : ¬ in_table vd i → reads_NaN vd i.
Proof.
  unfold in_table, reads_NaN, SIM_D. intros H. exists 49. split; [lia|].
  unfold elem. rewrite lookup_ge_None_2; [done|lia].
Qed.

Lemma cosine_poisoned vd i j : reads_NaN vd i → cosineSimByIndex vd i j = poisoned vd j.
Proof.
  intros H. unfold cosineSimByIndex, poisoned. rewrite cos_sums_eq. cbv beta iota.
  rewrite (sq_norm_NaN _ _ H), (dot_NaN _ _ j H).
  change (Num.strict_eq Num.NaN Num.zero) with false. rewrite orb_false_l.
  now destruct (Num.strict_eq _ _).
Qed.

(** X2. A vector that reaches past the end of the table, or holds a NaN,
    does not make [cosineSimByIndex] fail: against a vector of norm zero the
    result is still [0], and against every other vector it is NaN, on
    whichever side the index is passed. *)
Theorem similarity_of_a_vector_with_NaN (vd : list Number) (i j : nat) :
  (¬ in_table vd i → reads_NaN vd i)
  ∧ (reads_NaN vd i →
       cosineSimByIndex vd i j = poisoned vd j
       ∧ cosineSimByIndex vd j i = poisoned vd j).
Proof.
  split; [apply past_table_reads_NaN|]. intros H.
  split; [|rewrite cosine_comm]; now apply cosine_poisoned.
Qed.

(** ** The index of the vocabulary *)

Lemma index_map_snoc (l : list string) (x : string) :
  index_map (l ++ [x]) = <[x := length l]> (index_map l).
Proof.
  unfold index_map. rewrite imap_app, fold_left_app. simpl.
  now rewrite Nat.add_0_r.
Qed.

Lemma index_map_lookup (v : list string) (w : string) (i : nat) :
  index_map v !! w = Some i ↔ v !! i = Some w ∧ ∀ j, i < j → v !! j ≠ Some w.
Proof.
  revert i. induction v as [|x l IH] using rev_ind; intros i.
  - unfold index_map. simpl. rewrite lookup_empty. split; [done|]. now intros [H _].
  - rewrite index_map_snoc. destruct (decide (x = w)) as [->|Hne].
    + rewrite lookup_insert_eq. split.
      * intros [= <-]. split.
        { rewrite lookup_app_r, Nat.sub_diag by lia. done. }
        intros j Hj. rewrite lookup_ge_None_2; [done|]. rewrite length_app. simpl. lia.
      * intros [Hi Hlast]. f_equal. destruct (decide (i = length l)) as [|Hn]; [done|].
        exfalso. apply (Hlast (length l)).
        { apply lookup_lt_Some in Hi. rewrite length_app in Hi. simpl in Hi. lia. }
        rewrite lookup_app_r, Nat.sub_diag by lia. done.
    + rewrite lookup_insert_ne by done. rewrite IH. split.
      * intros [Hi Hlast]. split.
        { rewrite lookup_app_l; [done|]. by eapply lookup_lt_Some. }
        intros j Hj Hw. apply lookup_app_Some in Hw as [Hw|[Hge Hw]].
        { by apply (Hlast j). }
        apply list_lookup_singleton_Some in Hw as [_ ?]. congruence.
      * intros [Hi Hlast]. apply lookup_app_Some in Hi as [Hi|[Hge Hi]].
        -- split; [done|]. intros j Hj Hw. apply (Hlast j Hj).
           rewrite lookup_app_l; [done|]. by eapply lookup_lt_Some.
        -- apply list_lookup_singleton_Some in Hi as [_ ?]. congruence.
Qed.

Lemma index_map_elem (v : list string) (w : string) :
  is_Some (index_map v !! w) ↔ w ∈ v.
Proof.
  induction v as [|x l IH] using rev_ind.
  - unfold index_map. simpl. rewrite lookup_empty. split; [by intros [? ?]|].
    intros H. now apply elem_of_nil in H.
  - rewrite index_map_snoc, elem_of_app, list_elem_of_singleton.
    destruct (decide (x = w)) as [->|Hne].
    + rewrite lookup_insert_eq. split; [by right|by eexists].
    + rewrite lookup_insert_ne by done. rewrite IH. split; [by left|].
      intros [?|?]; [done|congruence].
Qed.

Lemma index_map_bound (v : list string) (w : string) (i : nat) :
  index_map v !! w = Some i → i < length v.
Proof. intros H. apply index_map_lookup in H as [H _]. by eapply lookup_lt_Some. Qed.

(** X3. [new Map(vocab.map((w, i) => [w, i]))]: a word has an index exactly
    when it occurs in the vocabulary, its index is the position of its last
    occurrence, and in a vocabulary without repetition looking up the word
    at a position gives that position back. *)
Theorem index_is_last_occurrence (v : list string) (w : string) :
  (is_Some (index_map v !! w) ↔ w ∈ v)
  ∧ (∀ i, index_map v !! w = Some i ↔
            v !! i = Some w ∧ ∀ j, i < j → v !! j ≠ Some w)
  ∧ (NoDup v → ∀ i, v !! i = Some w → index_map v !! w = Some i).
Proof.
  split_and!.
  - apply index_map_elem.
  - apply index_map_lookup.
  - intros Hnd i Hi. apply index_map_lookup. split; [done|].
    intros j Hj Hw. pose proof (NoDup_lookup _ _ _ _ Hnd Hi Hw). lia.
Qed.

(** ** The loaded tables fit *)

Lemma fits_of_bound (v : list string) (vd : list Number) :
  ¬ length vd ≠ length v * SIM_D →
  ∀ w i, index_map v !! w = Some i → in_table vd i.
Proof.
  intros Hl w i Hw. apply index_map_bound in Hw. unfold in_table.
  assert (length vd = length v * SIM_D) as -> by lia.
  apply Nat.mul_le_mono_r. lia.
Qed.

Ltac load_fits :=
  let s := fresh "s" in
  let Hs := fresh "Hs" in
  intros s Hs; m_unfold;
  destruct (simLoaded s) eqn:?; simpl; [intros _; now apply Hs|];
  (destruct (net_vocab _) as [?v|]; simpl; [|intros ?; simpl in *; congruence]);
  (destruct (net_vec _) as [?buf|]; simpl; [|intros ?; simpl in *; congruence]);
  (destruct (Float32.view _) as [?vd|]; simpl; [|intros ?; simpl in *; congruence]);
  case_bool_decide; simpl; [intros ?; simpl in *; congruence|];
  intros _; eexists; split; [reflexivity|]; simpl;
  now apply fits_of_bound.

Lemma V2_ensureSimModel_fits net : preserves model_in_range (V2.ensureSimModel net).
Proof. unfold V2.ensureSimModel, model_in_range, tables_fit. load_fits. Qed.

Lemma V3_ensureSimModel_fits net : preserves model_in_range (V3.ensureSimModel net).
Proof. unfold V3.ensureSimModel, model_in_range, tables_fit. load_fits. Qed.

Lemma V4_ensureSimModelLoaded_fits net :
  preserves model_in_range (V4.ensureSimModelLoaded net).
Proof. unfold V4.ensureSimModelLoaded, model_in_range, tables_fit. load_fits. Qed.

Ltac fits_side :=
  intros; unfold model_in_range, tables_fit in *; simpl in *; assumption.

Lemma model_in_range_handler v ev :
  v ≠ Eager → preserves model_in_range (handler v ev).
Proof.
  intros Hv.
  destruct ev as [net|net text pf uo|net idx], v; try done; simpl;
    unfold V4.init, V2.run, V3.run, V4.run,
      V2.plotly_click, V3.plotly_click, V4.plotly_click,
      V2.showSimilar, V3.showSimilar, V4.showSimilar,
      V2.rank_and_show, V4.loadTokenizer, V2.ensureLibsAndTokenizer, V2.ensureCoords,
      V3.ensurePlotly, V3.ensureTokenizer,
      V3.buildTokenizerWithTimeout, V3.ensureCoords, V4.ensureCoordsLoaded;
    preserves_with fits_side;
    lazymatch goal with
    | |- preserves _ (V2.ensureSimModel _) => apply V2_ensureSimModel_fits
    | |- preserves _ (V3.ensureSimModel _) => apply V3_ensureSimModel_fits
    | |- preserves _ (V4.ensureSimModelLoaded _) => apply V4_ensureSimModelLoaded_fits
    end.
Qed.

Lemma V1_load_fits net s :
  returns (V1.loadVocabAndVec net s) = true →
  tables_fit (final_state (V1.loadVocabAndVec net s)).
Proof.
  unfold V1.loadVocabAndVec, tables_fit. m_unfold.
  destruct (net_vocab net) as [v|]; simpl; [|done].
  destruct (net_vec net) as [buf|]; simpl; [|done].
  destruct (Float32.view buf) as [vd|]; simpl; [|done].
  case_bool_decide; simpl; [done|]. intros _. eexists. split; [reflexivity|].
  simpl. now apply fits_of_bound.
Qed.

(** X4. Once the similarity model is marked loaded, every index of the word
    table addresses [SIM_D] elements inside the vector table, through every
    session of the lazy variants; the same holds after [loadVocabAndVec] has
    returned.  Such an index is read without leaving the table. *)
Theorem loaded_model_reads_inside_the_table :
  (∀ v evs s, v ≠ Eager → model_in_range s → model_in_range (session v evs s))
  ∧ (∀ v evs, v ≠ Eager → model_in_range (session v evs (initial v)))
  ∧ (∀ net s, returns (V1.loadVocabAndVec net s) = true →
              tables_fit (final_state (V1.loadVocabAndVec net s)))
  ∧ (∀ vd i k, in_table vd i → k < SIM_D →
               vd !! (i * SIM_D + k) = Some (elem vd (i * SIM_D + k))).
Proof.
  assert (Hsess : ∀ v evs s, v ≠ Eager → model_in_range s →
                             model_in_range (session v evs s)).
  { intros v evs s Hv. revert s. induction evs as [|ev evs IH]; intros s Hs; [done|].
    simpl. apply IH. unfold step. apply preserves_final; [|done].
    now apply model_in_range_handler. }
  split_and!.
  - exact Hsess.
  - intros v evs Hv. apply Hsess; [done|]. intros H. now destruct v.
  - apply V1_load_fits.
  - intros vd i k Hi Hk. unfold in_table in Hi. unfold elem.
    destruct (lookup_lt_is_Some_2 vd (i * SIM_D + k)) as [x ->]; [lia|done].
Qed.

(** ** Handlers that settle *)

Lemma settles_ret {A} (a : A) : settles (mret a).
Proof. intros s. exact I. Qed.

Lemma settles_throw {A} (e : Error) : settles (throw (A:=A) e).
Proof. intros s. exact I. Qed.

Lemma settles_get : settles get.
Proof. intros s. exact I. Qed.

Lemma settles_modify (f : State → State) : settles (modify f).
Proof. intros s. exact I. Qed.

Lemma settles_bind {A B} (m : M A) (f : A → M B) :
  settles m → (∀ a, settles (f a)) → settles (m ≫= f).
Proof.
  intros Hm Hf s. specialize (Hm s). unfold mbind, M_bind.
  destruct (m s) as [a s'|e s'|s']; [apply Hf|done|done].
Qed.

Lemma settles_try_catch {A} (body : M A) (handler : Error → M A) :
  settles body → (∀ e, settles (handler e)) → settles (try_catch body handler).
Proof.
  intros Hb Hh s. specialize (Hb s). unfold try_catch.
  destruct (body s) as [a s'|e s'|s']; [done|apply Hh|done].
Qed.

Lemma settles_try_finally {A} (body : M A) (cleanup : State → State) :
  settles body → settles (try_finally body cleanup).
Proof.
  intros Hb s. specialize (Hb s). unfold try_finally. now destruct (body s).
Qed.

Lemma settles_fetch {A} (a : Asset) (body : option A) : settles (fetch a body).
Proof. intros s. unfold fetch. now destruct body. Qed.

Lemma settles_race_timeout {A} (m : M A) : settles (V3.race_timeout m).
Proof. intros s. unfold V3.race_timeout. now destruct (m s). Qed.

Ltac settles_step :=
  lazymatch goal with
  | |- settles (mret _) => apply settles_ret
  | |- settles (throw _) => apply settles_throw
  | |- settles get => apply settles_get
  | |- settles (mbind _ _) => apply settles_bind; [|intros ?]
  | |- settles (modify _) => apply settles_modify
  | |- settles (setStatus _) => apply settles_modify
  | |- settles (alert _) => apply settles_modify
  | |- settles (fetch _ _) => apply settles_fetch
  | |- settles (new_Float32Array _) => unfold new_Float32Array
  | |- settles (renderPlot _ _) => unfold renderPlot
  | |- settles (tokenize _ _) => unfold tokenize
  | |- settles (loadScriptOnce _ _) => unfold loadScriptOnce
  | |- settles (V3.race_timeout _) => apply settles_race_timeout
  | |- settles (try_catch _ _) => apply settles_try_catch; [|intros ?]
  | |- settles (try_finally _ _) => apply settles_try_finally
  | |- settles (if ?b then _ else _) => destruct b
  | |- settles (match ?x with _ => _ end) => destruct x
  end.

Ltac settles_all := repeat settles_step.

Ltac alerts_side := intros; simpl in *; assumption.

(** X5. [run] of the third variant always comes back: it never rejects and,
    requests and script loads being settled one way or the other, the
    deadline on the tokenizer build keeps it from staying suspended.  For a
    text that is not empty it ends with the run button enabled, and either
    no alert was raised or exactly one, carrying the error caught, with the
    status line set to the error message. *)
Theorem V3_run_always_returns net text pf uo s :
  ∃ s', V3.run net text pf uo s = Ok tt s'
        ∧ (text ≠ "" →
           run_disabled s' = false
           ∧ (alerts s' = alerts s
              ∨ ∃ e, alerts s' = alerts s ++ [AlertError e] ∧ status s' = MSG_ERROR)).
Proof.
  unfold V3.run. destruct (text =? "")%string eqn:Ht.
  { eexists. split; [reflexivity|]. intros H. now apply String.eqb_eq in Ht. }
  step_ok.
  match goal with |- context [try_catch ?b ?h] => set (body := b) end.
  assert (Hset : settles body).
  { unfold body, V3.ensurePlotly, V3.ensureTokenizer, V3.buildTokenizerWithTimeout,
      V3.ensureCoords. settles_all. }
  assert (Hal : preserves (fun s1 => alerts s1 = alerts s) body).
  { unfold body, V3.ensurePlotly, V3.ensureTokenizer, V3.buildTokenizerWithTimeout,
      V3.ensureCoords. preserves_with alerts_side. }
  specialize (Hset (set_run_disabled true s)).
  specialize (Hal (set_run_disabled true s) eq_refl).
  unfold try_finally, try_catch.
  destruct (body (set_run_disabled true s)) as [[] s1|e s1|s1]; [| |done].
  - eexists. split; [reflexivity|]. intros _. split; [reflexivity|]. now left.
  - eexists. split; [reflexivity|]. intros _. split; [reflexivity|]. right.
    exists e. simpl. now rewrite Hal.
Qed.

(** ** The second variant can wait for ever *)

Lemma V2_ensureLibs_pending net s s' :
  V2.ensureLibsAndTokenizer net s = Pending s' →
  net_build net = BuildHangs ∧ tokenizer s' = None
  ∧ run_disabled s' = run_disabled s.
Proof.
  unfold V2.ensureLibsAndTokenizer, loadScriptOnce, build_tokenizer. m_unfold.
  case_bool_decide as Htk; simpl; [done|].
  assert (tokenizer s = None) as Hnone.
  { destruct (tokenizer s); [|done]. exfalso. apply Htk. by eexists. }
  repeat (case_bool_decide; simpl); repeat (destruct (net_script net _); simpl);
    repeat (case_bool_decide; simpl); try done;
    destruct (net_build net); simpl; try done; intros [= <-]; simpl; done.
Qed.

Lemma bind_pending_inv {A B} (m : M A) (f : A → M B) s s' :
  (m ≫= f) s = Pending s' →
  m s = Pending s' ∨ ∃ a s1, m s = Ok a s1 ∧ f a s1 = Pending s'.
Proof.
  unfold mbind, M_bind. destruct (m s) as [a s1|e s1|s1]; [eauto|done|].
  intros [= <-]. now left.
Qed.

Lemma disabled_run_click_is_ignored v net text pf uo s :
  run_disabled s = true → handler v (RunClick net text pf uo) s = Ok tt s.
Proof. intros H. simpl. m_unfold. now rewrite H. Qed.

(** X6. [run] of the second variant never rejects, and when it returns for
    a text that is not empty the run button is enabled again.  It stays
    suspended only when the tokenizer build never calls back; the button is
    then left disabled, no tokenizer is set, and every later click on the
    button is ignored. *)
Theorem V2_run_hangs_only_in_the_build net text pf uo s :
  throws (V2.run net text pf uo s) = false
  ∧ (∀ s', V2.run net text pf uo s = Ok tt s' → text ≠ "" → run_disabled s' = false)
  ∧ (∀ s', V2.run net text pf uo s = Pending s' →
        net_build net = BuildHangs ∧ tokenizer s' = None ∧ run_disabled s' = true
        ∧ ∀ net' text' pf' uo',
            handler Lazy2 (RunClick net' text' pf' uo') s' = Ok tt s')
  ∧ (net_build net ≠ BuildHangs → returns (V2.run net text pf uo s) = true).
Proof.
  unfold V2.run. destruct (text =? "")%string eqn:Ht.
  { apply String.eqb_eq in Ht. split_and!; [done| |done|done]. intros; done. }
  step_ok.
  match goal with |- context [try_catch ?b ?h] => set (body := b) end.
  unfold try_finally, try_catch.
  destruct (body (set_run_disabled true s)) as [[] s1|e s1|s1] eqn:Hb.
  - split_and!; [done| |done|done]. now intros s' [= <-] _.
  - split_and!; [done| |done|done]. now intros s' [= <-] _.
  - unfold body in Hb. apply bind_pending_inv in Hb as [Hb|(a & s2 & _ & Hb)].
    + apply V2_ensureLibs_pending in Hb as (Hh & Htk & Hd). simpl in Hd.
      split_and!; [done|done| |done].
      intros s' [= <-]. split_and!; [done..|].
      intros. now apply disabled_run_click_is_ignored.
    + exfalso. revert Hb.
      match goal with |- ?m s2 = _ → _ => assert (Hs : settles m) end.
      { unfold V2.ensureCoords. settles_all. }
      intros Hb. specialize (Hs s2). now rewrite Hb in Hs.
Qed.

Lemma V2_run_hangs_only_in_the_build_witness :
  ∃ s', V2.run net_hang "猫と犬" true false (initial Lazy2) = Pending s'
        ∧ run_disabled s' = true
        ∧ handler Lazy2 (RunClick Demo.net_ok "猫と犬" true false) s' = Ok tt s'.
Proof.
  assert (Hex : ∃ s', V2.run net_hang "猫と犬" true false (initial Lazy2) = Pending s')
    by (vm_compute; eexists; reflexivity).
  destruct Hex as [s' Hs'].
  destruct (V2_run_hangs_only_in_the_build net_hang "猫と犬" true false (initial Lazy2))
    as (_ & _ & H & _).
  destruct (H s' Hs') as (_ & _ & Hd & Hign).
  exact (ex_intro _ s' (conj Hs' (conj Hd (Hign Demo.net_ok "猫と犬" true false)))).
Defined.

(** ** A failed request in the fourth variant *)

(** X7. In the fourth variant [run] has no [try]: when the request for
    [coords.csv] fails, [run] rejects with that error after it has disabled
    the run button, which nothing enables again; the plotted words stay as
    they were and every later click on the button is ignored. *)
Theorem V4_run_failed_fetch_disables_the_button net text pf uo s tk :
  text ≠ "" → tokenizer s = Some tk → coordsLoaded s = false →
  net_coords net = None →
  ∃ s', V4.run net text pf uo s = Throw (FetchFailed COORDS_CSV) s'
        ∧ run_disabled s' = true ∧ coordsLoaded s' = false
        ∧ currentWords s' = currentWords s ∧ plot s' = plot s
        ∧ ∀ net' text' pf' uo',
            handler Lazy4 (RunClick net' text' pf' uo') s' = Ok tt s'.
Proof.
  intros Ht Htk Hc Hn. unfold V4.run. apply String.eqb_neq in Ht. rewrite Ht.
  do 2 step_ok. erewrite bind_ok by (apply tokenize_ok; exact Htk).
  erewrite bind_throw.
  2:{ unfold V4.ensureCoordsLoaded. m_unfold. simpl. rewrite Hc, Hn. reflexivity. }
  eexists. split; [reflexivity|]. simpl. split_and!; done.
Qed.

Lemma V4_run_failed_fetch_disables_the_button_witness :
  ∃ s', V4.run Demo.net_down "猫と犬" true false V4_ready
        = Throw (FetchFailed COORDS_CSV) s'
        ∧ run_disabled s' = true ∧ coordsLoaded s' = false
        ∧ currentWords s' = currentWords V4_ready ∧ plot s' = plot V4_ready
        ∧ ∀ net' text' pf' uo',
            handler Lazy4 (RunClick net' text' pf' uo') s' = Ok tt s'.
Proof.
  apply (V4_run_failed_fetch_disables_the_button
           Demo.net_down "猫と犬" true false V4_ready Demo.tk);
    first [discriminate | vm_compute; reflexivity].
Defined.

(** ** A page on which no click starts anything *)

Lemma dead_click v ev s :
  page_dead s → user_event ev → handler v ev s = Ok tt s.
Proof.
  intros [Hd Hp] Hev. destruct ev as [net|net text pf uo|net idx]; [done|..].
  - now apply disabled_run_click_is_ignored.
  - destruct v; simpl;
      unfold V1.plotly_click, V2.plotly_click, V3.plotly_click, V4.plotly_click;
      m_unfold; now rewrite Hp.
Qed.



(** ** The page load of the first variant *)

Ltac V1_init_cases net :=
  unfold V1.init, V1.loadTokenizer, V1.loadCoords, V1.loadVocabAndVec, build_tokenizer;
  m_unfold; simpl;
  case_bool_decide; simpl;
  [destruct (net_build net) as [?tk| |] eqn:?; simpl;
   [destruct (net_coords net) as [?rows|] eqn:?; simpl;
    [destruct (net_vocab net) as [?v|] eqn:?; simpl;
     [destruct (net_vec net) as [?buf|] eqn:?; simpl;
      [destruct (Float32.view _) as [?vd|] eqn:?; simpl;
       [case_bool_decide; simpl|]|]|]|]| |]|].

Lemma V1_init_never_throws net s : throws (V1.init net s) = false.
Proof. V1_init_cases net; done. Qed.

Lemma V1_init_requests net s :
  ∃ l, fetched (final_state (V1.init net s)) = fetched s ++ l
       ∧ l `prefix_of` [COORDS_CSV; VOCAB_JSON; VEC_BIN].
Proof.
  V1_init_cases net.
  all: eexists; split;
    [first [symmetry; apply app_nil_r | rewrite <- ?app_assoc; simpl; reflexivity]|].
  all: by eexists.
Qed.

Lemma V1_init_build_first net s :
  (∀ tk, net_build net ≠ Built tk) →
  fetched (final_state (V1.init net s)) = fetched s.
Proof.
  V1_init_cases net; intros Hb; first [done | by destruct (Hb _ eq_refl)].
Qed.

Lemma V1_init_pending net s s' :
  V1.init net s = Pending s' →
  net_build net = BuildHangs ∧ run_disabled s' = true ∧ fetched s' = fetched s.
Proof. V1_init_cases net; try done. now intros [= <-]. Qed.

Lemma V1_init_returns net s s' :
  V1.init net s = Ok tt s' →
  (run_disabled s' = false ∧ status s' = MSG_READY ∧ alerts s' = alerts s
   ∧ is_Some (tokenizer s') ∧ tables_fit s'
   ∧ fetched s' = fetched s ++ [COORDS_CSV; VOCAB_JSON; VEC_BIN])
  ∨ (run_disabled s' = true ∧ status s' = MSG_INIT_ERROR
     ∧ alerts s' = alerts s
                   ++ [AlertText "初期化に失敗しました。パスやファイル内容を確認してください。"]
     ∧ plot s' = plot s ∧ currentWords s' = currentWords s).
Proof.
  V1_init_cases net; try done; intros [= <-]; simpl;
    try (right; split_and!; done).
  left. split_and!; try done.
  - eexists. split; [reflexivity|]. simpl. apply fits_of_bound. auto.
  - now rewrite <- !app_assoc.
Qed.

(** X9. [init] of the first variant never rejects.  The tokenizer is built
    before anything is requested, and the three files are requested in the
    order coordinates, vocabulary, vectors, up to the first failure.  When
    [init] returns, either everything is loaded (the button is enabled, the
    status reads ready, the tables fit and the three files were requested),
    or the error was caught: the status and one alert report it and the
    button stays disabled.  [init] stays suspended only in a build that
    never calls back. *)
Theorem V1_init_outcome net s :
  throws (V1.init net s) = false
  ∧ (∃ l, fetched (final_state (V1.init net s)) = fetched s ++ l
          ∧ l `prefix_of` [COORDS_CSV; VOCAB_JSON; VEC_BIN])
  ∧ ((∀ tk, net_build net ≠ Built tk) →
       fetched (final_state (V1.init net s)) = fetched s)
  ∧ (∀ s', V1.init net s = Pending s' →
       net_build net = BuildHangs ∧ run_disabled s' = true
       ∧ fetched s' = fetched s)
  ∧ (∀ s', V1.init net s = Ok tt s' →
       (run_disabled s' = false ∧ status s' = MSG_READY ∧ alerts s' = alerts s
        ∧ is_Some (tokenizer s') ∧ tables_fit s'
        ∧ fetched s' = fetched s ++ [COORDS_CSV; VOCAB_JSON; VEC_BIN])
       ∨ (run_disabled s' = true ∧ status s' = MSG_INIT_ERROR
          ∧ alerts s' = alerts s
                        ++ [AlertText "初期化に失敗しました。パスやファイル内容を確認してください。"]
          ∧ plot s' = plot s ∧ currentWords s' = currentWords s)).
Proof.
  split_and!.
  - apply V1_init_never_throws.
  - apply V1_init_requests.
  - apply V1_init_build_first.
  - apply V1_init_pending.
  - apply V1_init_returns.
Qed.

(** ** The clicks of the first variant *)

Lemma renderPlot_ok ws xy s :
  PLOTLY_URL ∈ libs s → renderPlot ws xy s = Ok tt (set_plot (Some (ws, xy)) s).
Proof. intros H. unfold renderPlot. m_unfold. now rewrite bool_decide_true. Qed.

Lemma V1_showSimilar_returns w s :
  is_Some (vecData s) → returns (V1.showSimilar w s) = true.
Proof.
  intros [vd Hvd]. unfold V1.showSimilar. m_unfold. simpl. rewrite Hvd.
  now destruct (wordToIndex s !! w).
Qed.

Lemma V1_run_returns text pf uo s :
  is_Some (tokenizer s) → is_Some (vecData s) → PLOTLY_URL ∈ libs s →
  ∃ s', V1.run text pf uo s = Ok tt s'
        ∧ (run_disabled s' = false ∨ run_disabled s' = run_disabled s).
Proof.
  intros [tk Htk] Hvd Hlib. unfold V1.run. destruct (text =? "")%string.
  { eexists. split; [reflexivity|]. now right. }
  do 2 step_ok. erewrite bind_ok by (apply tokenize_ok; exact Htk). step_ok.
  cbv beta zeta. destruct (select_both _ _ _) as [kept xy].
  destruct (length kept <? 2).
  { eexists. split; [reflexivity|]. now left. }
  do 3 step_ok. erewrite bind_ok by (apply renderPlot_ok; exact Hlib).
  match goal with |- context [mbind _ (V1.showSimilar ?w) ?st] =>
    pose proof (V1_showSimilar_returns w st Hvd) as Hsh;
    destruct (V1.showSimilar w st) as [[] s5|e s5|s5] eqn:Heq; try discriminate
  end.
  erewrite bind_ok by exact Heq.
  eexists. split; [reflexivity|]. now left.
Qed.

Ltac core_side := intros; unfold tables_fit in *; simpl in *; assumption.

Lemma V1_core_click ev :
  user_event ev →
  preserves (fun s => is_Some (tokenizer s) ∧ tables_fit s ∧ PLOTLY_URL ∈ libs s)
            (handler Eager ev).
Proof.
  destruct ev as [net|net text pf uo|net idx]; [done|..]; intros _; simpl;
    unfold V1.run, V1.plotly_click, V1.showSimilar; preserves_with core_side.
Qed.

Lemma V1_live_click ev s :
  V1_live s → user_event ev →
  returns (handler Eager ev s) = true ∧ V1_live (step Eager s ev).
Proof.
  intros (Hd & Htk & Hfit & Hlib) Hev.
  pose proof (V1_core_click ev Hev s (conj Htk (conj Hfit Hlib))) as Hcore.
  assert (Hvd : is_Some (vecData s)) by (destruct Hfit as (vd & -> & _); by eexists).
  unfold step. destruct ev as [net|net text pf uo|net idx]; [done|..].
  - simpl in *. revert Hcore. m_unfold. rewrite Hd.
    destruct (V1_run_returns text pf uo s Htk Hvd Hlib) as (s' & -> & Hrd).
    intros Hcore. split; [done|]. simpl. split; [|exact Hcore].
    destruct Hrd; congruence.
  - assert (Hrd : run_disabled (final_state (handler Eager (PlotClick net idx) s)) = false).
    { apply (preserves_final (fun s1 => run_disabled s1 = false)); [|done].
      simpl. unfold V1.plotly_click, V1.showSimilar.
      preserves_with ltac:(intros; simpl in *; assumption). }
    assert (Hret : returns (handler Eager (PlotClick net idx) s) = true).
    { simpl. unfold V1.plotly_click. m_unfold.
      destruct (plot s) as [[ws pts]|]; [|done].
      destruct (ws !! idx); [|done]. now apply V1_showSimilar_returns. }
    split; [exact Hret|]. now destruct (handler Eager (PlotClick net idx) s).
Qed.

Lemma V1_init_live_or_dead net s :
  PLOTLY_URL ∈ libs s → plot s = None →
  page_dead (final_state (V1.init net s)) ∨ V1_live (final_state (V1.init net s)).
Proof.
  intros Hlib Hp. unfold page_dead, V1_live.
  V1_init_cases net; try (left; split; done).
  right. split_and!; try done.
  eexists. split; [reflexivity|]. simpl. apply fits_of_bound. auto.
Qed.

Lemma V1_session_live_or_dead evs s :
  Forall user_event evs → page_dead s ∨ V1_live s →
  page_dead (session Eager evs s) ∨ V1_live (session Eager evs s).
Proof.
  intros Hevs. revert s. induction Hevs as [|ev evs Hev _ IH]; intros s Hs; [done|].
  simpl. apply IH. destruct Hs as [Hs|Hs].
  - left. unfold step. now rewrite dead_click.
  - right. now apply V1_live_click.
Qed.



(** ** Requests *)

Lemma fetch_requested (ok : Asset → Prop) f0 {A} (a : Asset) (body : option A) :
  ok a → preserves (requested_only ok f0) (fetch a body).
Proof.
  intros Hok s (l & Hl & Hall). unfold fetch.
  destruct body; simpl; exists (l ++ [a]);
    (split; [now rewrite Hl, app_assoc|apply Forall_app; split; [done|]]);
    repeat constructor; done.
Qed.

Ltac requested_side := intros; unfold requested_only in *; simpl in *; assumption.

Ltac requested_step :=
  first
    [ lazymatch goal with
      | |- preserves _ (fetch _ _) => apply fetch_requested; simpl; auto
      end
    | preserves_step requested_side ].

Lemma requested_handler v ev f0 :
  preserves (requested_only (may_request v ev) f0) (handler v ev).
Proof.
  destruct ev as [net|net text pf uo|net idx], v; simpl;
    unfold V1.init, V4.init, V1.run, V2.run, V3.run, V4.run,
      V1.plotly_click, V2.plotly_click, V3.plotly_click, V4.plotly_click,
      V1.showSimilar, V2.showSimilar, V3.showSimilar, V4.showSimilar,
      V2.rank_and_show, V1.loadTokenizer, V4.loadTokenizer, V1.loadCoords,
      V1.loadVocabAndVec, V2.ensureLibsAndTokenizer, V2.ensureCoords,
      V2.ensureSimModel, V3.ensurePlotly, V3.ensureTokenizer,
      V3.buildTokenizerWithTimeout, V3.ensureCoords, V3.ensureSimModel,
      V4.ensureCoordsLoaded, V4.ensureSimModelLoaded;
    repeat requested_step.
Qed.

(** X11. Each file is requested by one kind of event only.  In the lazy
    variants the page load requests nothing, a click on the run button
    requests nothing but [coords.csv], and a click on a plotted point nothing
    but the vocabulary and the vector file; in the first variant only the
    page load makes requests.  The log of requests only grows. *)
Theorem events_request_only_their_files v ev s :
  ∃ l, fetched (step v s ev) = fetched s ++ l ∧ Forall (may_request v ev) l.
Proof.
  apply (preserves_final (requested_only (may_request v ev) (fetched s))).
  - apply requested_handler.
  - exists []. split; [now rewrite app_nil_r|constructor].
Qed.

(** ** A script that failed to load *)

Lemma loadScriptOnce_keeps_failed src (F : State → Prop) net src' :
  (∀ v s, F s → F (set_scripts v s)) → (∀ v s, F s → F (set_libs v s)) →
  preserves (fun s => script_failed src s ∧ F s) (loadScriptOnce net src').
Proof.
  intros HF1 HF2 s [[Hin Hnot] HF]. unfold loadScriptOnce, script_failed. m_unfold.
  case_bool_decide as Hs'; simpl; [done|].
  assert (src' ≠ src) by congruence.
  destruct (net_script net src'); simpl;
    (split; [split; rewrite ?elem_of_app, ?list_elem_of_singleton; intuition congruence|auto]).
Qed.

Lemma renderPlot_without_library p ws xy :
  preserves (fun s => script_failed PLOTLY_URL s ∧ plot s = p) (renderPlot ws xy).
Proof.
  intros s [[Hin Hnot] Hp]. unfold renderPlot. m_unfold.
  now rewrite bool_decide_false.
Qed.

Ltac plotly_side := intros; unfold script_failed in *; simpl in *; assumption.

Ltac plotly_step :=
  first
    [ lazymatch goal with
      | |- preserves _ (loadScriptOnce _ _) =>
          apply (loadScriptOnce_keeps_failed PLOTLY_URL (fun s => plot s = _));
          plotly_side
      | |- preserves _ (renderPlot _ _) => apply renderPlot_without_library
      end
    | preserves_step plotly_side ].

Lemma plotly_failed_handler v ev p :
  v = Lazy2 ∨ v = Lazy3 →
  preserves (fun s => script_failed PLOTLY_URL s ∧ plot s = p) (handler v ev).
Proof.
  intros [-> | ->]; destruct ev as [net|net text pf uo|net idx]; simpl;
    unfold V2.run, V3.run, V2.plotly_click, V3.plotly_click,
      V2.showSimilar, V3.showSimilar, V2.rank_and_show,
      V2.ensureLibsAndTokenizer, V2.ensureCoords,
      V2.ensureSimModel, V3.ensurePlotly, V3.ensureTokenizer,
      V3.buildTokenizerWithTimeout, V3.ensureCoords, V3.ensureSimModel;
    repeat plotly_step.
Qed.

Lemma build_without_library {B} net t (f : Tokenizer → M B) :
  preserves (fun s => script_failed KUROMOJI_URL s ∧ tokenizer s = t)
            (build_tokenizer net ≫= f).
Proof.
  intros s [[Hin Hnot] Ht]. unfold build_tokenizer. m_unfold.
  now rewrite bool_decide_false.
Qed.

Lemma V3_build_without_library {B} net t (f : Tokenizer → M B) :
  preserves (fun s => script_failed KUROMOJI_URL s ∧ tokenizer s = t)
            (V3.buildTokenizerWithTimeout net ≫= f).
Proof.
  intros s [[Hin Hnot] Ht].
  unfold V3.buildTokenizerWithTimeout, V3.race_timeout, loadScriptOnce, build_tokenizer.
  m_unfold. rewrite bool_decide_true by done. simpl.
  now rewrite bool_decide_false.
Qed.

Ltac kuromoji_step :=
  first
    [ lazymatch goal with
      | |- preserves _ (loadScriptOnce _ _) =>
          apply (loadScriptOnce_keeps_failed KUROMOJI_URL (fun s => tokenizer s = _));
          plotly_side
      | |- preserves _ (mbind _ (build_tokenizer _)) => apply build_without_library
      | |- preserves _ (mbind _ (V3.buildTokenizerWithTimeout _)) =>
          apply V3_build_without_library
      end
    | preserves_step plotly_side ].

Lemma kuromoji_failed_handler v ev t :
  v = Lazy2 ∨ v = Lazy3 →
  preserves (fun s => script_failed KUROMOJI_URL s ∧ tokenizer s = t) (handler v ev).
Proof.
  intros [-> | ->]; destruct ev as [net|net text pf uo|net idx]; simpl;
    unfold V2.run, V3.run, V2.plotly_click, V3.plotly_click,
      V2.showSimilar, V3.showSimilar, V2.rank_and_show, V2.ensureCoords,
      V2.ensureLibsAndTokenizer, V3.ensureTokenizer,
      V2.ensureSimModel, V3.ensurePlotly, V3.ensureCoords, V3.ensureSimModel;
    repeat kuromoji_step.
Qed.

Lemma invariant_session (I : State → Prop) v evs s :
  (∀ ev, preserves I (handler v ev)) → I s → I (session v evs s).
Proof.
  intros H. revert s. induction evs as [|ev evs IH]; intros s Hs; [done|].
  simpl. apply IH. unfold step. now apply preserves_final.
Qed.

(** X12. [loadScriptOnce] resolves at once when the document already holds
    a tag for the script, also when that tag failed to load.  So in the
    second and third variant a library whose first load failed stays
    undefined through every later session: without Plotly nothing is ever
    drawn, and without kuromoji no tokenizer is ever set. *)
Theorem failed_script_is_not_loaded_again v evs s :
  v = Lazy2 ∨ v = Lazy3 →
  (script_failed PLOTLY_URL s →
     script_failed PLOTLY_URL (session v evs s) ∧ plot (session v evs s) = plot s)
  ∧ (script_failed KUROMOJI_URL s →
     script_failed KUROMOJI_URL (session v evs s)
     ∧ tokenizer (session v evs s) = tokenizer s).
Proof.
  intros Hv. split; intros Hf.
  - apply (invariant_session
             (fun s1 => script_failed PLOTLY_URL s1 ∧ plot s1 = plot s)); [|done].
    intros ev. now apply plotly_failed_handler.
  - apply (invariant_session
             (fun s1 => script_failed KUROMOJI_URL s1 ∧ tokenizer s1 = tokenizer s));
      [|done].
    intros ev. now apply kuromoji_failed_handler.
Qed.

Lemma failed_script_is_not_loaded_again_witness :
  script_failed PLOTLY_URL V2_no_plotly
  ∧ script_failed PLOTLY_URL
      (session Lazy2 [RunClick Demo.net_ok "猫と犬" true false] V2_no_plotly)
  ∧ plot (session Lazy2 [RunClick Demo.net_ok "猫と犬" true false] V2_no_plotly)
    = plot V2_no_plotly.
Proof.
  assert (Hs : scripts V2_no_plotly = [PLOTLY_URL]) by (vm_compute; reflexivity).
  assert (Hl : libs V2_no_plotly = []) by (vm_compute; reflexivity).
  assert (Hf : script_failed PLOTLY_URL V2_no_plotly).
  { unfold script_failed. rewrite Hs, Hl. split; set_solver. }
  split; [exact Hf|].
  exact (proj1 (failed_script_is_not_loaded_again Lazy2
                  [RunClick Demo.net_ok "猫と犬" true false] V2_no_plotly
                  (or_introl eq_refl)) Hf).
Defined.

(** ** The coordinate table *)

Lemma coords_step_valid (m : gmap string Point) (r : Row) :
  coords_step m r = if row_valid r then <[r.1.1 := (r.1.2, r.2)]> m else m.
Proof.
  destruct r as [[w x] y]. unfold coords_step, row_valid. simpl.
  destruct (w =? "")%string; [done|]. simpl. now destruct (Num.isFinite x && Num.isFinite y).
Qed.

Lemma coords_fold_lookup (rows : list Row) (m : gmap string Point) (w : string) :
  fold_left coords_step rows m !! w
  = match last (filter (fun r => row_valid r = true ∧ r.1.1 = w) rows) with
    | Some r => Some (r.1.2, r.2)
    | None => m !! w
    end.
Proof.
  revert m. induction rows as [|r rows IH]; intros m; [done|].
  cbn [fold_left]. rewrite IH, coords_step_valid, filter_cons.
  destruct (decide (row_valid r = true ∧ r.1.1 = w)) as [[Hv Hw]|Hn].
  - rewrite Hv, last_cons.
    destruct (last (filter _ rows)); [done|]. rewrite <- Hw. apply lookup_insert_eq.
  - destruct (last (filter _ rows)); [done|].
    destruct (row_valid r) eqn:Hv; [|done].
    apply lookup_insert_ne. intros Hw. apply Hn. done.
Qed.

(** X13. The coordinate of a word after loading [coords.csv] is taken from
    the last data row of that word with two finite coordinates: the header
    row is never read, rows with an empty word or a coordinate that is not
    a finite number are skipped, a later row replaces an earlier one, and a
    word without such a row keeps what the table held before. *)
Theorem coordinate_is_the_last_valid_row (lines : list Row) (m : gmap string Point)
    (w : string) :
  coords_loop lines m !! w
  = match last (rows_for w lines) with
    | Some r => Some (r.1.2, r.2)
    | None => m !! w
    end.
Proof. unfold coords_loop, rows_for. apply coords_fold_lookup. Qed.

Lemma coords_loop_finite lines m :
  table_finite m → table_finite (coords_loop lines m).
Proof.
  intros Hm w c. unfold coords_loop. rewrite (coords_fold_lookup (drop 1 lines) m w).
  destruct (last _) as [r|] eqn:Hl; [|apply Hm].
  apply last_Some_elem_of, list_elem_of_filter in Hl as [[Hv Hw] _].
  intros [= <-]. unfold row_valid in Hv.
  apply andb_true_iff in Hv as [Hv Hy]. apply andb_true_iff in Hv as [Hv Hx].
  split; [|done]. subst w. intros He. rewrite He in Hv. done.
Qed.

(** ** What is drawn *)

Lemma preserves_get_bind {B} (I : State → Prop) (f : State → M B) :
  (∀ s0, I s0 → preserves I (f s0)) → preserves I (get ≫= f).
Proof. intros H s Hs. exact (H s Hs s Hs). Qed.

Lemma aligned_drawable (cm : gmap string Point) kept xy :
  table_finite cm → Forall2 (fun w c => cm !! w = Some c) kept xy →
  length kept = length xy ∧ Forall finite_point xy ∧ Forall (fun w => w ≠ "") kept.
Proof.
  intros Hcm H. split; [by eapply Forall2_length|].
  induction H as [|w c kept xy Hw _ [IH1 IH2]]; [split; constructor|].
  destruct (Hcm w c Hw). split; now constructor.
Qed.

Lemma select_coords_drawable cm words kept xy :
  table_finite cm → select_coords cm words = (kept, xy) →
  length kept = length xy ∧ Forall finite_point xy ∧ Forall (fun w => w ≠ "") kept.
Proof.
  intros Hcm Hs. pose proof (select_coords_aligned cm words) as H.
  rewrite Hs in H. now apply (aligned_drawable cm).
Qed.

Lemma select_both_drawable cm wti words kept xy :
  table_finite cm → select_both cm wti words = (kept, xy) →
  length kept = length xy ∧ Forall finite_point xy ∧ Forall (fun w => w ≠ "") kept.
Proof.
  intros Hcm Hs. pose proof (select_both_aligned cm wti words) as H.
  rewrite Hs in H. now apply (aligned_drawable cm).
Qed.

Lemma renderPlot_drawable kept xy :
  2 ≤ length kept → length kept = length xy → Forall finite_point xy →
  Forall (fun w => w ≠ "") kept → preserves drawable (renderPlot kept xy).
Proof.
  intros H2 Hl Hf Hn s [Hc Hp]. unfold renderPlot. m_unfold.
  case_bool_decide; simpl; [|done]. split; [done|].
  intros ws pts [= <- <-]. done.
Qed.

Ltac drawable_side :=
  intros; unfold drawable, plot_ok in *; simpl in *;
  first [assumption
        | match goal with
          | H : _ ∧ _ |- _ =>
              destruct H; split; [apply coords_loop_finite|]; assumption
          end].

Ltac drawable_facts :=
  match goal with
  | HI : drawable ?s0, Hs : select_coords (coordMap ?s0) _ = _ |- _ =>
      destruct (select_coords_drawable _ _ _ _ (proj1 HI) Hs) as (? & ? & ?)
  | HI : drawable ?s0, Hs : select_both (coordMap ?s0) _ _ = _ |- _ =>
      destruct (select_both_drawable _ _ _ _ _ (proj1 HI) Hs) as (? & ? & ?)
  end;
  first [assumption | apply Nat.ltb_ge; assumption].

Ltac drawable_step :=
  first
    [ lazymatch goal with
      | |- preserves _ (mbind _ get) => apply preserves_get_bind; intros ? ?
      | |- preserves _ (renderPlot _ _) => apply renderPlot_drawable; drawable_facts
      | |- preserves _ (if ?b then _ else _) => destruct b eqn:?
      | |- preserves _ (match ?x with _ => _ end) => destruct x eqn:?
      end
    | preserves_step drawable_side ].

Lemma drawable_handler v ev : preserves drawable (handler v ev).
Proof.
  destruct ev as [net|net text pf uo|net idx], v; simpl;
    unfold V1.init, V4.init, V1.run, V2.run, V3.run, V4.run,
      V1.plotly_click, V2.plotly_click, V3.plotly_click, V4.plotly_click,
      V1.showSimilar, V2.showSimilar, V3.showSimilar, V4.showSimilar,
      V2.rank_and_show, V1.loadTokenizer, V4.loadTokenizer, V1.loadCoords,
      V1.loadVocabAndVec, V2.ensureLibsAndTokenizer, V2.ensureCoords,
      V2.ensureSimModel, V3.ensurePlotly, V3.ensureTokenizer,
      V3.buildTokenizerWithTimeout, V3.ensureCoords, V3.ensureSimModel,
      V4.ensureCoordsLoaded, V4.ensureSimModelLoaded;
    repeat drawable_step.
Qed.

(** X14. In every variant, whatever the files hold and whatever the user
    does: every entry of the coordinate table has a word that is not empty
    and two finite coordinates, and what was drawn last has at least two
    points, one label for each point, finite coordinates only and no empty
    label. *)
Theorem every_plot_is_drawable v evs :
  let s := session v evs (initial v) in
  table_finite (coordMap s)
  ∧ ∀ ws pts, plot s = Some (ws, pts) →
      2 ≤ length ws ∧ length ws = length pts
      ∧ Forall finite_point pts ∧ Forall (fun w => w ≠ "") ws.
Proof.
  apply (invariant_session drawable); [apply drawable_handler|].
  split; [|now destruct v]. intros w c H. destruct v; simpl in H;
    now rewrite lookup_empty in H.
Qed.

(** ** Lines and fields of [coords.csv] *)

Lemma split_on_nonempty sep s : split_on sep s ≠ [].
Proof.
  destruct s as [|c rest]; simpl; [done|].
  destruct (Ascii.eqb c sep); [done|]. now destruct (split_on sep rest).
Qed.

Lemma cons_head_app c l1 l2 : l1 ≠ [] → cons_head c (l1 ++ l2) = cons_head c l1 ++ l2.
Proof. now destruct l1. Qed.

Lemma split_on_app sep a b :
  split_on sep (a +:+ String sep b) = split_on sep a ++ split_on sep b.
Proof.
  induction a as [|c a IH]; simpl.
  - now rewrite Ascii.eqb_refl.
  - destruct (Ascii.eqb c sep); rewrite IH; [done|].
    apply cons_head_app, split_on_nonempty.
Qed.

Lemma split_on_no_sep sep s : contains sep s = false → split_on sep s = [s].
Proof.
  induction s as [|c s IH]; simpl; [done|].
  intros H. apply orb_false_iff in H as [Hc Hs]. rewrite Hc, IH by done. done.
Qed.

Lemma join_cons sep p q ps :
  join_str sep (p :: q :: ps) = p +:+ sep +:+ join_str sep (q :: ps).
Proof. reflexivity. Qed.

Lemma join_cons_head sep c l :
  l ≠ [] → join_str sep (cons_head c l) = String c (join_str sep l).
Proof. destruct l as [|p [|q ps]]; done. Qed.

Lemma join_split sep s : join_str (String sep EmptyString) (split_on sep s) = s.
Proof.
  induction s as [|c s IH]; [done|]. simpl.
  destruct (Ascii.eqb c sep) eqn:Hc.
  - apply Ascii.eqb_eq in Hc as ->.
    pose proof (split_on_nonempty sep s) as Hne.
    destruct (split_on sep s) as [|p ps] eqn:Hs; [done|].
    rewrite join_cons, IH. reflexivity.
  - rewrite join_cons_head by apply split_on_nonempty. now rewrite IH.
Qed.

Lemma split_join sep parts :
  parts ≠ [] → Forall (fun p => contains sep p = false) parts →
  split_on sep (join_str (String sep EmptyString) parts) = parts.
Proof.
  intros Hne Hall. induction Hall as [|p ps Hp Hps IH]; [done|].
  destruct ps as [|q ps]; [now apply split_on_no_sep|].
  rewrite join_cons.
  change (split_on sep (p +:+ String sep (join_str (String sep EmptyString) (q :: ps)))
          = p :: q :: ps).
  rewrite split_on_app, IH by done. now rewrite split_on_no_sep.
Qed.

Lemma split_on_parts sep s : Forall (fun p => contains sep p = false) (split_on sep s).
Proof.
  induction s as [|c s IH]; simpl; [repeat constructor|].
  destruct (Ascii.eqb c sep) eqn:Hc; [now constructor|].
  destruct (split_on sep s) as [|p ps]; simpl.
  - repeat constructor. simpl. now rewrite Hc.
  - apply Forall_cons in IH as [Hp Hps]. constructor; [|done]. simpl. now rewrite Hc.
Qed.

(** X15. [parseCSVLine] and [join] are inverse to each other: the fields of
    a line, joined by commas, give the line back, no field holds a comma,
    there is at least one field, and the fields of comma-free strings joined
    by commas are those strings.  Splitting distributes over a comma. *)
Theorem parseCSVLine_inverts_join (line : string) :
  parseCSVLine line ≠ []
  ∧ join_str "," (parseCSVLine line) = line
  ∧ Forall (fun p => contains "," p = false) (parseCSVLine line)
  ∧ (∀ parts, parts ≠ [] → Forall (fun p => contains "," p = false) parts →
              parseCSVLine (join_str "," parts) = parts)
  ∧ (∀ rest, parseCSVLine (line +:+ "," +:+ rest)
             = parseCSVLine line ++ parseCSVLine rest).
Proof.
  unfold parseCSVLine. split_and!.
  - apply split_on_nonempty.
  - apply join_split.
  - apply split_on_parts.
  - apply split_join.
  - intros rest. apply split_on_app.
Qed.

Lemma starts_with_contains c s : starts_with c s = true → contains c s = true.
Proof. destruct s as [|c' s]; simpl; [done|]. now intros ->. Qed.

Lemma split_lines_nonempty txt : split_lines txt ≠ [].
Proof.
  induction txt as [|c txt IH]; simpl; [done|].
  destruct (Ascii.eqb c LF); [done|].
  destruct (Ascii.eqb c CR && starts_with LF txt); [done|].
  now destruct (split_lines txt).
Qed.

Lemma split_lines_one txt : contains LF txt = false → split_lines txt = [txt].
Proof.
  induction txt as [|c txt IH]; simpl; [done|].
  intros H. apply orb_false_iff in H as [Hc Hs]. rewrite Hc, IH by done.
  destruct (starts_with LF txt) eqn:Hst.
  - apply starts_with_contains in Hst. congruence.
  - now rewrite andb_false_r.
Qed.

Lemma split_lines_cut l t :
  contains LF l = false →
  split_lines (l +:+ String LF t) = strip_CR l :: split_lines t.
Proof.
  induction l as [|c l IH]; simpl; [done|].
  intros H. apply orb_false_iff in H as [Hc Hs]. rewrite Hc.
  destruct l as [|c' l].
  - simpl. destruct (Ascii.eqb c CR); simpl; [done|].
    pose proof (split_lines_nonempty t). now destruct (split_lines t).
  - assert (Hst : starts_with LF (String c' l +:+ String LF t) = false).
    { simpl in *. now apply orb_false_iff in Hs as [-> _]. }
    rewrite Hst, andb_false_r, IH by done. reflexivity.
Qed.

Lemma split_lines_parts txt : Forall (fun l => contains LF l = false) (split_lines txt).
Proof.
  induction txt as [|c txt IH]; simpl; [repeat constructor|].
  destruct (Ascii.eqb c LF) eqn:Hc; [now constructor|].
  destruct (Ascii.eqb c CR && starts_with LF txt); [done|].
  destruct (split_lines txt) as [|p ps]; simpl.
  - repeat constructor. simpl. now rewrite Hc.
  - apply Forall_cons in IH as [Hp Hps]. constructor; [|done]. simpl. now rewrite Hc.
Qed.

(** X16. [txt.split(/\r?\n/)]: a text without line feed is one line; a
    line feed ends the line before it, which loses the carriage return it
    ends with, if any; and no line holds a line feed. *)
Theorem lines_are_cut_at_line_feeds :
  (∀ txt, contains LF txt = false → split_lines txt = [txt])
  ∧ (∀ l t, contains LF l = false →
            split_lines (l +:+ String LF t) = strip_CR l :: split_lines t)
  ∧ (∀ txt, Forall (fun l => contains LF l = false) (split_lines txt)).
Proof.
  split_and!; [apply split_lines_one|apply split_lines_cut|apply split_lines_parts].
Qed.

(** *** Rows *)

Lemma short_line_row toNumber line :
  length (parseCSVLine line) < 3 → row_valid (row_of_line toNumber line) = false.
Proof.
  intros H. unfold row_of_line, row_valid. cbv zeta. cbn [fst snd].
  rewrite (lookup_ge_None_2 _ 2) by lia. simpl. now rewrite andb_false_r.
Qed.

Lemma long_line_row toNumber line rest :
  3 ≤ length (parseCSVLine line) →
  row_of_line toNumber (line +:+ "," +:+ rest) = row_of_line toNumber line.
Proof.
  intros H. unfold row_of_line, parseCSVLine in *. cbv zeta.
  change (line +:+ "," +:+ rest) with (line +:+ String "," rest).
  rewrite split_on_app, !lookup_app_l by lia. reflexivity.
Qed.

(** X17. A line with fewer than three fields never enters the coordinate
    table, whatever [Number] makes of its fields, because a missing field is
    converted to NaN; and a line with more than three fields is read as its
    first three fields. *)
Theorem rows_read_three_fields (toNumber : string → Number) (line : string)
    (m : gmap string Point) :
  (length (parseCSVLine line) < 3 → coords_step m (row_of_line toNumber line) = m)
  ∧ (∀ rest, 3 ≤ length (parseCSVLine line) →
             row_of_line toNumber (line +:+ "," +:+ rest) = row_of_line toNumber line).
Proof.
  split.
  - intros H. now rewrite coords_step_valid, short_line_row.
  - intros rest H. now apply long_line_row.
Qed.

Lemma append_snoc l c t : l +:+ String c t = (l +:+ String c EmptyString) +:+ t.
Proof.
  induction l as [|c' l IH]; [done|].
  change (String c' (l +:+ String c t) = String c' ((l +:+ String c EmptyString) +:+ t)).
  now f_equal.
Qed.

Lemma contains_snoc c l c' :
  contains c (l +:+ String c' EmptyString) = contains c l || Ascii.eqb c' c.
Proof.
  induction l as [|c0 l IH]; [simpl; now rewrite orb_false_r|].
  change (Ascii.eqb c0 c || contains c (l +:+ String c' EmptyString)
          = Ascii.eqb c0 c || contains c l || Ascii.eqb c' c).
  now rewrite IH, orb_assoc.
Qed.

Lemma strip_CR_snoc l : strip_CR (l +:+ String CR EmptyString) = l.
Proof.
  induction l as [|c l IH]; [done|].
  change (String c l +:+ String CR EmptyString)
    with (String c (l +:+ String CR EmptyString)).
  cbn [strip_CR]. rewrite IH. now destruct l.
Qed.

Lemma split_lines_join_lf ls :
  ls ≠ [] → Forall plain_line ls → split_lines (join_str (String LF "") ls) = ls.
Proof.
  intros Hne Hall. induction Hall as [|l ls [Hl Hs] Hls IH]; [done|].
  destruct ls as [|l2 ls]; [now apply split_lines_one|].
  rewrite join_cons.
  change (split_lines (l +:+ String LF (join_str (String LF "") (l2 :: ls)))
          = l :: l2 :: ls).
  rewrite split_lines_cut, IH, Hs by done. reflexivity.
Qed.

Lemma split_lines_join_crlf ls :
  ls ≠ [] → Forall plain_line ls →
  split_lines (join_str (String CR (String LF "")) ls) = ls.
Proof.
  intros Hne Hall. induction Hall as [|l ls [Hl Hs] Hls IH]; [done|].
  destruct ls as [|l2 ls]; [now apply split_lines_one|].
  rewrite join_cons.
  change (split_lines
            (l +:+ String CR (String LF (join_str (String CR (String LF "")) (l2 :: ls))))
          = l :: l2 :: ls).
  rewrite append_snoc, split_lines_cut, strip_CR_snoc, IH; [done..|].
  rewrite contains_snoc, Hl. reflexivity.
Qed.

(** X18. The line ends of the file do not matter: the same lines joined by
    carriage return and line feed or by line feed alone are split into the
    same lines again, so both files give the same rows and the same
    coordinate table. *)
Theorem line_ends_do_not_matter (toNumber : string → Number) (ls : list string)
    (m : gmap string Point) :
  ls ≠ [] → Forall plain_line ls →
  split_lines (join_str (String CR (String LF "")) ls) = ls
  ∧ split_lines (join_str (String LF "") ls) = ls
  ∧ coords_loop (rows_of_text toNumber (join_str (String CR (String LF "")) ls)) m
    = coords_loop (rows_of_text toNumber (join_str (String LF "") ls)) m.
Proof.
  intros Hne Hall.
  pose proof (split_lines_join_crlf ls Hne Hall) as H1.
  pose proof (split_lines_join_lf ls Hne Hall) as H2.
  split_and!; [done..|]. unfold rows_of_text, text_lines. now rewrite H1, H2.
Qed.

Lemma line_ends_do_not_matter_witness :
  split_lines (join_str (String CR (String LF "")) ["word,x,y"; "猫,1,2"; "犬,3,4"])
  = ["word,x,y"; "猫,1,2"; "犬,3,4"]
  ∧ split_lines (join_str (String LF "") ["word,x,y"; "猫,1,2"; "犬,3,4"])
    = ["word,x,y"; "猫,1,2"; "犬,3,4"]
  ∧ coords_loop (rows_of_text (fun _ => Num.one)
                   (join_str (String CR (String LF "")) ["word,x,y"; "猫,1,2"; "犬,3,4"])) ∅
    = coords_loop (rows_of_text (fun _ => Num.one)
                     (join_str (String LF "") ["word,x,y"; "猫,1,2"; "犬,3,4"])) ∅.
Proof.
  apply (line_ends_do_not_matter (fun _ => Num.one) ["word,x,y"; "猫,1,2"; "犬,3,4"] ∅).
  - discriminate.
  - repeat constructor.
Defined.

(** ** Tokenization *)

Lemma tokenize_loop_filter pf tokens :
  tokenize_loop pf tokens
  = map word_form (filter (fun t => token_kept pf t = true) tokens).
Proof.
  induction tokens as [|t rest IH]; [done|]. cbn [tokenize_loop]. cbv zeta.
  destruct (token_kept pf t) eqn:Hk.
  - rewrite filter_cons_True by done. unfold token_kept in Hk.
    apply andb_true_iff in Hk as [H1 H2]. apply negb_true_iff in H2. rewrite H2.
    assert (pf && negb (isTargetPOS t) = false) as ->
      by (destruct pf, (isTargetPOS t); done).
    cbn [map]. now rewrite IH.
  - rewrite filter_cons_False by congruence. unfold token_kept in Hk.
    apply andb_false_iff in Hk as [H1|H2].
    + assert (pf && negb (isTargetPOS t) = true) as ->
        by (destruct pf, (isTargetPOS t); done).
      exact IH.
    + apply negb_false_iff in H2. rewrite H2. now destruct (pf && _).
Qed.

Lemma tokenize_loop_words pf tokens :
  Forall (fun w => w ≠ "" ∧ trim_is_empty w = false) (tokenize_loop pf tokens).
Proof.
  rewrite tokenize_loop_filter. apply Forall_forall. intros w Hw.
  apply list_elem_of_fmap in Hw as (t & -> & Ht).
  apply list_elem_of_filter in Ht as [Ht _]. unfold token_kept in Ht.
  apply andb_true_iff in Ht as [_ Ht]. apply negb_true_iff, orb_false_iff in Ht as [H1 H2].
  split; [|done]. now apply String.eqb_neq.
Qed.

Lemma tokenize_loop_pos_sublist tokens :
  tokenize_loop true tokens `sublist_of` tokenize_loop false tokens.
Proof.
  induction tokens as [|t rest IH]; [done|]. cbn [tokenize_loop]. cbv zeta.
  cbn [andb]. destruct (negb (isTargetPOS t)).
  - destruct (_ || _); [done|]. now apply sublist_cons.
  - destruct (_ || _); [done|]. now apply sublist_skip.
Qed.

(** X19. The word list of a text holds, in the order of the tokens, the
    word of every token that passes: with the part-of-speech filter on only
    nouns, verbs and adjectives pass, and a word without a character other
    than white space never passes.  Hence no word of the list is empty or
    blank, and the list with the filter on is a sublist of the list with the
    filter off. *)
Theorem tokenize_keeps_the_words_that_pass (pf : bool) (tokens : list Token) :
  tokenize_loop pf tokens
  = map word_form (filter (fun t => token_kept pf t = true) tokens)
  ∧ Forall (fun w => w ≠ "" ∧ trim_is_empty w = false) (tokenize_loop pf tokens)
  ∧ tokenize_loop true tokens `sublist_of` tokenize_loop false tokens
  ∧ (∀ tk text s, tokenizer s = Some tk →
       tokenize pf text s = Ok (tokenize_loop pf (tk text)) s)
  ∧ (∀ text s, tokenizer s = None → tokenize pf text s = Throw TypeError s).
Proof.
  split_and!.
  - apply tokenize_loop_filter.
  - apply tokenize_loop_words.
  - apply tokenize_loop_pos_sublist.
  - intros tk text s H. now apply tokenize_ok.
  - intros text s H. unfold tokenize. m_unfold. now rewrite H.
Qed.

(** ** Deduplication and selection *)

Lemma Set_of_NoDup_id (l : list string) : NoDup l → Set_of l = l.
Proof.
  induction l as [|a l IH] using rev_ind; [done|].
  intros Hnd. apply NoDup_app in Hnd as (Hl & Hdis & _).
  rewrite Set_of_snoc, IH by done. unfold Set_add.
  rewrite bool_decide_false; [done|]. intros Ha. apply (Hdis a Ha). now left.
Qed.

Lemma Set_of_filter (P : string → Prop) `{∀ x, Decision (P x)} (l : list string) :
  Set_of (filter P l) = filter P (Set_of l).
Proof.
  induction l as [|a l IH] using rev_ind; [done|].
  rewrite filter_app, (Set_of_snoc l a). destruct (decide (P a)) as [Ha|Ha].
  - rewrite filter_cons_True, filter_nil by done. rewrite Set_of_snoc, IH.
    unfold Set_add. case_bool_decide as H1; case_bool_decide as H2.
    + done.
    + exfalso. apply H2. apply list_elem_of_filter in H1. tauto.
    + exfalso. apply H1. apply list_elem_of_filter. done.
    + rewrite filter_app, filter_cons_True, filter_nil by done. done.
  - rewrite filter_cons_False, filter_nil, app_nil_r, IH by done.
    unfold Set_add. case_bool_decide; [done|].
    rewrite filter_app, filter_cons_False, filter_nil, app_nil_r by done. done.
Qed.

(** X20. Deduplication changes nothing on a list without repetition, so
    doing it twice is doing it once; and it commutes with the selection of
    the plottable words: the words plotted with [uniqueOnly] checked are the
    first occurrences of the words plotted without it, and none of them is
    plotted twice. *)
Theorem unique_commutes_with_selection (cm : gmap string Point)
    (wti : gmap string nat) (words : list string) :
  apply_unique true (apply_unique true words) = apply_unique true words
  ∧ (NoDup words → apply_unique true words = words)
  ∧ (select_coords cm (apply_unique true words)).1
    = apply_unique true (select_coords cm (apply_unique false words)).1
  ∧ (select_both cm wti (apply_unique true words)).1
    = apply_unique true (select_both cm wti (apply_unique false words)).1
  ∧ NoDup (select_coords cm (apply_unique true words)).1
  ∧ NoDup (select_both cm wti (apply_unique true words)).1.
Proof.
  unfold apply_unique. rewrite !select_coords_kept, !select_both_kept.
  split_and!.
  - apply Set_of_NoDup_id, Set_of_NoDup.
  - apply Set_of_NoDup_id.
  - symmetry. apply Set_of_filter.
  - symmetry. apply Set_of_filter.
  - apply NoDup_filter, Set_of_NoDup.
  - apply NoDup_filter, Set_of_NoDup.
Qed.

Lemma select_both_of_coords cm wti words :
  (select_both cm wti words).1
  = filter (fun w => is_Some (wti !! w)) (select_coords cm words).1.
Proof.
  rewrite select_both_kept, select_coords_kept, list_filter_filter.
  apply list_filter_iff. intros w. unfold in_both, in_coords. tauto.
Qed.

Lemma select_both_eq_coords cm wti words :
  (∀ w, w ∈ words → is_Some (cm !! w) → is_Some (wti !! w)) →
  select_both cm wti words = select_coords cm words.
Proof.
  induction words as [|w rest IH]; intros H; [done|]. simpl.
  rewrite IH by (intros w' Hw'; apply H; now right).
  destruct (select_coords cm rest) as [kept xy].
  destruct (cm !! w) as [c|] eqn:Hc; [|done].
  rewrite bool_decide_true; [done|]. apply H; [now left|]. rewrite Hc. by eexists.
Qed.

(** X21. The selection of the first variant is the selection of the lazy
    variants restricted to the words with an index: it is a sublist of it,
    and both selections, words and points, coincide when every word of the
    text that has a coordinate has an index. *)
Theorem eager_selection_is_the_indexed_part (cm : gmap string Point)
    (wti : gmap string nat) (words : list string) :
  (select_both cm wti words).1
  = filter (fun w => is_Some (wti !! w)) (select_coords cm words).1
  ∧ (select_both cm wti words).1 `sublist_of` (select_coords cm words).1
  ∧ ((∀ w, w ∈ words → is_Some (cm !! w) → is_Some (wti !! w)) →
       select_both cm wti words = select_coords cm words).
Proof.
  split_and!.
  - apply select_both_of_coords.
  - rewrite select_both_of_coords. apply sublist_filter.
  - apply select_both_eq_coords.
Qed.

(** ** Fields that a handler leaves alone *)

Ltac frame_side :=
  intros; unfold plotted_frame, model_frame, display_frame in *; simpl in *;
  assumption.

Ltac unfold_handlers :=
  unfold V1.init, V4.init, V1.run, V2.run, V3.run, V4.run,
    V1.plotly_click, V2.plotly_click, V3.plotly_click, V4.plotly_click,
    V1.showSimilar, V2.showSimilar, V3.showSimilar, V4.showSimilar,
    V2.rank_and_show, V1.loadTokenizer, V4.loadTokenizer, V1.loadCoords,
    V1.loadVocabAndVec, V2.ensureLibsAndTokenizer, V2.ensureCoords,
    V2.ensureSimModel, V3.ensurePlotly, V3.ensureTokenizer,
    V3.buildTokenizerWithTimeout, V3.ensureCoords, V3.ensureSimModel,
    V4.ensureCoordsLoaded, V4.ensureSimModelLoaded.

Lemma plot_click_frame v net idx s :
  preserves (plotted_frame s) (handler v (PlotClick net idx)).
Proof. destruct v; simpl; unfold_handlers; preserves_with frame_side. Qed.

Lemma run_click_model_frame v net text pf uo s :
  preserves (model_frame s) (handler v (RunClick net text pf uo)).
Proof. destruct v; simpl; unfold_handlers; preserves_with frame_side. Qed.

Lemma run_click_display_frame v net text pf uo s :
  v ≠ Eager → preserves (display_frame s) (handler v (RunClick net text pf uo)).
Proof.
  intros Hv. destruct v; [done|..]; simpl; unfold_handlers;
    preserves_with frame_side.
Qed.

(** X22. Each click writes its own part of the page.  A click on a plotted
    point never changes the plotted words and points, the coordinate table,
    the tokenizer, the run button, the alerts or the scripts; a click on the
    run button never changes the similarity model; and in the lazy variants
    a click on the run button leaves the selected word and the list of
    similar words of the previous plot on display. *)
Theorem clicks_write_their_own_fields v net s :
  (∀ idx, plotted_frame s (step v s (PlotClick net idx)))
  ∧ (∀ text pf uo, model_frame s (step v s (RunClick net text pf uo)))
  ∧ (v ≠ Eager →
     ∀ text pf uo, display_frame s (step v s (RunClick net text pf uo))).
Proof.
  split_and!.
  - intros idx. apply (preserves_final (plotted_frame s)).
    + apply plot_click_frame.
    + unfold plotted_frame. split_and!; reflexivity.
  - intros text pf uo. apply (preserves_final (model_frame s)).
    + apply run_click_model_frame.
    + unfold model_frame. split_and!; reflexivity.
  - intros Hv text pf uo. apply (preserves_final (display_frame s)).
    + now apply run_click_display_frame.
    + unfold display_frame. split_and!; reflexivity.
Qed.

(** ** The labels of the plot *)

Lemma install_and_draw kept xy msg :
  preserves labels_current
    (modify (set_currentWords kept);; setStatus msg;; renderPlot kept xy).
Proof.
  intros s [Hlib Hlab]. unfold renderPlot. m_unfold. simpl.
  case_bool_decide as Hin; simpl.
  - split; [now right|]. simpl. now intros ws pts [= <- <-].
  - destruct Hlib as [Hc|Hc]; [|done]. split; [now left|]. simpl. now rewrite Hc.
Qed.

Lemma install_draw_and_go {B} kept xy msg (rest : M B) :
  preserves labels_current rest →
  preserves labels_current
    (modify (set_currentWords kept);; modify (set_currentXY xy);; setStatus msg;;
     renderPlot kept xy;; rest).
Proof.
  intros Hrest s [Hlib Hlab]. unfold renderPlot. m_unfold. simpl.
  case_bool_decide as Hin; simpl.
  - apply Hrest. split; [now right|]. simpl. now intros ws pts [= <- <-].
  - destruct Hlib as [Hc|Hc]; [|done]. split; [now left|]. simpl. now rewrite Hc.
Qed.

Lemma loadScriptOnce_labels net src : preserves labels_current (loadScriptOnce net src).
Proof.
  intros s [Hlib Hlab]. unfold loadScriptOnce. m_unfold.
  case_bool_decide; simpl; [done|].
  destruct (net_script net src); simpl; (split; [|done]); simpl;
    destruct Hlib as [Hc|Hc]; [now left|right|now left|now right].
  apply elem_of_app. now left.
Qed.

Ltac labels_side := intros; unfold labels_current in *; simpl in *; assumption.

Ltac labels_step :=
  first
    [ lazymatch goal with
      | |- preserves _ (mbind _ (modify (set_currentWords _))) =>
          first [apply install_and_draw | apply install_draw_and_go]
      | |- preserves _ (loadScriptOnce _ _) => apply loadScriptOnce_labels
      end
    | preserves_step labels_side ].

Lemma labels_handler v ev : preserves labels_current (handler v ev).
Proof.
  destruct ev as [net|net text pf uo|net idx], v; simpl; unfold_handlers;
    repeat labels_step.
Qed.


(** ** What a successful run leaves *)



Lemma V2_ensureLibs_ready net s tk :
  tokenizer s = Some tk → V2.ensureLibsAndTokenizer net s = Ok tt s.
Proof. intros H. unfold V2.ensureLibsAndTokenizer. m_unfold. now rewrite H. Qed.

Lemma V3_ensurePlotly_ready net s :
  PLOTLY_URL ∈ libs s → V3.ensurePlotly net s = Ok tt s.
Proof. intros H. unfold V3.ensurePlotly. m_unfold. now rewrite bool_decide_true. Qed.

Lemma V3_ensureTokenizer_ready net s tk :
  tokenizer s = Some tk → V3.ensureTokenizer net s = Ok tt s.
Proof. intros H. unfold V3.ensureTokenizer. m_unfold. now rewrite H. Qed.

Lemma ensureCoords_ready net s :
  coordsLoaded s = true →
  V2.ensureCoords net s = Ok tt s ∧ V3.ensureCoords net s = Ok tt s
  ∧ V4.ensureCoordsLoaded net s = Ok tt s.
Proof.
  intros H. unfold V2.ensureCoords, V3.ensureCoords, V4.ensureCoordsLoaded.
  m_unfold. now rewrite H.
Qed.

(** X25. [run] of a lazy variant on a page where the tokenizer, the
    coordinates and the drawing library are there, for a text with at least
    two plottable words: it returns without any request or alert; the
    plotted words are the selection, which is what is drawn; the status line
    gives their number; the button is enabled again; and the selected word
    and its list are left as they were. *)
Theorem lazy_run_plots_without_ranking net text pf uo s tk kept xy :
  text ≠ "" → tokenizer s = Some tk → coordsLoaded s = true →
  PLOTLY_URL ∈ libs s →
  select_coords (coordMap s) (run_words tk text pf uo) = (kept, xy) →
  2 ≤ length kept →
  (∃ s', V2.run net text pf uo s = Ok tt s' ∧ lazy_done V2.msg_done s kept xy s')
  ∧ (∃ s', V3.run net text pf uo s = Ok tt s' ∧ lazy_done V2.msg_done s kept xy s')
  ∧ (∃ s', V4.run net text pf uo s = Ok tt s' ∧ lazy_done V4.msg_done s kept xy s'
           ∧ currentXY s' = xy).
Proof.
  intros Ht Htk Hc Hlib Hsel Hlen. apply String.eqb_neq in Ht.
  apply Nat.ltb_ge in Hlen. unfold run_words in Hsel.
  unfold lazy_done. split_and!.
  - unfold V2.run. rewrite Ht. step_ok. unfold try_finally, try_catch.
    erewrite bind_ok by (apply (V2_ensureLibs_ready _ _ tk); exact Htk).
    step_ok. erewrite bind_ok by (apply tokenize_ok; exact Htk).
    erewrite bind_ok by (apply ensureCoords_ready; exact Hc).
    step_ok. simpl. rewrite Hsel, Hlen. do 2 step_ok.
    rewrite renderPlot_ok by exact Hlib.
    eexists. split; [reflexivity|]. split_and!; reflexivity.
  - unfold V3.run. rewrite Ht. step_ok. unfold try_finally, try_catch.
    erewrite bind_ok by (apply V3_ensurePlotly_ready; exact Hlib).
    erewrite bind_ok by (apply (V3_ensureTokenizer_ready _ _ tk); exact Htk).
    erewrite bind_ok by (apply ensureCoords_ready; exact Hc).
    step_ok. erewrite bind_ok by (apply tokenize_ok; exact Htk).
    step_ok. simpl. rewrite Hsel, Hlen. do 2 step_ok.
    rewrite renderPlot_ok by exact Hlib.
    eexists. split; [reflexivity|]. split_and!; reflexivity.
  - unfold V4.run. rewrite Ht. do 2 step_ok.
    erewrite bind_ok by (apply tokenize_ok; exact Htk).
    erewrite bind_ok by (apply ensureCoords_ready; exact Hc).
    step_ok. simpl. rewrite Hsel, Hlen. do 3 step_ok.
    erewrite bind_ok by (apply renderPlot_ok; exact Hlib).
    eexists. split; [reflexivity|]. split_and!; reflexivity.
Qed.

Lemma lazy_run_plots_without_ranking_witness :
  (∃ s', V2.run Demo.net_down "猫と犬" true true V3_warm = Ok tt s'
         ∧ lazy_done V2.msg_done V3_warm ["猫"; "犬"]
             [(Num.of_Z 1, Num.of_Z 2); (Num.of_Z 3, Num.of_Z 4)] s')
  ∧ (∃ s', V3.run Demo.net_down "猫と犬" true true V3_warm = Ok tt s'
           ∧ lazy_done V2.msg_done V3_warm ["猫"; "犬"]
               [(Num.of_Z 1, Num.of_Z 2); (Num.of_Z 3, Num.of_Z 4)] s')
  ∧ (∃ s', V4.run Demo.net_down "猫と犬" true true V3_warm = Ok tt s'
           ∧ lazy_done V4.msg_done V3_warm ["猫"; "犬"]
               [(Num.of_Z 1, Num.of_Z 2); (Num.of_Z 3, Num.of_Z 4)] s'
           ∧ currentXY s' = [(Num.of_Z 1, Num.of_Z 2); (Num.of_Z 3, Num.of_Z 4)]).
Proof.
  apply (lazy_run_plots_without_ranking Demo.net_down "猫と犬" true true V3_warm
           Demo.tk ["猫"; "犬"] [(Num.of_Z 1, Num.of_Z 2); (Num.of_Z 3, Num.of_Z 4)]).
  - discriminate.
  - vm_compute. reflexivity.
  - vm_compute. reflexivity.
  - assert (Hl : libs V3_warm = [PLOTLY_URL; KUROMOJI_URL])
      by (vm_compute; reflexivity).
    rewrite Hl. now left.
  - vm_compute. reflexivity.
  - simpl. lia.
Defined.

(** ** A failed request for the coordinates in the second and third variant *)

(** X26. In the second and third variant a failed request for
    [coords.csv] is caught: [run] returns with the button enabled, the
    status line set to the error message and one alert (in the third
    variant it carries the error); nothing is plotted or stored, and the
    coordinates stay unloaded, so that the next run requests the file
    again. *)
Theorem failed_coords_request_is_reported net text pf uo s tk :
  text ≠ "" → tokenizer s = Some tk → PLOTLY_URL ∈ libs s →
  coordsLoaded s = false → net_coords net = None →
  (∃ s' a, V2.run net text pf uo s = Ok tt s'
           ∧ alerts s' = alerts s ++ [AlertText a]
           ∧ run_disabled s' = false ∧ status s' = MSG_ERROR
           ∧ coordsLoaded s' = false ∧ coordMap s' = coordMap s
           ∧ currentWords s' = currentWords s ∧ plot s' = plot s
           ∧ fetched s' = fetched s ++ [COORDS_CSV])
  ∧ (∃ s', V3.run net text pf uo s = Ok tt s'
           ∧ alerts s' = alerts s ++ [AlertError (FetchFailed COORDS_CSV)]
           ∧ run_disabled s' = false ∧ status s' = MSG_ERROR
           ∧ coordsLoaded s' = false ∧ coordMap s' = coordMap s
           ∧ currentWords s' = currentWords s ∧ plot s' = plot s
           ∧ fetched s' = fetched s ++ [COORDS_CSV]).
Proof.
  intros Ht Htk Hlib Hc Hn. apply String.eqb_neq in Ht. split.
  - unfold V2.run. rewrite Ht. step_ok. unfold try_finally, try_catch.
    erewrite bind_ok by (apply (V2_ensureLibs_ready _ _ tk); exact Htk).
    step_ok. erewrite bind_ok by (apply tokenize_ok; exact Htk).
    erewrite bind_throw.
    2:{ unfold V2.ensureCoords. m_unfold. simpl. rewrite Hc, Hn. reflexivity. }
    eexists _, _. split; [reflexivity|]. split_and!; reflexivity || done.
  - unfold V3.run. rewrite Ht. step_ok. unfold try_finally, try_catch.
    erewrite bind_ok by (apply V3_ensurePlotly_ready; exact Hlib).
    erewrite bind_ok by (apply (V3_ensureTokenizer_ready _ _ tk); exact Htk).
    erewrite bind_throw.
    2:{ unfold V3.ensureCoords. m_unfold. simpl. rewrite Hc, Hn. reflexivity. }
    eexists. split; [reflexivity|]. split_and!; reflexivity || done.
Qed.

Lemma failed_coords_request_is_reported_witness :
  (∃ s' a, V2.run net_no_coords "猫と犬" true false V3_no_coords = Ok tt s'
           ∧ alerts s' = alerts V3_no_coords ++ [AlertText a]
           ∧ run_disabled s' = false ∧ status s' = MSG_ERROR
           ∧ coordsLoaded s' = false ∧ coordMap s' = coordMap V3_no_coords
           ∧ currentWords s' = currentWords V3_no_coords
           ∧ plot s' = plot V3_no_coords
           ∧ fetched s' = fetched V3_no_coords ++ [COORDS_CSV])
  ∧ (∃ s', V3.run net_no_coords "猫と犬" true false V3_no_coords = Ok tt s'
           ∧ alerts s' = alerts V3_no_coords ++ [AlertError (FetchFailed COORDS_CSV)]
           ∧ run_disabled s' = false ∧ status s' = MSG_ERROR
           ∧ coordsLoaded s' = false ∧ coordMap s' = coordMap V3_no_coords
           ∧ currentWords s' = currentWords V3_no_coords
           ∧ plot s' = plot V3_no_coords
           ∧ fetched s' = fetched V3_no_coords ++ [COORDS_CSV]).
Proof.
  apply (failed_coords_request_is_reported net_no_coords "猫と犬" true false
           V3_no_coords Demo.tk).
  - discriminate.
  - vm_compute. reflexivity.
  - assert (Hl : libs V3_no_coords = [PLOTLY_URL; KUROMOJI_URL])
      by (vm_compute; reflexivity).
    rewrite Hl. now left.
  - vm_compute. reflexivity.
  - reflexivity.
Defined.

(** ** The errors of a click on a plotted point *)

Ltac ensure_cases net s :=
  m_unfold; destruct (simLoaded s) eqn:?; simpl;
  [|destruct (net_vocab net) as [?v|]; simpl;
    [destruct (net_vec net) as [?buf|]; simpl;
     [destruct (Float32.view _) as [?vd|]; simpl; [case_bool_decide; simpl|]|]|]].

Lemma ensure_outcomes net s :
  (returned_or_load_error (V2.ensureSimModel net s)
   ∧ (∀ s', V2.ensureSimModel net s = Ok tt s' → simLoaded s' = true))
  ∧ (returned_or_load_error (V3.ensureSimModel net s)
     ∧ (∀ s', V3.ensureSimModel net s = Ok tt s' → simLoaded s' = true))
  ∧ (returned_or_load_error (V4.ensureSimModelLoaded net s)
     ∧ (∀ s', V4.ensureSimModelLoaded net s = Ok tt s' → simLoaded s' = true)).
Proof.
  unfold V2.ensureSimModel, V3.ensureSimModel, V4.ensureSimModelLoaded.
  split_and!; ensure_cases net s; try done; intros s' [= <-]; done.
Qed.

Lemma rank_and_show_returns w s :
  is_Some (vecData s) → returns (V2.rank_and_show w s) = true.
Proof.
  intros [vd Hvd]. unfold V2.rank_and_show. m_unfold. rewrite Hvd.
  now destruct (wordToIndex s !! w).
Qed.

Lemma showSimilar_outcome (ensure : M unit) w s :
  preserves model_in_range ensure →
  (∀ s1, returned_or_load_error (ensure s1)
         ∧ ∀ s', ensure s1 = Ok tt s' → simLoaded s' = true) →
  model_in_range s →
  returned_or_load_error
    ((modify (set_selectedWord w);; modify (set_simList []);; ensure;;
      V2.rank_and_show w) s).
Proof.
  intros Hfit Hout Hs. do 2 step_ok.
  set (s2 := set_simList [] (set_selectedWord w s)).
  assert (Hs2 : model_in_range s2) by exact Hs.
  specialize (Hfit s2 Hs2). destruct (Hout s2) as [Hr Hl].
  unfold mbind, M_bind.
  destruct (ensure s2) as [[] s3|e s3|s3]; [|exact Hr|exact Hr].
  destruct (Hfit (Hl s3 eq_refl)) as (vd & Hvd & _).
  pose proof (rank_and_show_returns w s3 ltac:(by eexists)) as Hrk.
  now destruct (V2.rank_and_show w s3).
Qed.

Lemma plot_click_outcome v net idx s :
  v ≠ Eager → model_in_range s →
  returned_or_load_error (handler v (PlotClick net idx) s).
Proof.
  intros Hv Hs. destruct v; [done|..]; simpl;
    unfold V2.plotly_click, V3.plotly_click, V4.plotly_click; m_unfold.
  - destruct (plot s) as [[ws pts]|]; [|done]. destruct (ws !! idx) as [w|]; [|done].
    apply (showSimilar_outcome (V2.ensureSimModel net));
      [apply V2_ensureSimModel_fits
      |intros s1; exact (proj1 (ensure_outcomes net s1))|done].
  - destruct (plot s) as [[ws pts]|]; [|done]. destruct (ws !! idx) as [w|]; [|done].
    apply (showSimilar_outcome (V3.ensureSimModel net));
      [apply V3_ensureSimModel_fits
      |intros s1; exact (proj1 (proj2 (ensure_outcomes net s1)))|done].
  - destruct (plot s) as [[ws pts]|]; [|done].
    destruct (currentWords s !! idx) as [w|]; [|done].
    apply (showSimilar_outcome (V4.ensureSimModelLoaded net));
      [apply V4_ensureSimModelLoaded_fits
      |intros s1; exact (proj2 (proj2 (ensure_outcomes net s1)))|done].
Qed.

(** X27. In the lazy variants a click on a plotted point never reads a
    table that is missing: after any session, its handler returns or rejects
    with an error of loading the similarity model (a failed request for the
    vocabulary or the vectors, a buffer that holds no whole number of
    floats, a size mismatch); it does not stay suspended, and once the load
    has returned the ranking returns. *)
Theorem plot_click_fails_only_in_loading v evs net idx :
  v ≠ Eager →
  returned_or_load_error (handler v (PlotClick net idx) (session v evs (initial v))).
Proof.
  intros Hv. apply plot_click_outcome; [done|].
  apply (invariant_session model_in_range).
  - intros ev. now apply model_in_range_handler.
  - intros H. now destruct v.
Qed.

Lemma plot_click_fails_only_in_loading_witness :
  returned_or_load_error
    (handler Lazy2 (PlotClick Demo.net_mismatch 0)
       (session Lazy2 [RunClick Demo.net_ok "猫と犬" true false] (initial Lazy2))).
Proof.
  apply (plot_click_fails_only_in_loading Lazy2
           [RunClick Demo.net_ok "猫と犬" true false] Demo.net_mismatch 0).
  discriminate.
Defined.

(** ** The clicks of the fourth variant *)

Lemma V4_init_live_or_dead net s :
  PLOTLY_URL ∈ libs s → plot s = None → model_in_range s →
  page_dead (final_state (V4.init net s)) ∨ V4_live (final_state (V4.init net s)).
Proof.
  intros Hlib Hp Hm. unfold page_dead, V4_live, V4.init, V4.loadTokenizer, build_tokenizer.
  m_unfold. case_bool_decide; simpl; [|left; done].
  destruct (net_build net) as [tk| |]; simpl; [|left; done..].
  right. split_and!; first [done | by eexists].
Qed.

Lemma V4_run_outcome net text pf uo s :
  V4_live s →
  match V4.run net text pf uo s with
  | Ok _ s' => V4_live s'
  | Throw e s' => e = FetchFailed COORDS_CSV ∧ page_dead s'
  | Pending _ => False
  end.
Proof.
  intros (Hd & [tk Htk] & Hlib & Hp & Hm). unfold V4.run.
  destruct (text =? "")%string.
  { simpl. unfold V4_live. split_and!; first [done | by eexists]. }
  do 2 step_ok. erewrite bind_ok by (apply tokenize_ok; exact Htk).
  unfold V4.ensureCoordsLoaded. m_unfold. simpl.
  destruct (coordsLoaded s) eqn:Hc; simpl;
    [|destruct (net_coords net) as [lines|]; simpl;
      [|split; [done|]; split; [done|]; simpl; now apply Hp]];
    (destruct (select_coords _ _) as [kept xy]; destruct (length kept <? 2); simpl;
     [|m_unfold; simpl; rewrite bool_decide_true by done; simpl]);
    unfold V4_live; simpl; split_and!; first [done | by eexists | congruence].
Qed.

Lemma V4_click_outcome net idx s :
  V4_live s →
  returned_or_load_error (V4.plotly_click net idx s)
  ∧ V4_live (final_state (V4.plotly_click net idx s)).
Proof.
  intros (Hd & Htk & Hlib & Hp & Hm).
  split; [exact (plot_click_outcome Lazy4 net idx s ltac:(done) Hm)|].
  pose proof (preserves_final _ _ s (plot_click_frame Lazy4 net idx s))
    as (_ & _ & F3 & _ & F5 & F6 & F7 & _ & _ & F10).
  { unfold plotted_frame. split_and!; reflexivity. }
  pose proof (preserves_final _ _ s
                (model_in_range_handler Lazy4 (PlotClick net idx) ltac:(done)) Hm)
    as Hm'.
  simpl in *. unfold V4_live. rewrite F3, F5, F6, F7, F10. done.
Qed.

Lemma V4_live_click ev s :
  V4_live s → user_event ev →
  returned_or_request_error (handler Lazy4 ev s)
  ∧ (page_dead (step Lazy4 s ev) ∨ V4_live (step Lazy4 s ev)).
Proof.
  intros Hs Hev. destruct ev as [net|net text pf uo|net idx]; [done|..].
  - unfold step. simpl. m_unfold. destruct Hs as (Hd & Hrest). rewrite Hd.
    pose proof (V4_run_outcome net text pf uo s (conj Hd Hrest)) as H.
    destruct (V4.run net text pf uo s) as [[] s'|e s'|s']; [|destruct H as [-> H]|done].
    + split; [done|]. now right.
    + split; [now left|]. now left.
  - unfold step. simpl. destruct (V4_click_outcome net idx s Hs) as [H1 H2].
    split; [|now right].
    destruct (V4.plotly_click net idx s); [done|now right|done].
Qed.

Lemma V4_session_live_or_dead evs s :
  Forall user_event evs → page_dead s ∨ V4_live s →
  page_dead (session Lazy4 evs s) ∨ V4_live (session Lazy4 evs s).
Proof.
  intros Hevs. revert s. induction Hevs as [|ev evs Hev _ IH]; intros s Hs; [done|].
  simpl. apply IH. destruct Hs as [Hs|Hs].
  - left. unfold step. now rewrite dead_click.
  - now apply V4_live_click.
Qed.


